(** * slack-anonymizer: redaction, identity hashing and message analysis

    A shallow embedding of [src/utils/anonymizer.js] and of the analyzer
    module ([utils/analyzer.js]) of the repository, with the properties of
    its specification stated and settled over the embedding.

    Data model.
    - A JavaScript string is modelled as a Rocq [string], read as its
      sequence of UTF-16 code units, each below 256 (the Latin-1 range).
      On that range the regular-expression classes [\w], [\d], [\s], the
      assertion [\b] and [toLowerCase] are modelled exactly.
    - A JavaScript number that the code only counts with is a [nat] or a
      [Z]; a number that the code divides or multiplies by a fraction, and
      a number that a caller supplies (the count of a reaction), is an
      IEEE 754 binary64 value, a [float] of [PrimFloat].
    - A plain object used as a dictionary is the list of its own properties
      in creation order, together with the members that every object
      inherits from [Object.prototype]. *)

From Stdlib Require Floats Uint63 DecimalString.
Import PrimFloat.
From Stdlib Require Import String Ascii List Bool Arith PeanoNat NArith ZArith Lia.
From Stdlib Require Import Permutation Sorted.
From Stdlib Require QArith Qround Qminmax Qabs.

Import ListNotations.

Set Implicit Arguments.
#[local] Set Warnings "-inexact-float".

(* ================================================================== *)
(** * Characters and strings *)
(* ================================================================== *)

Module Chars.

Definition code (c : ascii) : N := N_of_ascii c.

Definition between (lo hi : N) (c : ascii) : bool :=
  (N.leb lo (code c) && N.leb (code c) hi)%bool.

Definition is_digit : ascii -> bool := between 48 57.
Definition is_upper : ascii -> bool := between 65 90.
Definition is_lower : ascii -> bool := between 97 122.
Definition is_alpha (c : ascii) : bool := is_upper c || is_lower c.
Definition is_alnum (c : ascii) : bool := is_alpha c || is_digit c.

(** [\w] without the [u] and [i] flags: [[A-Za-z0-9_]]. *)
Definition is_word (c : ascii) : bool := is_alnum c || Ascii.eqb c "_".

(** [\s]: TAB, LF, VT, FF, CR, SPACE and NO-BREAK SPACE are the white
    space and line terminator code units below 256. *)
Definition is_space (c : ascii) : bool :=
  between 9 13 c || N.eqb (code c) 32 || N.eqb (code c) 160.

(** Membership of a character in the characters of a literal. *)
Fixpoint one_of (cs : string) (c : ascii) : bool :=
  match cs with
  | EmptyString => false
  | String d cs' => Ascii.eqb c d || one_of cs' c
  end.

(** [String.prototype.toLowerCase] on one code unit below 256: the
    letters A-Z and the Latin-1 capitals U+00C0-U+00DE (U+00D7, the
    multiplication sign, apart) move up by 32. *)
Definition lower (c : ascii) : ascii :=
  if is_upper c || (between 192 222 c && negb (N.eqb (code c) 215))
  then ascii_of_N (code c + 32)
  else c.

End Chars.

Import Chars.

(** Strings are processed as lists of code units. *)
Definition chars : Type := list ascii.

Definition explode (s : string) : chars := list_ascii_of_string s.
Definition implode (l : chars) : string := string_of_list_ascii l.

Definition toLowerCase (l : chars) : chars := map lower l.

(** [l.startsWith(p)] *)
Fixpoint starts_with (p l : chars) : bool :=
  match p, l with
  | [], _ => true
  | _ :: _, [] => false
  | a :: p', b :: l' => Ascii.eqb a b && starts_with p' l'
  end.

(** [l.includes(p)]: [p] occurs in [l] as a contiguous substring. *)
Fixpoint includes (l p : chars) : bool :=
  starts_with p l ||
  match l with
  | [] => false
  | _ :: l' => includes l' p
  end.

(* ================================================================== *)
(** * A backtracking matcher for the regular expressions of the source *)
(* ================================================================== *)

Module Regex.

(** The fragment of ECMAScript patterns that the source uses: character
    classes and literals, concatenation, greedy bounded and unbounded
    quantifiers and the word-boundary assertion. Groups only delimit the
    operand of a quantifier: no pattern has a back-reference, and every
    replacement is a literal without [$]. *)
Inductive re : Type :=
| Eps
| Chr (p : ascii -> bool)
| Seq (a b : re)
| Alt (a b : re)
| Rep (lo : nat) (hi : option nat) (a : re)
| WordB.

Definition next_is_word (s : chars) : bool :=
  match s with
  | [] => false
  | c :: _ => is_word c
  end.

Section Matcher.
Variable R : Type.

(** The iterations of a greedy quantifier whose operand is matched by
    [ma]: at most [n] more, at least [lo] more, then [k]. An iteration
    that consumes nothing once the minimum is reached fails, as in
    RepeatMatcher. *)
Fixpoint rep_loop (ma : bool -> chars -> (bool -> chars -> option R) -> option R)
         (k : bool -> chars -> option R)
         (n lo : nat) (prev : bool) (s : chars) {struct n} : option R :=
  match n with
  | O => match lo with O => k prev s | S _ => None end
  | S n' =>
      match
        ma prev s
           (fun prev' s' =>
              match lo with
              | O => if length s' <? length s
                     then rep_loop ma k n' O prev' s' else None
              | S lo' => rep_loop ma k n' lo' prev' s'
              end)
      with
      | Some x => Some x
      | None => match lo with O => k prev s | S _ => None end
      end
  end.

(** [rmatch r prev s k]: match [r] at the head of [s], the character
    before it being a word character iff [prev]; [k] is the rest of
    the pattern. The first success in the order of ECMAScript's
    backtracking (greedy quantifiers, left alternative first) is the
    result. An unbounded quantifier runs at most [lo + length s]
    iterations: beyond the minimum each one consumes a character. *)
Fixpoint rmatch (r : re) (prev : bool) (s : chars)
         (k : bool -> chars -> option R) {struct r} : option R :=
  match r with
  | Eps => k prev s
  | Chr p =>
      match s with
      | c :: t => if p c then k (is_word c) t else None
      | [] => None
      end
  | Seq a b => rmatch a prev s (fun prev' s' => rmatch b prev' s' k)
  | Alt a b =>
      match rmatch a prev s k with
      | Some x => Some x
      | None => rmatch b prev s k
      end
  | WordB => if xorb prev (next_is_word s) then k prev s else None
  | Rep lo hi a =>
      rep_loop (rmatch a) k
        (match hi with Some h => h | None => lo + length s end)
        lo prev s
  end.
End Matcher.

(** The text left after the first match of [r] at the head of [s]. *)
Definition match_at (r : re) (prev : bool) (s : chars) : option chars :=
  rmatch r prev s (fun _ s' => Some s').

(** [s.replace(/r/g, tok)], scanning [s] from the left. [skip] counts the
    characters still inside the match found last. After an empty match
    the scan moves one character on, as [lastIndex] does. *)
Fixpoint replace_from (r : re) (tok : chars) (prev : bool) (skip : nat)
         (s : chars) {struct s} : chars :=
  match s with
  | [] =>
      match skip, match_at r prev [] with
      | O, Some _ => tok
      | _, _ => []
      end
  | c :: t =>
      match skip with
      | S n => replace_from r tok (is_word c) n t
      | O =>
          match match_at r prev s with
          | Some rest =>
              match length s - length rest with
              | O => tok ++ c :: replace_from r tok (is_word c) 0 t
              | S n => tok ++ replace_from r tok (is_word c) n t
              end
          | None => c :: replace_from r tok (is_word c) 0 t
          end
      end
  end.

Definition replace_all (r : re) (tok : chars) (s : chars) : chars :=
  replace_from r tok false 0 s.

(** Does [r] match somewhere in [s]? *)
Fixpoint matches_from (r : re) (prev : bool) (s : chars) : bool :=
  match match_at r prev s with
  | Some _ => true
  | None =>
      match s with
      | [] => false
      | c :: t => matches_from r (is_word c) t
      end
  end.

Definition matches_in (r : re) (s : chars) : bool := matches_from r false s.

(** [s.match(/r/g) || []]: the matched substrings from left to right. *)
Fixpoint match_from (r : re) (prev : bool) (skip : nat) (s : chars)
         {struct s} : list chars :=
  match s with
  | [] =>
      match skip, match_at r prev [] with
      | O, Some _ => [[]]
      | _, _ => []
      end
  | c :: t =>
      match skip with
      | S n => match_from r (is_word c) n t
      | O =>
          match match_at r prev s with
          | Some rest =>
              let n := length s - length rest in
              firstn n s :: match_from r (is_word c) (pred n) t
          | None => match_from r (is_word c) 0 t
          end
      end
  end.

Definition match_all (r : re) (s : chars) : list chars :=
  match_from r false 0 s.

(** [s.split(/r/)] for a pattern without capture groups. [cur] is the
    piece being collected, in reverse; [fresh] tells that no character
    was read since the last separator, where an empty match is no
    separator. *)
Fixpoint split_from (r : re) (prev : bool) (skip : nat) (fresh : bool)
         (cur : chars) (s : chars) {struct s} : list chars :=
  match s with
  | [] => [rev cur]
  | c :: t =>
      match skip with
      | S n => split_from r (is_word c) n true [] t
      | O =>
          match match_at r prev s with
          | Some rest =>
              match length s - length rest with
              | O =>
                  if fresh
                  then split_from r (is_word c) 0 false (c :: cur) t
                  else rev cur :: split_from r (is_word c) 0 false [c] t
              | S n => rev cur :: split_from r (is_word c) n true [] t
              end
          | None => split_from r (is_word c) 0 false (c :: cur) t
          end
      end
  end.

(** [''.split(r)] is [[]] when [r] matches the empty string and [['']]
    otherwise. *)
Definition split (r : re) (s : chars) : list chars :=
  match s with
  | [] => match match_at r false [] with Some _ => [] | None => [[]] end
  | _ => split_from r false 0 true [] s
  end.

(** Pattern syntax. *)
Definition chr (c : ascii) : re := Chr (Ascii.eqb c).

Fixpoint lit (s : string) : re :=
  match s with
  | EmptyString => Eps
  | String c EmptyString => chr c
  | String c s' => Seq (chr c) (lit s')
  end.

Fixpoint cat (rs : list re) : re :=
  match rs with
  | [] => Eps
  | [r] => r
  | r :: rs' => Seq r (cat rs')
  end.

Definition opt (r : re) : re := Rep 0 (Some 1) r.
Definition star (r : re) : re := Rep 0 None r.
Definition plus (r : re) : re := Rep 1 None r.
Definition times (n : nat) (r : re) : re := Rep n (Some n) r.
Definition at_least (n : nat) (r : re) : re := Rep n None r.
Definition from_to (n m : nat) (r : re) : re := Rep n (Some m) r.

Definition digit : re := Chr is_digit.
Definition space : re := Chr is_space.

End Regex.

Import Regex.

(* ================================================================== *)
(** * The redactor: [anonymizeText] of [src/utils/anonymizer.js] *)
(* ================================================================== *)

Module Redactor.

(** [[A-Za-z0-9._%+-]] *)
Definition email_local (c : ascii) : bool := is_alnum c || one_of "._%+-" c.
(** [[A-Za-z0-9.-]] *)
Definition email_domain (c : ascii) : bool := is_alnum c || one_of ".-" c.
(** [[A-Z|a-z]]: the bar is a member of the class. *)
Definition email_tld (c : ascii) : bool := is_alpha c || one_of "|" c.
(** [[-.]] and [[-.\s]] and [[-\s]] *)
Definition dash_dot (c : ascii) : bool := one_of "-." c.
Definition dash_dot_space (c : ascii) : bool := one_of "-." c || is_space c.
Definition dash_space (c : ascii) : bool := one_of "-" c || is_space c.
(** [[-a-zA-Z0-9@:%._\+~#=]] *)
Definition url_host (c : ascii) : bool := is_alnum c || one_of "-@:%._+~#=" c.
(** [[a-zA-Z0-9()]] *)
Definition url_tld (c : ascii) : bool := is_alnum c || one_of "()" c.
(** [[-a-zA-Z0-9()@:%_\+.~#?&//=]] *)
Definition url_path (c : ascii) : bool :=
  is_alnum c || one_of "-()@:%_+.~#?&/=" c.
(** [[A-Za-z0-9+/=]] *)
Definition base64 (c : ascii) : bool := is_alnum c || one_of "+/=" c.
(** [[\w-]] *)
Definition word_dash (c : ascii) : bool := is_word c || one_of "-" c.

(** [/\b[A-Za-z0-9._%+-]+@[A-Za-z0-9.-]+\.[A-Z|a-z]{2,}\b/g] *)
Definition re_email : re :=
  cat [WordB; plus (Chr email_local); lit "@"; plus (Chr email_domain);
       lit "."; at_least 2 (Chr email_tld); WordB].

(** [/\b\d{3}[-.]?\d{3}[-.]?\d{4}\b/g] *)
Definition re_phone_plain : re :=
  cat [WordB; times 3 digit; opt (Chr dash_dot); times 3 digit;
       opt (Chr dash_dot); times 4 digit; WordB].

(** [/\(\d{3}\)\s*\d{3}[-.]?\d{4}/g] *)
Definition re_phone_paren : re :=
  cat [lit "("; times 3 digit; lit ")"; star space; times 3 digit;
       opt (Chr dash_dot); times 4 digit].

(** [/\b\d{3}[-.\s]\d{3}[-.\s]\d{4}\b/g] *)
Definition re_phone_spaced : re :=
  cat [WordB; times 3 digit; Chr dash_dot_space; times 3 digit;
       Chr dash_dot_space; times 4 digit; WordB].

(** [https?:\/\/(www\.)?H{1,256}\.T{1,6}\b(P* )], global, where [H] is the
    class [url_host], [T] the class [url_tld] and [P] the class
    [url_path]. *)
Definition re_url : re :=
  cat [lit "http"; opt (lit "s"); lit "://"; opt (lit "www.");
       from_to 1 256 (Chr url_host); lit "."; from_to 1 6 (Chr url_tld);
       WordB; star (Chr url_path)].

(** [/\b(?:[0-9]{1,3}\.){3}[0-9]{1,3}\b/g] *)
Definition re_ip : re :=
  cat [WordB; times 3 (Seq (from_to 1 3 digit) (lit "."));
       from_to 1 3 digit; WordB].

(** [/\b\d{4}[-\s]?\d{4}[-\s]?\d{4}[-\s]?\d{4}\b/g] *)
Definition re_card : re :=
  cat [WordB; times 4 digit; opt (Chr dash_space); times 4 digit;
       opt (Chr dash_space); times 4 digit; opt (Chr dash_space);
       times 4 digit; WordB].

(** [/\bending in \d{4}\b/g] *)
Definition re_card_partial : re :=
  cat [WordB; lit "ending in "; times 4 digit; WordB].

(** [/\b\d{3}-\d{2}-\d{4}\b/g] *)
Definition re_ssn : re :=
  cat [WordB; times 3 digit; lit "-"; times 2 digit; lit "-";
       times 4 digit; WordB].

(** [/\bAccount \d{10,}\b/g] *)
Definition re_account : re :=
  cat [WordB; lit "Account "; at_least 10 digit; WordB].

(** [/\b[A-Z]{3}-\d{4}-\d{6}\b/g] *)
Definition re_transaction : re :=
  cat [WordB; times 3 (Chr is_upper); lit "-"; times 4 digit; lit "-";
       times 6 digit; WordB].

(** [/ssh-rsa\s+[A-Za-z0-9+/=]+/g] *)
Definition re_ssh : re :=
  cat [lit "ssh-rsa"; plus space; plus (Chr base64)].

(** [/\b[\w-]+\.[\w-]+\.company\.com\b/g] *)
Definition re_server : re :=
  cat [WordB; plus (Chr word_dash); lit "."; plus (Chr word_dash);
       lit ".company.com"; WordB].

(** [/\$\d{1,3}(,\d{3})+/g] *)
Definition re_amount : re :=
  cat [lit "$"; from_to 1 3 digit; plus (Seq (lit ",") (times 3 digit))].

(** The cascade, in the order of the assignments to [anonymized]. *)
Definition rules : list (re * string) :=
  [ (re_email, "[EMAIL]");
    (re_phone_plain, "[PHONE]");
    (re_phone_paren, "[PHONE]");
    (re_phone_spaced, "[PHONE]");
    (re_url, "[URL]");
    (re_ip, "[IP_ADDRESS]");
    (re_card, "[CREDIT_CARD]");
    (re_card_partial, "[CREDIT_CARD_PARTIAL]");
    (re_ssn, "[SSN]");
    (re_account, "[ACCOUNT_NUMBER]");
    (re_transaction, "[TRANSACTION_ID]");
    (re_ssh, "[SSH_KEY]");
    (re_server, "[INTERNAL_SERVER]");
    (re_amount, "[AMOUNT]") ]%string.

Definition apply_rule (s : chars) (rt : re * string) : chars :=
  replace_all (fst rt) (explode (snd rt)) s.

Definition redact (s : chars) : chars := fold_left apply_rule rules s.

Definition anonymizeText (text : string) : string :=
  implode (redact (explode text)).

End Redactor.

Import Redactor.

(* ================================================================== *)
(** * The identity hasher: [hashUserId] of [src/utils/anonymizer.js] *)
(* ================================================================== *)

(** [createHash('sha256')] of Node's [crypto]: SHA-256 as in FIPS 180-4,
    on 32-bit words held in [Z] with the wrap-around written out. *)
Module Sha256.
Local Open Scope Z_scope.

Definition wrap (x : Z) : Z := x mod 2 ^ 32.
Definition add32 (x y : Z) : Z := wrap (x + y).
Definition rotr (n x : Z) : Z :=
  Z.lor (Z.shiftr x n) (wrap (Z.shiftl x (32 - n))).
Definition shr (n x : Z) : Z := Z.shiftr x n.
Definition not32 (x : Z) : Z := Z.lxor x 0xffffffff.

Definition Ch (x y z : Z) : Z := Z.lxor (Z.land x y) (Z.land (not32 x) z).
Definition Maj (x y z : Z) : Z :=
  Z.lxor (Z.lxor (Z.land x y) (Z.land x z)) (Z.land y z).
Definition Sigma0 (x : Z) : Z := Z.lxor (Z.lxor (rotr 2 x) (rotr 13 x)) (rotr 22 x).
Definition Sigma1 (x : Z) : Z := Z.lxor (Z.lxor (rotr 6 x) (rotr 11 x)) (rotr 25 x).
Definition sigma0 (x : Z) : Z := Z.lxor (Z.lxor (rotr 7 x) (rotr 18 x)) (shr 3 x).
Definition sigma1 (x : Z) : Z := Z.lxor (Z.lxor (rotr 17 x) (rotr 19 x)) (shr 10 x).

(** The first 64 primes. *)
Definition primes : list Z :=
  [2; 3; 5; 7; 11; 13; 17; 19; 23; 29; 31; 37; 41; 43; 47; 53; 59; 61; 67;
   71; 73; 79; 83; 89; 97; 101; 103; 107; 109; 113; 127; 131; 137; 139; 149;
   151; 157; 163; 167; 173; 179; 181; 191; 193; 197; 199; 211; 223; 227; 229;
   233; 239; 241; 251; 257; 263; 269; 271; 277; 281; 283; 293; 307; 311].

(** The integer cube root of a number below [2^108], bit by bit. *)
Definition icbrt (n : Z) : Z :=
  fold_left
    (fun r b => let r' := r + 2 ^ Z.of_nat b in
                if r' * r' * r' <=? n then r' else r)
    (rev (seq 0 36)) 0.

(** The round constants: the first 32 bits of the fractional parts of the
    cube roots of the first 64 primes. *)
Definition K : list Z :=
  Eval vm_compute in map (fun p => wrap (icbrt (p * 2 ^ 96))) primes.

(** The eight working words. *)
Record state : Type := State
  { ha : Z; hb : Z; hc : Z; hd : Z; he : Z; hf : Z; hg : Z; hh : Z }.

(** The initial hash value: the first 32 bits of the fractional parts of
    the square roots of the first 8 primes. *)
Definition frac_sqrt (p : Z) : Z := wrap (Z.sqrt (p * 2 ^ 64)).

Definition H0 : state :=
  Eval vm_compute in
    State (frac_sqrt 2) (frac_sqrt 3) (frac_sqrt 5) (frac_sqrt 7)
          (frac_sqrt 11) (frac_sqrt 13) (frac_sqrt 17) (frac_sqrt 19).

(** Padding: the bit 1, zeros up to 56 modulo 64 bytes, then the bit
    length of the message on 8 bytes, most significant first. *)
Definition be_bytes (n : nat) (x : Z) : list Z :=
  map (fun i => (x / 256 ^ Z.of_nat i) mod 256) (rev (seq 0 n)).

Definition pad (msg : list Z) : list Z :=
  let len := Z.of_nat (length msg) in
  let zeros := Z.to_nat ((55 - len) mod 64) in
  msg ++ [128] ++ repeat 0 zeros ++ be_bytes 8 (8 * len).

Fixpoint be_word (bs : list Z) (acc : Z) : Z :=
  match bs with
  | [] => acc
  | b :: bs' => be_word bs' (acc * 256 + b)
  end.

Fixpoint words_of (n : nat) (bs : list Z) : list Z :=
  match n with
  | O => []
  | S n' => be_word (firstn 4 bs) 0 :: words_of n' (skipn 4 bs)
  end.

(** The message schedule: [win] holds the last 16 words. *)
Fixpoint schedule (n : nat) (win : list Z) : list Z :=
  match n with
  | O => []
  | S n' =>
      let w := add32 (add32 (sigma1 (nth 14 win 0)) (nth 9 win 0))
                     (add32 (sigma0 (nth 1 win 0)) (nth 0 win 0)) in
      w :: schedule n' (tl win ++ [w])
  end.

Definition round (s : state) (kw : Z * Z) : state :=
  let t1 := add32 (add32 (add32 (hh s) (Sigma1 (he s)))
                         (add32 (Ch (he s) (hf s) (hg s)) (fst kw)))
                  (snd kw) in
  let t2 := add32 (Sigma0 (ha s)) (Maj (ha s) (hb s) (hc s)) in
  State (add32 t1 t2) (ha s) (hb s) (hc s) (add32 (hd s) t1) (he s) (hf s) (hg s).

Definition compress (s : state) (block : list Z) : state :=
  let w16 := words_of 16 block in
  let w := w16 ++ schedule 48 w16 in
  let r := fold_left round (combine K w) s in
  State (add32 (ha s) (ha r)) (add32 (hb s) (hb r)) (add32 (hc s) (hc r))
        (add32 (hd s) (hd r)) (add32 (he s) (he r)) (add32 (hf s) (hf r))
        (add32 (hg s) (hg r)) (add32 (hh s) (hh r)).

Fixpoint blocks (n : nat) (bs : list Z) (s : state) : state :=
  match n with
  | O => s
  | S n' => blocks n' (skipn 64 bs) (compress s (firstn 64 bs))
  end.

Definition digest (msg : list Z) : state :=
  let p := pad msg in
  blocks (length p / 64) p H0.

(** [digest('hex')]: eight lower-case hexadecimal digits per word. *)
Definition hexdigit (n : Z) : ascii :=
  nth (Z.to_nat (n mod 16)) (explode "0123456789abcdef") "0"%char.

Definition hex_word (w : Z) : chars :=
  map (fun i => hexdigit (w / 16 ^ i)) [7; 6; 5; 4; 3; 2; 1; 0].

Definition hex (s : state) : chars :=
  hex_word (ha s) ++ hex_word (hb s) ++ hex_word (hc s) ++ hex_word (hd s) ++
  hex_word (he s) ++ hex_word (hf s) ++ hex_word (hg s) ++ hex_word (hh s).

(** [hash.update(string)] hashes the UTF-8 encoding of the string: one
    byte for a code unit below 128, two for the others below 256. *)
Definition utf8 (c : ascii) : list Z :=
  let n := Z.of_N (N_of_ascii c) in
  if n <? 128 then [n] else [192 + n / 64; 128 + n mod 64].

Definition sha256_hex (s : chars) : chars := hex (digest (flat_map utf8 s)).

End Sha256.

(** [`user_${hash.digest('hex').slice(0, 8)}`] *)
Definition hashUserId (userId : string) : string :=
  ("user_" ++ implode (firstn 8 (Sha256.sha256_hex (explode userId))))%string.

(* ================================================================== *)
(** * The message anonymizer: [anonymizeMessage], [anonymizeMessages] *)
(* ================================================================== *)

(** One reaction tally of a message; [count] is a JavaScript number. *)
Module Reaction.
Record t : Type := Make { emoji : string; count : float }.
End Reaction.

(** A message as the callers supply it. [reactions] is optional. *)
Module Message.
Record t : Type := Make
  { ts : string;
    user : string;
    username : string;
    channel : string;
    text : string;
    reactions : option (list Reaction.t) }.
End Message.

(** The object literal that [anonymizeMessage] returns. *)
Module Anonymized.
Record t : Type := Make
  { ts : string;
    user : string;
    username : string;
    channel : string;
    text : string;
    reactions : list Reaction.t;
    anonymized : bool }.
End Anonymized.

(** [message.reactions || []]: an array, empty or not, is truthy. *)
Definition reactions_or_empty (r : option (list Reaction.t)) : list Reaction.t :=
  match r with
  | Some l => l
  | None => []
  end.

Definition anonymizeMessage (message : Message.t) : Anonymized.t :=
  {| Anonymized.ts := Message.ts message;
     Anonymized.user := hashUserId (Message.user message);
     Anonymized.username := "[USERNAME]";
     Anonymized.channel := Message.channel message;
     Anonymized.text := anonymizeText (Message.text message);
     Anonymized.reactions := reactions_or_empty (Message.reactions message);
     Anonymized.anonymized := true |}.

(** [messages.map(anonymizeMessage)] *)
Definition anonymizeMessages (messages : list Message.t) : list Anonymized.t :=
  map anonymizeMessage messages.

(* ================================================================== *)
(** * JavaScript numbers that are not counters *)
(* ================================================================== *)

Module JSNumber.
Local Open Scope float_scope.

(** A counter read as a number. Counters stay far below [2^53], where
    the conversion is exact. *)
Definition of_nat (n : nat) : float :=
  PrimFloat.of_uint63 (Uint63.of_Z (Z.of_nat n)).

Definition is_neg_zero (x : float) : bool :=
  match FloatOps.Prim2SF x with
  | SpecFloat.S754_zero true => true
  | _ => false
  end.

(** [Math.min(a, b)] *)
Definition min (a b : float) : float :=
  if PrimFloat.is_nan a || PrimFloat.is_nan b then PrimFloat.nan
  else if a <? b then a
  else if b <? a then b
  else if is_neg_zero a then a else b.

(** [Math.round(x)]: the integer nearest to [x], the upper one at a tie,
    computed on the exact value [(-1)^s * m * 2^e] of [x]. *)
Definition round (x : float) : float :=
  match FloatOps.Prim2SF x with
  | SpecFloat.S754_finite s m e =>
      if (0 <=? e)%Z then x
      else
        let sm := if s then Z.neg m else Z.pos m in
        let k := ((2 * sm + 2 ^ (- e)) / 2 ^ (1 - e))%Z in
        if (k =? 0)%Z then (if s then PrimFloat.neg_zero else PrimFloat.zero)
        else if (0 <? k)%Z then PrimFloat.of_uint63 (Uint63.of_Z k)
        else - PrimFloat.of_uint63 (Uint63.of_Z (- k))
  | _ => x
  end.

(** [parseFloat(x.toFixed(2))] for [0 <= x < 1e21]: [toFixed] takes the
    integer [n] with [n / 100] nearest to the exact value of [x], the
    larger one at a tie, and [parseFloat] reads the decimal back as the
    nearest number, which the division of [n] by [100] is. *)
Definition toFixed2 (x : float) : float :=
  match FloatOps.Prim2SF x with
  | SpecFloat.S754_finite false m e =>
      let n := if (0 <=? e)%Z
               then (100 * Z.pos m * 2 ^ e)%Z
               else ((200 * Z.pos m + 2 ^ (- e)) / 2 ^ (1 - e))%Z in
      PrimFloat.of_uint63 (Uint63.of_Z n) / 100
  | _ => x
  end.

End JSNumber.

(* ================================================================== *)
(** * The lexicon sentiment scorer *)
(* ================================================================== *)

Inductive sentiment : Type := Positive | Negative | Neutral.

Definition positiveWords : list string :=
  ["great"; "smoothly"; "hard work"; "love"; "amazing"; "excellent";
   "fantastic"; "ready"; "good"; "thanks"; "wonderful"]%string.

Definition negativeWords : list string :=
  ["issue"; "disappointing"; "401 error"; "problem"; "critical"; "bug";
   "urgent"; "error"; "issues"; "help"]%string.

(** [if (score > 0) ... else if (score < 0) ... else ...] *)
Definition label_of (score : Z) : sentiment :=
  if (0 <? score)%Z then Positive
  else if (score <? 0)%Z then Negative
  else Neutral.

(** The two [for ... of] loops of [getSentiment]; the state is [score]. *)
Definition score_loop (lowerText : chars) (step : Z) (words : list string)
           (score : Z) : Z :=
  fold_left
    (fun score word =>
       if includes lowerText (explode word) then (score + step)%Z else score)
    words score.

(** The value of [score] when [getSentiment] reaches its [return]s. *)
Definition getSentiment_score (text : string) : Z :=
  let lowerText := toLowerCase (explode text) in
  score_loop lowerText (-1) negativeWords
    (score_loop lowerText 1 positiveWords 0%Z).

Definition getSentiment (text : string) : sentiment :=
  label_of (getSentiment_score text).

Module SentimentResult.
Record t : Type := Make
  { sentiment_ : sentiment; score : Z; confidence : float }.
End SentimentResult.

(** The two loops of [getSentimentWithConfidence]; the state is
    [(score, matchedWords)]. *)
Definition confidence_loop (lowerText : chars) (step : Z) (words : list string)
           (st : Z * nat) : Z * nat :=
  fold_left
    (fun st word =>
       if includes lowerText (explode word)
       then ((fst st + step)%Z, S (snd st))
       else st)
    words st.

(** [text.split(/\s+/).length] *)
Definition word_count (text : chars) : nat :=
  length (Regex.split (plus space) text).

Definition getSentimentWithConfidence (text : string) : SentimentResult.t :=
  let lowerText := toLowerCase (explode text) in
  let words := word_count (explode text) in
  let st := confidence_loop lowerText (-1) negativeWords
              (confidence_loop lowerText 1 positiveWords (0%Z, 0)) in
  let score := fst st in
  let matchedWords := snd st in
  let confidence :=
    match matchedWords with
    | O => 0.3%float
    | S _ =>
        let wordDensity :=
          (JSNumber.of_nat matchedWords / JSNumber.of_nat words)%float in
        let scoreStrength :=
          (JSNumber.of_nat (Z.abs_nat score) / JSNumber.of_nat matchedWords)%float in
        JSNumber.min (0.5 + wordDensity * 0.3 + scoreStrength * 0.2)%float 0.95%float
    end in
  {| SentimentResult.sentiment_ := label_of score;
     SentimentResult.score := score;
     SentimentResult.confidence :=
       (JSNumber.round (confidence * 100) / 100)%float |}.

(* ================================================================== *)
(** * Plain objects used as dictionaries *)
(* ================================================================== *)

Module JSObject.

(** The own properties of an object created by [{}], in creation
    order. Writing to an existing key keeps its place. *)
Definition t (V : Type) : Type := list (string * V).

Definition empty {V : Type} : t V := [].

Fixpoint get_own {V : Type} (k : string) (o : t V) : option V :=
  match o with
  | [] => None
  | (k', v) :: o' => if String.eqb k k' then Some v else get_own k o'
  end.

Fixpoint set {V : Type} (k : string) (v : V) (o : t V) : t V :=
  match o with
  | [] => [(k, v)]
  | (k', v') :: o' =>
      if String.eqb k k' then (k', v) :: o' else (k', v') :: set k v o'
  end.

(** The members that [{}] inherits from [Object.prototype]. Reading one
    of these keys on an object that has no own property of that name
    gives a function (for [__proto__], the prototype object): a truthy
    value. *)
Definition prototype_members : list string :=
  ["constructor"; "__defineGetter__"; "__defineSetter__"; "hasOwnProperty";
   "__lookupGetter__"; "__lookupSetter__"; "isPrototypeOf";
   "propertyIsEnumerable"; "toString"; "valueOf"; "__proto__";
   "toLocaleString"]%string.

Definition inherited (k : string) : bool :=
  existsb (String.eqb k) prototype_members.

(** An array index is the canonical decimal form of an integer below
    [2^32 - 1]. *)
Definition array_index (k : string) : option N :=
  match explode k with
  | [] => None
  | c :: rest =>
      if forallb is_digit (c :: rest) &&
         (negb (Ascii.eqb c "0") || match rest with [] => true | _ => false end)
      then
        let v := fold_left (fun acc d => (acc * 10 + (code d - 48))%N)
                           (c :: rest) 0%N in
        if (v <? 4294967295)%N then Some v else None
      else None
  end.

Definition is_index (k : string) : bool :=
  match array_index k with Some _ => true | None => false end.

Definition index_of (k : string) : N :=
  match array_index k with Some v => v | None => 0%N end.

Fixpoint insert_index {V : Type} (kv : string * V) (l : list (string * V))
  : list (string * V) :=
  match l with
  | [] => [kv]
  | kv' :: l' =>
      if (index_of (fst kv) <=? index_of (fst kv'))%N
      then kv :: l
      else kv' :: insert_index kv l'
  end.

(** [Object.entries(o)]: the array indices in ascending numeric order,
    then the other keys in creation order. *)
Definition entries {V : Type} (o : t V) : list (string * V) :=
  fold_right insert_index [] (filter (fun kv => is_index (fst kv)) o)
  ++ filter (fun kv => negb (is_index (fst kv))) o.

Definition keys {V : Type} (o : t V) : list string := map fst (entries o).

End JSObject.

(** [Array.prototype.sort], which is stable, for a comparator that orders
    the elements consistently: [before a b] tells that the comparator's
    value on [(a, b)] is not positive. *)
Section StableSort.
Variable A : Type.
Variable before : A -> A -> bool.

Fixpoint sort_insert (x : A) (l : list A) : list A :=
  match l with
  | [] => [x]
  | y :: l' => if before x y then x :: l else y :: sort_insert x l'
  end.

Definition stable_sort (l : list A) : list A := fold_right sort_insert [] l.
End StableSort.

(* ================================================================== *)
(** * The keyword extractor *)
(* ================================================================== *)

Module Keyword.
Record t : Type := Make { word : string; count : nat }.
End Keyword.

(** [/\b(\w+)\b/g] *)
Definition re_word : re := cat [WordB; plus (Chr is_word); WordB].

(** [text.toLowerCase().match(/\b(\w+)\b/g) || []] *)
Definition tokens (text : chars) : list string :=
  map implode (match_all re_word (toLowerCase text)).

Section Keywords.

(** The elements of the [Set] that [stopwords.js] exports. *)
Variable stopWords : list string.

(** [stopWords.has(word)] *)
Definition stopWords_has (word : string) : bool :=
  existsb (String.eqb word) stopWords.

(** [!stopWords.has(word) && word.length > 2] *)
Definition kept (word : string) : bool :=
  negb (stopWords_has word) && (2 <? String.length word).

(** [frequency[word] = (frequency[word] || 0) + 1] for a kept word.
    - An own count [n] becomes [n + 1].
    - ["__proto__"] reads the prototype object; the sum is a string and
      assigning a string to [__proto__] does nothing.
    - ["constructor"] reads the inherited function; the sum is a string
      and is stored as the count. The model stops there with [None]: the
      comparator of the sort yields [NaN] on such a count.
    - Any other word that has no own count gets [1]. *)
Definition bump (frequency : JSObject.t nat) (word : string)
  : option (JSObject.t nat) :=
  match JSObject.get_own word frequency with
  | Some n => Some (JSObject.set word (S n) frequency)
  | None =>
      if String.eqb word "__proto__" then Some frequency
      else if String.eqb word "constructor" then None
      else Some (JSObject.set word 1 frequency)
  end.

(** The [forEach] over [words]. *)
Fixpoint count_words (words : list string) (frequency : JSObject.t nat)
  : option (JSObject.t nat) :=
  match words with
  | [] => Some frequency
  | word :: words' =>
      if kept word
      then match bump frequency word with
           | Some frequency' => count_words words' frequency'
           | None => None
           end
      else count_words words' frequency
  end.

(** The comparator [([, a], [, b]) => b - a] is not positive when
    [b <= a]. *)
Definition by_count_desc (x y : string * nat) : bool := snd y <=? snd x.

(** [Object.entries(frequency).sort(...).slice(0, limit).map(...)] for a
    limit that is a count. *)
Definition top_entries (limit : nat) (frequency : JSObject.t nat)
  : list Keyword.t :=
  map (fun wc => Keyword.Make (fst wc) (snd wc))
      (firstn limit (stable_sort by_count_desc (JSObject.entries frequency))).

Definition extractKeywords (text : string) (limit : nat)
  : option (list Keyword.t) :=
  match count_words (tokens (explode text)) JSObject.empty with
  | Some frequency => Some (top_entries limit frequency)
  | None => None
  end.

End Keywords.

(* ================================================================== *)
(** * The statistics aggregator *)
(* ================================================================== *)

(** What a call does: it returns a value, it raises a [TypeError], or it
    leaves the part of JavaScript that this development describes (a
    keyword count that is a string, see [bump]). *)
Inductive outcome (A : Type) : Type :=
| Returns (a : A)
| Throws
| Unmodelled.

Arguments Returns {A} a.
Arguments Throws {A}.
Arguments Unmodelled {A}.

(** [{ positive: 0, negative: 0, neutral: 0 }] and [tally[sentiment]++]. *)
Module Tally.
Record t : Type := Make { positive : nat; negative : nat; neutral : nat }.

Definition zero : t := Make 0 0 0.

Definition incr (s : sentiment) (c : t) : t :=
  match s with
  | Positive => Make (S (positive c)) (negative c) (neutral c)
  | Negative => Make (positive c) (S (negative c)) (neutral c)
  | Neutral => Make (positive c) (negative c) (S (neutral c))
  end.

Definition total (c : t) : nat := positive c + negative c + neutral c.
End Tally.

Module BasicStats.
Record t : Type := Make
  { totalMessages : nat;
    averageMessageLength : float;
    topWords : list Keyword.t }.
End BasicStats.

Module UserStat.
Record t : Type := Make
  { messageCount : nat;
    totalReactions : float;
    averageLength : float;
    totalLength : nat }.
End UserStat.

(** A channel's entry while the messages are read: [uniqueUsers] is a
    [Set], its elements in insertion order. *)
Module ChannelAcc.
Record t : Type := Make
  { messageCount : nat;
    totalReactions : float;
    uniqueUsers : list string }.
End ChannelAcc.

(** A channel's entry as returned: [uniqueUsers] is the size of the set. *)
Module ChannelStat.
Record t : Type := Make
  { messageCount : nat;
    totalReactions : float;
    uniqueUsers : nat }.
End ChannelStat.

Module MostActive.
(** [{ user: null, count: 0 }] is [Make None 0]. *)
Record t : Type := Make { name : option string; count : nat }.
End MostActive.

Module Analysis.
Record t : Type := Make
  { totalMessages : nat;
    averageLength : float;
    userStats : JSObject.t UserStat.t;
    channelStats : JSObject.t ChannelStat.t;
    timeStats : JSObject.t nat;
    keywords : list Keyword.t;
    sentimentOverview : Tally.t;
    (** absent from the object returned for an empty input *)
    mostActiveUser : option MostActive.t;
    mostActiveChannel : option MostActive.t }.
End Analysis.

Module Detail.
Record t : Type := Make
  { ts : string;
    user : string;
    channel : string;
    text : string;
    sentiment_ : sentiment;
    score : Z;
    confidence : float }.
End Detail.

Module SentimentStats.
Record t : Type := Make
  { overall : Tally.t;
    byUser : JSObject.t Tally.t;
    byChannel : JSObject.t Tally.t;
    (** [{ hour, ...sentiments }] *)
    timeline : list (string * Tally.t);
    details : list Detail.t }.
End SentimentStats.

(** [x || 0] on a number: zero, minus zero and [NaN] are falsy. *)
Definition or_zero (x : float) : float :=
  if PrimFloat.is_nan x || PrimFloat.is_zero x then 0%float else x.

(** [message.reactions?.reduce((sum, r) => sum + r.count, 0) || 0]: the
    counts are added as binary64 numbers, from the left. *)
Definition reaction_total (r : option (list Reaction.t)) : float :=
  match r with
  | Some l =>
      or_zero
        (fold_left (fun sum reaction => (sum + Reaction.count reaction)%float)
                   l 0%float)
  | None => 0%float
  end.

(** [set.add(x)] *)
Definition set_add (x : string) (s : list string) : list string :=
  if existsb (String.eqb x) s then s else s ++ [x].

(** [messages.map((msg) => msg.text).join(' ')] *)
Definition join_texts (messages : list Message.t) : string :=
  String.concat " " (map Message.text messages).

(** [getSentimentSummary] *)
Definition getSentimentSummary (messages : list Message.t) : Tally.t :=
  fold_left (fun summary message =>
               Tally.incr (getSentiment (Message.text message)) summary)
            messages Tally.zero.

Section Aggregator.

Variable stopWords : list string.

(** [new Date(parseFloat(ts) * 1000).getHours()]: the hour of the day, in
    the time zone of the process, of the instant that [ts] names; [None]
    stands for the [NaN] of an invalid date. *)
Variable getHours : string -> option nat.

(** [parseFloat] on a time stamp. *)
Variable parseFloat : string -> float.

(** [`${hour}:00`] *)
Definition hourKey (ts : string) : string :=
  match getHours ts with
  | Some h => (DecimalString.NilZero.string_of_uint (Nat.to_uint h) ++ ":00")%string
  | None => "NaN:00"%string
  end.

(** [calculateStatistics] *)
Definition calculateStatistics (messages : list Message.t)
  : outcome BasicStats.t :=
  match messages with
  | [] => Returns (BasicStats.Make 0 0%float [])
  | _ :: _ =>
      let totalMessages := length messages in
      let totalLength :=
        fold_left (fun sum msg => sum + String.length (Message.text msg))
                  messages 0 in
      let averageMessageLength :=
        (JSNumber.of_nat totalLength / JSNumber.of_nat totalMessages)%float in
      match count_words stopWords (tokens (explode (join_texts messages)))
                        JSObject.empty with
      | Some wordCounts =>
          Returns (BasicStats.Make totalMessages
                     (JSNumber.toFixed2 averageMessageLength)
                     (top_entries 5 wordCounts))
      | None => Unmodelled
      end
  end.

(** The state of the [forEach] of [analyzeMessages]. *)
Record acc : Type := Acc
  { acc_users : JSObject.t UserStat.t;
    acc_channels : JSObject.t ChannelAcc.t;
    acc_times : JSObject.t nat;
    acc_text : list string;
    acc_sentiment : Tally.t;
    acc_length : nat }.

Definition acc0 : acc :=
  Acc JSObject.empty JSObject.empty JSObject.empty [] Tally.zero 0.

(** The user block. [userStats[user]] of a key inherited from
    [Object.prototype] is truthy: no entry is created and the three
    updates land on the inherited function, not on [userStats]. *)
Definition user_step (message : Message.t) (userStats : JSObject.t UserStat.t)
  : JSObject.t UserStat.t :=
  let user := Message.user message in
  match JSObject.get_own user userStats with
  | None =>
      if JSObject.inherited user then userStats
      else JSObject.set user
             (UserStat.Make 1
                (0 + reaction_total (Message.reactions message))%float
                0%float (0 + String.length (Message.text message)))
             userStats
  | Some st =>
      JSObject.set user
        (UserStat.Make (S (UserStat.messageCount st))
           (UserStat.totalReactions st
            + reaction_total (Message.reactions message))%float
           (UserStat.averageLength st)
           (UserStat.totalLength st + String.length (Message.text message)))
        userStats
  end.

(** The channel block. For a key inherited from [Object.prototype] the
    inherited function has no [uniqueUsers], and [.add] on [undefined]
    raises. *)
Definition channel_step (message : Message.t)
           (channelStats : JSObject.t ChannelAcc.t)
  : option (JSObject.t ChannelAcc.t) :=
  let channel := Message.channel message in
  match JSObject.get_own channel channelStats with
  | None =>
      if JSObject.inherited channel then None
      else Some (JSObject.set channel
                   (ChannelAcc.Make 1
                      (0 + reaction_total (Message.reactions message))%float
                      (set_add (Message.user message) []))
                   channelStats)
  | Some st =>
      Some (JSObject.set channel
              (ChannelAcc.Make (S (ChannelAcc.messageCount st))
                 (ChannelAcc.totalReactions st
                  + reaction_total (Message.reactions message))%float
                 (set_add (Message.user message) (ChannelAcc.uniqueUsers st)))
              channelStats)
  end.

(** [timeStats[hourKey] = (timeStats[hourKey] || 0) + 1] *)
Definition time_step (message : Message.t) (timeStats : JSObject.t nat)
  : JSObject.t nat :=
  let k := hourKey (Message.ts message) in
  match JSObject.get_own k timeStats with
  | Some n => JSObject.set k (S n) timeStats
  | None => JSObject.set k 1 timeStats
  end.

Definition analyze_step (a : acc) (message : Message.t) : option acc :=
  match channel_step message (acc_channels a) with
  | None => None
  | Some channels =>
      Some (Acc (user_step message (acc_users a))
                channels
                (time_step message (acc_times a))
                (acc_text a ++ [Message.text message])
                (Tally.incr (getSentiment (Message.text message))
                            (acc_sentiment a))
                (acc_length a + String.length (Message.text message)))
  end.

Fixpoint analyze_loop (messages : list Message.t) (a : acc) : option acc :=
  match messages with
  | [] => Some a
  | message :: rest =>
      match analyze_step a message with
      | Some a' => analyze_loop rest a'
      | None => None
      end
  end.

(** [userStats[user].averageLength = totalLength / messageCount] *)
Definition with_average (st : UserStat.t) : UserStat.t :=
  UserStat.Make (UserStat.messageCount st) (UserStat.totalReactions st)
    (JSNumber.of_nat (UserStat.totalLength st)
     / JSNumber.of_nat (UserStat.messageCount st))%float
    (UserStat.totalLength st).

(** [channelStats[channel].uniqueUsers = channelStats[channel].uniqueUsers.size] *)
Definition with_size (st : ChannelAcc.t) : ChannelStat.t :=
  ChannelStat.Make (ChannelAcc.messageCount st) (ChannelAcc.totalReactions st)
    (length (ChannelAcc.uniqueUsers st)).

Definition map_values {V W : Type} (f : V -> W) (o : JSObject.t V)
  : JSObject.t W :=
  map (fun kv => (fst kv, f (snd kv))) o.

(** The [reduce] that picks the most active entry: a later entry wins
    only with a strictly larger count. *)
Definition most_active {V : Type} (messageCount : V -> nat)
           (o : JSObject.t V) : MostActive.t :=
  fold_left
    (fun max kv =>
       if MostActive.count max <? messageCount (snd kv)
       then MostActive.Make (Some (fst kv)) (messageCount (snd kv))
       else max)
    (JSObject.entries o) (MostActive.Make None 0).

(** [analyzeMessages] *)
Definition analyzeMessages (messages : list Message.t) : outcome Analysis.t :=
  match messages with
  | [] =>
      Returns (Analysis.Make 0 0%float JSObject.empty JSObject.empty
                 JSObject.empty [] Tally.zero None None)
  | _ :: _ =>
      match analyze_loop messages acc0 with
      | None => Throws
      | Some a =>
          let userStats := map_values with_average (acc_users a) in
          let channelStats := map_values with_size (acc_channels a) in
          match extractKeywords stopWords (String.concat " " (acc_text a)) 15 with
          | None => Unmodelled
          | Some keywords =>
              Returns
                (Analysis.Make (length messages)
                   (JSNumber.of_nat (acc_length a)
                    / JSNumber.of_nat (length messages))%float
                   userStats channelStats (acc_times a) keywords
                   (acc_sentiment a)
                   (Some (most_active UserStat.messageCount userStats))
                   (Some (most_active ChannelStat.messageCount channelStats)))
          end
      end
  end.

(** [o[key][sentiment]++] after [if (!o[key]) o[key] = {...}]: for a key
    inherited from [Object.prototype] the increment lands on the
    inherited function and [o] keeps its own properties. *)
Definition tally_step (key : string) (s : sentiment) (o : JSObject.t Tally.t)
  : JSObject.t Tally.t :=
  match JSObject.get_own key o with
  | Some c => JSObject.set key (Tally.incr s c) o
  | None =>
      if JSObject.inherited key then o
      else JSObject.set key (Tally.incr s Tally.zero) o
  end.

(** [text.substring(0, 100) + (text.length > 100 ? '...' : '')] *)
Definition preview (text : string) : string :=
  String.append (String.substring 0 100 text)
                (if 100 <? String.length text then "..." else "").

Definition detail_of (message : Message.t) : Detail.t :=
  let r := getSentimentWithConfidence (Message.text message) in
  Detail.Make (Message.ts message) (Message.user message)
    (Message.channel message) (preview (Message.text message))
    (SentimentResult.sentiment_ r) (SentimentResult.score r)
    (SentimentResult.confidence r).

(** The comparator [(a, b) => parseFloat(b.ts) - parseFloat(a.ts)] is
    not positive. *)
Definition by_ts_desc (a b : Detail.t) : bool :=
  negb (0 <? parseFloat (Detail.ts b) - parseFloat (Detail.ts a))%float.

(** [getSentimentStats] *)
Definition getSentimentStats (messages : list Message.t) : SentimentStats.t :=
  match messages with
  | [] => SentimentStats.Make Tally.zero JSObject.empty JSObject.empty [] []
  | _ :: _ =>
      let sentiment_of (message : Message.t) :=
        SentimentResult.sentiment_
          (getSentimentWithConfidence (Message.text message)) in
      let overall :=
        fold_left (fun o m => Tally.incr (sentiment_of m) o) messages Tally.zero in
      let byUser :=
        fold_left (fun o m => tally_step (Message.user m) (sentiment_of m) o)
                  messages JSObject.empty in
      let byChannel :=
        fold_left (fun o m => tally_step (Message.channel m) (sentiment_of m) o)
                  messages JSObject.empty in
      let details := map detail_of messages in
      let timeline :=
        fold_left (fun o m => tally_step (hourKey (Message.ts m)) (sentiment_of m) o)
                  messages JSObject.empty in
      SentimentStats.Make overall byUser byChannel
        (JSObject.entries timeline)
        (stable_sort by_ts_desc details)
  end.

End Aggregator.

(* ================================================================== *)
(** * Vocabulary of the statements *)
(* ================================================================== *)

(** [accepts r c]: some character class of [r] accepts [c], so that a
    match of [r] can contain [c]. *)
Fixpoint accepts (r : re) (c : ascii) : bool :=
  match r with
  | Eps | WordB => false
  | Chr p => p c
  | Seq a b | Alt a b => accepts a c || accepts b c
  | Rep _ _ a => accepts a c
  end.

(** The number of opening square brackets of a text. *)
Definition brackets (s : chars) : nat := count_occ ascii_dec s "["%char.

(** No rule of the cascade matches anywhere in [s]. *)
Definition unmatched (s : chars) : bool :=
  forallb (fun rt : re * string => negb (matches_in (fst rt) s)) rules.

(** A lower-case hexadecimal digit. *)
Definition is_hex (c : ascii) : bool := is_digit c || between 97 102 c.



(** ["user_"] followed by exactly eight hexadecimal digits. *)
Definition hashed_token (s : string) : Prop :=
  exists h : string,
    s = ("user_" ++ h)%string /\ String.length h = 8 /\
    forallb is_hex (explode h) = true.

(** What a successful match says about the text: a prefix [pre] was
    consumed, all of its characters satisfy [P], and the continuation
    succeeded on what is left. *)
Definition consumes {R : Type} (P : ascii -> Prop) (s : chars)
           (k : bool -> chars -> option R) (res : R) : Prop :=
  exists pre s' prev', s = pre ++ s' /\ k prev' s' = Some res /\ Forall P pre.

(** A rule whose pattern accepts no bracket and whose token has one. *)
Definition bracketing (rt : re * string) : Prop :=
  accepts (fst rt) "["%char = false /\ 1 <= brackets (explode (snd rt)).

(** [phrase] occurs in [text] as a substring, letter case apart. *)
Definition occurs_ci (phrase text : string) : Prop :=
  exists pre mid post : chars,
    explode text = pre ++ mid ++ post /\ toLowerCase mid = explode phrase.

(** [c] is [p], or it is the capital letter, one of [A] to [Z], of which
    [p] is the small letter: the code of a small letter is the code of its
    capital plus 32. *)
Definition same_letter (c p : ascii) : Prop :=
  c = p \/
  ((65 <= N_of_ascii c)%N /\ (N_of_ascii c <= 90)%N /\
   N_of_ascii p = (N_of_ascii c + 32)%N).

(** [phrase], written in small letters, occurs in [text] as a substring
    whatever the case in which the text writes each of its letters. *)
Definition occurs_any_case (phrase text : string) : Prop :=
  exists pre mid post : chars,
    explode text = pre ++ mid ++ post /\
    Forall2 same_letter mid (explode phrase).

(** The test of both scorers on one phrase of a lexicon. *)
Definition mentions (text phrase : string) : bool :=
  includes (toLowerCase (explode text)) (explode phrase).

(** The number of phrases of a lexicon that [text] mentions, each phrase
    counted once however often it occurs. *)
Definition hits (lexicon : list string) (text : string) : nat :=
  length (filter (mentions text) lexicon).

(** The sum of a counter over the entries of a dictionary. *)
Definition sum_by {V : Type} (f : V -> nat) (o : JSObject.t V) : nat :=
  list_sum (map (fun kv => f (snd kv)) o).

(** The partition sums of an analysis. *)
Definition user_message_sum (a : Analysis.t) : nat :=
  sum_by UserStat.messageCount (Analysis.userStats a).

Definition channel_message_sum (a : Analysis.t) : nat :=
  sum_by ChannelStat.messageCount (Analysis.channelStats a).

(** No user or channel identifier of [messages] is the name of a member of
    [Object.prototype]. *)
Definition plain_ids (messages : list Message.t) : Prop :=
  Forall (fun m => JSObject.inherited (Message.user m) = false /\
                   JSObject.inherited (Message.channel m) = false) messages.

(** The position at which [w] first occurs in [l] ([length l] if it does
    not occur). *)
Fixpoint first_index (w : string) (l : list string) : nat :=
  match l with
  | [] => 0
  | x :: l' => if String.eqb w x then 0 else S (first_index w l')
  end.

(** The order of first encounter in the text. *)
Definition encounter_order (toks : list string) (a b : string) : Prop :=
  first_index a toks < first_index b toks.

(** The order of the own properties of the frequency object: the words
    that are array indices by ascending value, before the other words by
    first encounter. *)
Definition own_order (toks : list string) (a b : string) : Prop :=
  match JSObject.array_index a, JSObject.array_index b with
  | Some i, Some j => (i <= j)%N
  | Some _, None => True
  | None, Some _ => False
  | None, None => encounter_order toks a b
  end.

(** Descending counts, a tie broken by [tie]. *)
Definition ranked (tie : string -> string -> Prop) (x y : Keyword.t) : Prop :=
  Keyword.count y < Keyword.count x \/
  (Keyword.count x = Keyword.count y /\ tie (Keyword.word x) (Keyword.word y)).

(** C5 as the specification states it, for one stop-word set, text and
    limit. *)
Definition keywords_as_stated (stopWords : list string) (text : string)
           (limit : nat) : Prop :=
  forall r : list Keyword.t,
    extractKeywords stopWords text limit = Some r ->
    length r <= limit /\
    Forall (fun k => stopWords_has stopWords (Keyword.word k) = false /\
                     3 <= String.length (Keyword.word k)) r /\
    StronglySorted (ranked (encounter_order (tokens (explode text)))) r.

(** No counted word of [text] is ["constructor"]. *)
Definition countable (stopWords : list string) (text : string) : Prop :=
  forall w : string,
    In w (tokens (explode text)) -> kept stopWords w = true ->
    w <> "constructor"%string.

(** What the counting loop keeps true of the frequency object once the
    tokens [pre] of [toks] are read: its keys are counted words of [pre],
    every counted word of [pre] but ["__proto__"] is a key, and the keys
    stand in the order of first encounter. *)
Definition frequency_inv (stopWords : list string) (toks pre : list string)
           (frequency : JSObject.t nat) : Prop :=
  (forall k, In k (map fst frequency) -> In k pre /\ kept stopWords k = true) /\
  (forall w, In w pre -> kept stopWords w = true -> w <> "__proto__"%string ->
             In w (map fst frequency)) /\
  StronglySorted (encounter_order toks) (map fst frequency).

(** Ascending array indices. *)
Definition by_index {V : Type} (a b : string * V) : Prop :=
  (JSObject.index_of (fst a) <= JSObject.index_of (fst b))%N.

(** Descending counts on entries, a tie broken by [tie]. *)
Definition count_then_tie (tie : string * nat -> string * nat -> Prop)
           (x y : string * nat) : Prop :=
  snd y < snd x \/ (snd x = snd y /\ tie x y).

(** The number of maximal runs of white space of a text. [in_run] tells
    that the character before is white space. *)
Fixpoint space_runs_from (in_run : bool) (s : chars) : nat :=
  match s with
  | [] => 0
  | c :: t =>
      if is_space c
      then (if in_run then 0 else 1) + space_runs_from true t
      else space_runs_from false t
  end.

Definition space_runs (s : chars) : nat := space_runs_from false s.

(** The white space at the head of a text. *)
Fixpoint leading_spaces (s : chars) : nat :=
  match s with
  | [] => 0
  | c :: t => if is_space c then S (leading_spaces t) else 0
  end.

(** The pieces of a text that its runs of white space delimit: one more
    than there are runs. A run at either end of the text delimits an empty
    piece, and the empty text is one empty piece. *)
Definition token_count (text : string) : nat := S (space_runs (explode text)).

(** "Rounded to 2 decimal places": to the hundredth. *)
Definition round2 (x : float) : float :=
  (JSNumber.round (x * 100) / 100)%float.

(** The vocabulary of the bounds on binary64 numbers. The value of the
    finite number of mantissa [m] and exponent [e] is [m * 2^e]; [V m e] is
    that value scaled by [2^B], an integer for every exponent that the
    format or an exact product of two of its numbers has. *)
Module Binary64.
Import FloatOps SpecFloat.
Local Open Scope Z_scope.

Definition B : Z := 3000.
Definition V (m e : Z) : Z := m * 2 ^ (e + B).

(** Numbers that are not below zero and are numbers. *)
Definition nonneg (x : spec_float) : Prop :=
  match x with
  | S754_zero false | S754_infinity false | S754_finite false _ _ => True
  | _ => False
  end.

(** One half, scaled. *)
Definition half : Z := V (2 ^ 52) (-53).

(** Plus infinity, or a finite number at or above one half. *)
Definition ge_half (x : spec_float) : Prop :=
  x = S754_infinity false \/
  exists m e, x = S754_finite false m e /\ half <= V (Zpos m) e.

(** The mantissas of 0.95 (exponent -53) and of 100 (exponent -46). *)
Definition m95 : positive := 8556839292003942.
Definition m100 : positive := 7036874417766400.

End Binary64.

(** The divisors of the divisions on counters that a call of
    [getSentimentWithConfidence] evaluates: [matchedWords / words] and
    [Math.abs(score) / matchedWords], both in the branch where
    [matchedWords] is not 0. *)
Definition divisors (text : string) : list nat :=
  let lowerText := toLowerCase (explode text) in
  let words := word_count (explode text) in
  let st := confidence_loop lowerText (-1) negativeWords
              (confidence_loop lowerText 1 positiveWords (0%Z, 0)) in
  match snd st with
  | O => []
  | S _ => [words; snd st]
  end.

(* ================================================================== *)
(** * The user mapping: [createUserMapping] of [src/utils/anonymizer.js] *)
(* ================================================================== *)

(** The body of the [forEach]. [!userMapping[user]] is false for an own
    value that is a non-empty string and for a member inherited from
    [Object.prototype] (a function or the prototype object); it is true
    for a key the object does not have and for an own empty string. *)
Definition mapping_step (userMapping : JSObject.t string) (message : Message.t)
  : JSObject.t string :=
  let user := Message.user message in
  match JSObject.get_own user userMapping with
  | Some token =>
      if String.eqb token ""
      then JSObject.set user (hashUserId user) userMapping
      else userMapping
  | None =>
      if JSObject.inherited user then userMapping
      else JSObject.set user (hashUserId user) userMapping
  end.

Definition createUserMapping (messages : list Message.t) : JSObject.t string :=
  fold_left mapping_step messages JSObject.empty.

(* ================================================================== *)
(** * The message routes of [src/index.js] *)
(* ================================================================== *)

Module Routes.

(** The object that a handler passes to [c.json]. *)
Inductive body : Type :=
| MessageList (data : list Message.t) (count : nat)
| AnonymizedList (data : list Anonymized.t) (count : nat)
| AnonymizedOne (data : Anonymized.t)
| Failure (error : string).

(** [c.json(body)] answers with status 200, [c.json(body, 404)] with
    404; [success] is the field of that name of the body. *)
Record response : Type := Response
  { status : nat; success : bool; content : body }.

Section Handlers.

(** The array that [data/mockMessages.js] exports. *)
Variable mockMessages : list Message.t.

(** [GET /api/v1/messages] *)
Definition messages : response :=
  Response 200 true (MessageList mockMessages (length mockMessages)).

(** [GET /api/v1/messages/anonymized] *)
Definition anonymizedMessages : response :=
  let anonymizedMessages := anonymizeMessages mockMessages in
  Response 200 true
    (AnonymizedList anonymizedMessages (length anonymizedMessages)).

(** [GET /api/v1/messages/{ts}/anonymized]:
    [mockMessages.find((msg) => msg.ts === ts)], then 404 or the
    anonymized message. *)
Definition messageById (ts : string) : response :=
  match find (fun msg => String.eqb (Message.ts msg) ts) mockMessages with
  | None => Response 404 false (Failure "Message not found")
  | Some message => Response 200 true (AnonymizedOne (anonymizeMessage message))
  end.

End Handlers.
End Routes.

(* ================================================================== *)
(** * Vocabulary of the further properties *)
(* ================================================================== *)

(** The texts that a pattern can match, the context and the upper bounds
    of the quantifiers left aside: every match of [r] is one of them. *)
Inductive lang : re -> chars -> Prop :=
| lang_eps : lang Eps []
| lang_wordb : lang WordB []
| lang_chr (p : ascii -> bool) (c : ascii) : p c = true -> lang (Chr p) [c]
| lang_seq (a b : re) (x y : chars) :
    lang a x -> lang b y -> lang (Seq a b) (x ++ y)
| lang_alt_l (a b : re) (x : chars) : lang a x -> lang (Alt a b) x
| lang_alt_r (a b : re) (x : chars) : lang b x -> lang (Alt a b) x
| lang_rep_nil (hi : option nat) (a : re) : lang (Rep 0 hi a) []
| lang_rep_cons (lo : nat) (hi : option nat) (a : re) (x y : chars) :
    lang a x -> lang (Rep (pred lo) hi a) y -> lang (Rep lo hi a) (x ++ y).

(** A successful match consumed a prefix with the property [Q] and the
    continuation succeeded on what is left. *)
Definition matched {R : Type} (Q : chars -> Prop) (s : chars)
           (k : bool -> chars -> option R) (res : R) : Prop :=
  exists pre s' prev', s = pre ++ s' /\ Q pre /\ k prev' s' = Some res.

(** The 256 code units of the model. *)
Definition all_ascii : list ascii := map ascii_of_nat (seq 0 256).

(** Every character of the class [q] is in the class [p]. *)
Definition subclass (q p : ascii -> bool) : bool :=
  forallb (fun c => implb (q c) (p c)) all_ascii.

(** The number of characters of a text that are in the class [p]. *)
Definition count (p : ascii -> bool) (s : chars) : nat := length (filter p s).

(** A number of characters of the class [p] that every match of [r]
    contains. *)
Fixpoint least (p : ascii -> bool) (r : re) : nat :=
  match r with
  | Eps | WordB => 0
  | Chr q => if subclass q p then 1 else 0
  | Seq a b => least p a + least p b
  | Alt a b => Nat.min (least p a) (least p b)
  | Rep lo _ a => lo * least p a
  end.

(** Characters that are no word characters. *)
Definition non_word (c : ascii) : bool := negb (is_word c).

(** The messages of one user, of one channel, of one hour. *)
Definition by_user (u : string) (messages : list Message.t) : list Message.t :=
  filter (fun m => String.eqb (Message.user m) u) messages.

Definition by_channel (c : string) (messages : list Message.t) : list Message.t :=
  filter (fun m => String.eqb (Message.channel m) c) messages.

Definition by_hour (getHours : string -> option nat) (k : string)
           (messages : list Message.t) : list Message.t :=
  filter (fun m => String.eqb (hourKey getHours (Message.ts m)) k) messages.

(** The summed text lengths of some messages. *)
Definition text_length (messages : list Message.t) : nat :=
  list_sum (map (fun m => String.length (Message.text m)) messages).

(** The reaction totals of some messages, added to 0 one after the other
    in the order of the messages, each sum rounded to binary64. *)
Definition reaction_sum (messages : list Message.t) : float :=
  fold_left (fun sum m => (sum + reaction_total (Message.reactions m))%float)
            messages 0%float.

(** The tally of the labels that [label] gives to some messages. *)
Definition tally_of (label : string -> sentiment) (messages : list Message.t)
  : Tally.t :=
  fold_left (fun c m => Tally.incr (label (Message.text m)) c)
            messages Tally.zero.

(** What the loop of [analyzeMessages] holds for one user, one channel
    and one hour once it has read [messages]. *)
Definition user_entry (u : string) (messages : list Message.t)
  : option UserStat.t :=
  if JSObject.inherited u then None
  else match by_user u messages with
       | [] => None
       | (_ :: _) as mine =>
           Some (UserStat.Make (length mine) (reaction_sum mine) 0%float
                               (text_length mine))
       end.

Definition channel_entry (c : string) (messages : list Message.t)
  : option ChannelAcc.t :=
  match by_channel c messages with
  | [] => None
  | (_ :: _) as mine =>
      Some (ChannelAcc.Make (length mine) (reaction_sum mine)
              (fold_left (fun s m => set_add (Message.user m) s) mine []))
  end.

Definition time_entry (getHours : string -> option nat) (k : string)
           (messages : list Message.t) : option nat :=
  match length (by_hour getHours k messages) with
  | O => None
  | S n => Some (S n)
  end.

(** [w] names the first entry of [l] whose count is the largest, or
    nothing when no entry has a count above 0. *)
Definition first_maximum {V : Type} (f : V -> nat) (l : list (string * V))
           (w : MostActive.t) : Prop :=
  match MostActive.name w with
  | None => MostActive.count w = 0 /\ Forall (fun kv => f (snd kv) = 0) l
  | Some k =>
      exists l1 v l2,
        l = l1 ++ (k, v) :: l2 /\ MostActive.count w = f v /\ 0 < f v /\
        Forall (fun kv => f (snd kv) < f v) l1 /\
        Forall (fun kv => f (snd kv) <= f v) l2
  end.

(** The conversations on which [analyzeMessages] is followed to its
    [return]: no channel is the name of a member of [Object.prototype],
    on which the call raises, and no counted word of the joined texts is
    ["constructor"], whose count is a string. *)
Definition analysable (stopWords : list string) (messages : list Message.t)
  : Prop :=
  Forall (fun m => JSObject.inherited (Message.channel m) = false) messages /\
  countable stopWords (join_texts messages).

(** A small conversation on which the statements with a premise are
    exercised: two users, two channels, one hour. *)
Definition sample_messages : list Message.t :=
  [ Message.Make "1736954100.000001" "U1" "ann" "C1"
      "Great work on the release, thanks" (Some [Reaction.Make "tada" 2%float]);
    Message.Make "1736954100.000002" "U2" "bob" "C1"
      "There is a critical bug in the release" None;
    Message.Make "1736954100.000003" "U1" "ann" "C2"
      "The release is ready" (Some []) ]%string.

Definition sample_hours (ts : string) : option nat := Some 15.

(** What the counting loop keeps true of the counts once the tokens
    [pre] are read: a count is the number of occurrences of its word in
    [pre], of a kept word, and not 0; every kept word of [pre] but
    ["__proto__"] has a count; no word has two. *)
Definition counts_inv (stopWords : list string) (pre : list string)
           (frequency : JSObject.t nat) : Prop :=
  (forall w n, JSObject.get_own w frequency = Some n ->
               n = count_occ string_dec pre w /\ kept stopWords w = true /\
               1 <= n) /\
  (forall w, In w pre -> kept stopWords w = true -> w <> "__proto__"%string ->
             JSObject.get_own w frequency <> None) /\
  NoDup (map fst frequency).

(** The order of the binary64 numbers that are zero or finite, through
    their values scaled by [2^B]. *)
Module Binary64Order.
Import FloatOps SpecFloat.
Local Open Scope Z_scope.

Definition val (x : spec_float) : Z :=
  match x with
  | S754_finite s m e => cond_Zopp s (Binary64.V (Zpos m) e)
  | _ => 0
  end.

(** Zero or finite: neither [NaN] nor an infinity. *)
Definition fin (x : spec_float) : Prop :=
  match x with
  | S754_zero _ | S754_finite _ _ _ => True
  | _ => False
  end.

Definition finite (x : float) : Prop := fin (Prim2SF x).

End Binary64Order.

(** A detail with a larger time stamp never comes later. *)
Definition newest_first (parseFloat : string -> float) (a b : Detail.t) : Prop :=
  (parseFloat (Detail.ts a) <? parseFloat (Detail.ts b))%float = false.

Definition sample_parseFloat (ts : string) : float :=
  if String.eqb ts "1736954100.000001" then 1736954100.000001%float
  else if String.eqb ts "1736954100.000002" then 1736954100.000002%float
  else 1736954100.000003%float.

(** The number [k / 100] as JavaScript computes it from the integer [k]. *)
Definition hundredth (k : Z) : float :=
  (PrimFloat.of_uint63 (Uint63.of_Z k) / 100)%float.

(** The messages whose user is not the name of a member of
    [Object.prototype]. *)
Definition of_plain_users (messages : list Message.t) : list Message.t :=
  filter (fun m => negb (JSObject.inherited (Message.user m))) messages.

(* ================================================================== *)
(** * The confidence, on exact numbers and in binary64 *)
(* ================================================================== *)

(** The binary64 number of a counter. *)
Definition binary64_of (n : Z) : float := PrimFloat.of_uint63 (Uint63.of_Z n).

(** [min(0.95, 0.5 + 0.3 * (matchedWords / tokenCount) + 0.2 * (|score| /
    matchedWords))] with the result of every operation rounded to
    binary64. The minimum of 0.95 and a number is that number where it is
    below 0.95. *)
Definition binary64_confidence (matchedWords tokenCount : nat) (score : Z)
  : float :=
  let sum :=
    (0.5
     + 0.3 * (binary64_of (Z.of_nat matchedWords)
              / binary64_of (Z.of_nat tokenCount))
     + 0.2 * (binary64_of (Z.abs score)
              / binary64_of (Z.of_nat matchedWords)))%float in
  if (sum <? 0.95)%float then sum else 0.95%float.

Module ExactNumbers.
Import QArith Qround Qminmax Qabs.
Local Open Scope Q_scope.

(** The same expression on exact numbers, the rationals. *)
Definition exact_confidence (matchedWords tokenCount : nat) (score : Z) : Q :=
  Qmin (95 # 100)
       ((1 # 2)
        + (3 # 10) * (inject_Z (Z.of_nat matchedWords)
                      / inject_Z (Z.of_nat tokenCount))
        + (2 # 10) * (inject_Z (Z.abs score)
                      / inject_Z (Z.of_nat matchedWords))).

(** [x] rounded to two decimal places, as a number of hundredths: the
    nearest one, the upper one at a tie. *)
Definition two_decimals (x : Q) : Z := Qfloor (x * 100 + (1 # 2)).





End ExactNumbers.

Import ExactNumbers.


(* ================================================================== *)
(** * Facts about strings *)
(* ================================================================== *)

Lemma explode_implode (l : chars) : explode (implode l) = l.
Proof. apply list_ascii_of_string_of_list_ascii. Qed.

Lemma implode_explode (s : string) : implode (explode s) = s.
Proof. apply string_of_list_ascii_of_string. Qed.

Lemma implode_inj (l l' : chars) : implode l = implode l' -> l = l'.
Proof.
  intros H. rewrite <- (explode_implode l), <- (explode_implode l'). now rewrite H.
Qed.

Lemma length_explode (s : string) : length (explode s) = String.length s.
Proof. induction s as [|c s IH]; simpl; [reflexivity | now rewrite IH]. Qed.

Lemma length_implode (l : chars) : String.length (implode l) = length l.
Proof. rewrite <- (explode_implode l) at 2. symmetry. apply length_explode. Qed.

Lemma string_length_app (a b : string) :
  String.length (a ++ b) = String.length a + String.length b.
Proof. induction a as [|c a IH]; simpl; [reflexivity | now rewrite IH]. Qed.

Lemma implode_app (l l' : chars) : implode (l ++ l') = (implode l ++ implode l')%string.
Proof. induction l as [|c l IH]; simpl; [reflexivity | now rewrite IH]. Qed.

(* ================================================================== *)
(** * The matcher consumes a prefix made of characters of its classes *)
(* ================================================================== *)

Section MatcherFacts.
Variable R : Type.

Lemma consumes_nil P s (k : bool -> chars -> option R) prev res :
  k prev s = Some res -> consumes P s k res.
Proof. intros H. exists [], s, prev. auto. Qed.

Lemma consumes_weaken (P Q : ascii -> Prop) s (k : bool -> chars -> option R) res :
  (forall c, P c -> Q c) -> consumes P s k res -> consumes Q s k res.
Proof.
  intros PQ (pre & s' & prev' & -> & Hk & HP).
  exists pre, s', prev'. repeat split; auto.
  eapply Forall_impl; eauto.
Qed.

Lemma consumes_seq P s (k1 : bool -> chars -> option R) k res :
  consumes P s k1 res ->
  (forall prev' s', k1 prev' s' = Some res -> consumes P s' k res) ->
  consumes P s k res.
Proof.
  intros (pre & s' & prev' & -> & Hk & HP) Hnext.
  destruct (Hnext _ _ Hk) as (pre2 & s2 & prev2 & -> & Hk2 & HP2).
  exists (pre ++ pre2), s2, prev2. rewrite <- app_assoc.
  repeat split; auto. apply Forall_app; auto.
Qed.

Lemma rep_loop_sound (P : ascii -> Prop)
      (ma : bool -> chars -> (bool -> chars -> option R) -> option R)
      (k : bool -> chars -> option R) :
  (forall prev s k' res, ma prev s k' = Some res -> consumes P s k' res) ->
  forall n lo prev s res,
    rep_loop ma k n lo prev s = Some res -> consumes P s k res.
Proof.
  intros Hma n. induction n as [|n IH]; intros lo prev s res H; simpl in H.
  - destruct lo; [eapply consumes_nil; eauto | discriminate].
  - match type of H with
    | match ?m with _ => _ end = _ => destruct m as [x|] eqn:E
    end.
    + injection H as ->. apply Hma in E.
      eapply consumes_seq; [exact E|].
      intros prev' s' Hk. destruct lo as [|lo'].
      * destruct (length s' <? length s); [eauto | discriminate].
      * eauto.
    + destruct lo; [eapply consumes_nil; eauto | discriminate].
Qed.

Lemma rmatch_sound (r : re) :
  forall prev s (k : bool -> chars -> option R) res,
    rmatch r prev s k = Some res ->
    consumes (fun c => accepts r c = true) s k res.
Proof.
  induction r as [|p|a IHa b IHb|a IHa b IHb|lo hi a IHa|];
    intros prev s k res H; simpl in H.
  - eapply consumes_nil; eauto.
  - destruct s as [|c t]; [discriminate|].
    destruct (p c) eqn:Hp; [|discriminate].
    exists [c], t, (is_word c). repeat split; auto.
  - eapply consumes_seq.
    + eapply consumes_weaken; [|eapply IHa; exact H].
      simpl. intros c ->. reflexivity.
    + intros prev' s' Hk. eapply consumes_weaken; [|eapply IHb; exact Hk].
      simpl. intros c ->. apply orb_true_r.
  - destruct (rmatch a prev s k) as [x|] eqn:E.
    + injection H as ->. eapply consumes_weaken; [|eapply IHa; exact E].
      simpl. intros c ->. reflexivity.
    + eapply consumes_weaken; [|eapply IHb; exact H].
      simpl. intros c ->. apply orb_true_r.
  - eapply rep_loop_sound; [|exact H]. intros. eapply IHa; eauto.
  - destruct (xorb prev (next_is_word s)); [|discriminate].
    eapply consumes_nil; eauto.
Qed.
End MatcherFacts.

(** A match at the head of [s] leaves a suffix of [s], and the part
    consumed only has characters that the pattern accepts. *)
Lemma match_at_sound (r : re) (prev : bool) (s rest : chars) :
  match_at r prev s = Some rest ->
  exists pre, s = pre ++ rest /\ Forall (fun c => accepts r c = true) pre.
Proof.
  intros H. apply rmatch_sound in H.
  destruct H as (pre & s' & prev' & -> & Hk & HP).
  injection Hk as ->. eauto.
Qed.

(* ================================================================== *)
(** * A global replacement either leaves the text alone or adds a bracket *)
(* ================================================================== *)

Lemma brackets_app (a b : chars) : brackets (a ++ b) = brackets a + brackets b.
Proof. apply count_occ_app. Qed.

Lemma brackets_cons (c : ascii) (t : chars) :
  brackets (c :: t) = (if ascii_dec c "["%char then 1 else 0) + brackets t.
Proof. unfold brackets. simpl. destruct (ascii_dec c "["%char); reflexivity. Qed.

Lemma brackets_accepted (r : re) (pre : chars) :
  accepts r "["%char = false ->
  Forall (fun c => accepts r c = true) pre -> brackets pre = 0.
Proof.
  intros Hr H. induction H as [|c pre Hc _ IH]; [reflexivity|].
  rewrite brackets_cons, IH.
  destruct (ascii_dec c "["%char) as [->|]; [congruence | reflexivity].
Qed.

Section ReplaceFacts.
Variable r : re.
Variable tok : chars.

Lemma replace_from_unmatched :
  forall s prev, matches_from r prev s = false -> replace_from r tok prev 0 s = s.
Proof.
  induction s as [|c t IH]; intros prev H; simpl in *.
  - destruct (match_at r prev []); [discriminate | reflexivity].
  - destruct (match_at r prev (c :: t)); [discriminate|].
    f_equal. apply IH, H.
Qed.

Hypothesis no_bracket : accepts r "["%char = false.

Lemma replace_from_brackets_le :
  forall s prev skip,
    brackets (firstn skip s) = 0 ->
    brackets s <= brackets (replace_from r tok prev skip s).
Proof.
  induction s as [|c t IH]; intros prev skip Hskip.
  - apply Nat.le_0_l.
  - destruct skip as [|n].
    + cbn [replace_from].
      destruct (match_at r prev (c :: t)) as [rest|] eqn:E.
      * apply match_at_sound in E. destruct E as (pre & Hs & Hpre).
        pose proof (brackets_accepted _ no_bracket Hpre) as Hb.
        replace (length (c :: t) - length rest) with (length pre)
          by (rewrite Hs, length_app; lia).
        destruct pre as [|c' pre']; cbn [length].
        -- rewrite brackets_app. rewrite !brackets_cons.
           specialize (IH (is_word c) 0 eq_refl). lia.
        -- simpl in Hs. injection Hs as <- Ht.
           rewrite brackets_app. rewrite brackets_cons in Hb |- *.
           assert (Hf : brackets (firstn (length pre') t) = 0).
           { rewrite Ht, firstn_app, Nat.sub_diag, firstn_all. simpl.
             rewrite app_nil_r. lia. }
           specialize (IH (is_word c) (length pre') Hf). lia.
      * rewrite !brackets_cons. specialize (IH (is_word c) 0 eq_refl). lia.
    + cbn [replace_from firstn] in Hskip |- *. rewrite brackets_cons in Hskip |- *.
      assert (Hf : brackets (firstn n t) = 0) by lia.
      specialize (IH (is_word c) n Hf). lia.
Qed.

Hypothesis tok_bracket : 1 <= brackets tok.

Lemma replace_from_brackets_lt :
  forall s prev,
    matches_from r prev s = true ->
    brackets s < brackets (replace_from r tok prev 0 s).
Proof.
  induction s as [|c t IH]; intros prev H.
  - cbn [replace_from matches_from] in *. change (brackets []) with 0.
    destruct (match_at r prev []); [lia | discriminate].
  - cbn [replace_from matches_from] in *.
    destruct (match_at r prev (c :: t)) as [rest|] eqn:E.
    + apply match_at_sound in E. destruct E as (pre & Hs & Hpre).
      pose proof (brackets_accepted _ no_bracket Hpre) as Hb.
      replace (length (c :: t) - length rest) with (length pre)
        by (rewrite Hs, length_app; lia).
      destruct pre as [|c' pre']; cbn [length].
      * rewrite brackets_app. rewrite !brackets_cons.
        pose proof (replace_from_brackets_le t (is_word c) 0 eq_refl). lia.
      * simpl in Hs. injection Hs as <- Ht.
        rewrite brackets_app. rewrite brackets_cons in Hb |- *.
        assert (Hf : brackets (firstn (length pre') t) = 0).
        { rewrite Ht, firstn_app, Nat.sub_diag, firstn_all. simpl.
          rewrite app_nil_r. lia. }
        pose proof (replace_from_brackets_le t (is_word c) (length pre') Hf). lia.
    + rewrite !brackets_cons. specialize (IH (is_word c) H). lia.
Qed.
End ReplaceFacts.

Lemma cascade_brackets_le (rs : list (re * string)) :
  Forall bracketing rs ->
  forall s, brackets s <= brackets (fold_left apply_rule rs s).
Proof.
  induction 1 as [|rt rs [Hr Ht] _ IH]; intros s; simpl; [lia|].
  etransitivity; [|apply IH].
  unfold apply_rule, replace_all. now apply replace_from_brackets_le.
Qed.

Lemma cascade_unmatched (rs : list (re * string)) :
  forall s,
    forallb (fun rt => negb (matches_in (fst rt) s)) rs = true ->
    fold_left apply_rule rs s = s.
Proof.
  induction rs as [|rt rs IH]; intros s H; simpl in *; [reflexivity|].
  apply andb_true_iff in H. destruct H as [H1 H2].
  apply negb_true_iff in H1.
  assert (Hs : apply_rule s rt = s)
    by exact (@replace_from_unmatched (fst rt) (explode (snd rt)) s false H1).
  rewrite Hs. now apply IH.
Qed.

Lemma cascade_fixed (rs : list (re * string)) :
  Forall bracketing rs ->
  forall s,
    fold_left apply_rule rs s = s ->
    forallb (fun rt => negb (matches_in (fst rt) s)) rs = true.
Proof.
  induction 1 as [|rt rs [Hr Ht] Hrs IH]; intros s H; simpl in *; [reflexivity|].
  destruct (matches_in (fst rt) s) eqn:E; simpl.
  - exfalso.
    assert (Hlt : brackets s < brackets (apply_rule s rt))
      by exact (@replace_from_brackets_lt (fst rt) (explode (snd rt)) Hr Ht s false E).
    pose proof (cascade_brackets_le Hrs (apply_rule s rt)) as Hle.
    rewrite H in Hle. lia.
  - apply IH.
    assert (Hs : apply_rule s rt = s)
      by exact (@replace_from_unmatched (fst rt) (explode (snd rt)) s false E).
    now rewrite Hs in H.
Qed.

Lemma rules_bracketing : Forall bracketing rules.
Proof. repeat constructor; vm_compute; lia. Qed.

(** The redactor changes a text exactly when one of its rules matches. *)
Lemma redact_fixed_iff (s : chars) : redact s = s <-> unmatched s = true.
Proof.
  split.
  - apply cascade_fixed, rules_bracketing.
  - apply cascade_unmatched.
Qed.

Lemma anonymizeText_fixed_iff (t : string) :
  anonymizeText t = t <-> unmatched (explode t) = true.
Proof.
  unfold anonymizeText. rewrite <- redact_fixed_iff. split; intros H.
  - rewrite <- H at 2. now rewrite explode_implode.
  - rewrite H. apply implode_explode.
Qed.

(* ================================================================== *)
(** * The identity hasher *)
(* ================================================================== *)

Lemma hexdigit_is_hex (n : Z) : is_hex (Sha256.hexdigit n) = true.
Proof.
  unfold Sha256.hexdigit.
  assert (H : (0 <= n mod 16 < 16)%Z) by (apply Z.mod_pos_bound; lia).
  assert (Hk : Z.to_nat (n mod 16) < 16) by lia.
  remember (Z.to_nat (n mod 16)) as k eqn:Ek. clear Ek H.
  do 16 (destruct k as [|k]; [reflexivity|]). lia.
Qed.

Lemma hex_word_hex (w : Z) :
  length (Sha256.hex_word w) = 8 /\ forallb is_hex (Sha256.hex_word w) = true.
Proof.
  split; [reflexivity|].
  unfold Sha256.hex_word. cbn [map forallb].
  now rewrite !hexdigit_is_hex.
Qed.

Lemma firstn_hex (st : Sha256.state) :
  firstn 8 (Sha256.hex st) = Sha256.hex_word (Sha256.ha st).
Proof. reflexivity. Qed.

(** Every identifier hashes to ["user_"] and eight hexadecimal digits. *)
Lemma hashUserId_shape (userId : string) : hashed_token (hashUserId userId).
Proof.
  unfold hashUserId, Sha256.sha256_hex. rewrite firstn_hex.
  set (w := Sha256.ha _).
  exists (implode (Sha256.hex_word w)). split; [reflexivity|].
  rewrite length_implode, explode_implode. apply hex_word_hex.
Qed.

Lemma hashed_token_length (s : string) : hashed_token s -> String.length s = 13.
Proof.
  intros (h & -> & Hl & _). rewrite string_length_app, Hl. reflexivity.
Qed.

(* ================================================================== *)
(** * The message anonymizer *)
(* ================================================================== *)

(** C7. [anonymizeMessage] copies [ts], [channel] and [reactions] (the
    empty sequence when the input has none), sets [username] to the
    marker and [anonymized] to true; [anonymizeMessages] returns as many
    records as it is given messages, the i-th being [anonymizeMessage] of
    the i-th message. *)
Theorem anonymize_frame :
  (forall message : Message.t,
      Anonymized.ts (anonymizeMessage message) = Message.ts message /\
      Anonymized.channel (anonymizeMessage message) = Message.channel message /\
      Anonymized.reactions (anonymizeMessage message)
      = match Message.reactions message with Some l => l | None => [] end /\
      Anonymized.username (anonymizeMessage message) = "[USERNAME]"%string /\
      Anonymized.anonymized (anonymizeMessage message) = true) /\
  (forall messages : list Message.t,
      length (anonymizeMessages messages) = length messages /\
      forall i : nat,
        nth_error (anonymizeMessages messages) i
        = option_map anonymizeMessage (nth_error messages i)).
Proof.
  split.
  - intros message. repeat split.
  - intros messages. unfold anonymizeMessages. split.
    + apply length_map.
    + intros i. apply nth_error_map.
Qed.

(** C8. The end-to-end scenario of the specification, for any display
    name of the input message. *)
Theorem anonymize_scenario (username : string) :
  let message :=
    Message.Make "1.0" "U1" username "C1"
                 "Email me at a@b.com or call 555-123-4567" (Some []) in
  Anonymized.text (anonymizeMessage message)
  = "Email me at [EMAIL] or call [PHONE]"%string /\
  hashed_token (Anonymized.user (anonymizeMessage message)) /\
  Anonymized.username (anonymizeMessage message) = "[USERNAME]"%string /\
  Anonymized.anonymized (anonymizeMessage message) = true.
Proof.
  cbv zeta. split; [|split; [|split]].
  - vm_compute. reflexivity.
  - apply hashUserId_shape.
  - reflexivity.
  - reflexivity.
Qed.

(** The token of the scenario, computed. *)
Example hashUserId_U1 : hashUserId "U1" = "user_316ca0ef"%string.
Proof. vm_compute. reflexivity. Qed.

(** FIPS 180-4, appendix B.1. *)
Example sha256_abc :
  implode (Sha256.sha256_hex (explode "abc"))
  = "ba7816bf8f01cfea414140de5dae2223b00361a396177a9cb410ff61f20015ad"%string.
Proof. vm_compute. reflexivity. Qed.



(* ================================================================== *)
(** * Redacting twice *)
(* ================================================================== *)

(** C4, as stated, fails: the SSH rule runs after the phone rule and its
    token starts with a bracket, which gives the ten digits before it the
    word boundary that the phone rule asks for. *)
Lemma redact_not_idempotent :
  ~ (forall t : string, anonymizeText (anonymizeText t) = anonymizeText t).
Proof.
  intros H. specialize (H "5551234567ssh-rsa AAAA"%string).
  vm_compute in H. discriminate H.
Qed.

Example redact_once :
  anonymizeText "5551234567ssh-rsa AAAA" = "5551234567[SSH_KEY]"%string.
Proof. vm_compute. reflexivity. Qed.

Example redact_twice :
  anonymizeText "5551234567[SSH_KEY]" = "[PHONE][SSH_KEY]"%string.
Proof. vm_compute. reflexivity. Qed.

(** C4, amended. Redacting a second time changes nothing exactly when no
    rule matches the text redacted once; and every replacement token, on
    its own, is such a text. *)
Theorem redact_idempotent_iff :
  (forall t : string,
      anonymizeText (anonymizeText t) = anonymizeText t
      <-> unmatched (explode (anonymizeText t)) = true) /\
  Forall (fun rt : re * string => anonymizeText (snd rt) = snd rt) rules.
Proof.
  split.
  - intros t. apply anonymizeText_fixed_iff.
  - repeat constructor; vm_compute; reflexivity.
Qed.

(* ================================================================== *)
(** * The lexicon sentiment scorer *)
(* ================================================================== *)

Lemma starts_with_iff (p l : chars) :
  starts_with p l = true <-> exists post, l = p ++ post.
Proof.
  revert l. induction p as [|a p IH]; intros l; simpl.
  - split; [intros _; now exists l | reflexivity].
  - destruct l as [|b l].
    + split; [discriminate | intros [post H]; discriminate H].
    + rewrite andb_true_iff, Ascii.eqb_eq, IH. split.
      * intros [-> [post ->]]. now exists post.
      * intros [post H]. injection H as -> ->. split; [reflexivity | now exists post].
Qed.

Lemma includes_iff (l p : chars) :
  includes l p = true <-> exists pre post, l = pre ++ p ++ post.
Proof.
  induction l as [|c l IH]; simpl; rewrite orb_true_iff, starts_with_iff.
  - split.
    + intros [[post H]|H]; [|discriminate]. now exists [], post.
    + intros (pre & post & H). left.
      destruct pre; [now exists post | discriminate H].
  - rewrite IH. split.
    + intros [[post H]|(pre & post & H)].
      * now exists [], post.
      * exists (c :: pre), post. now rewrite H.
    + intros (pre & post & H). destruct pre as [|c' pre].
      * left. now exists post.
      * right. injection H as _ H. now exists pre, post.
Qed.

(** The test of the scorers is containment as a substring, letter case
    apart. *)
Lemma mentions_iff (text phrase : string) :
  mentions text phrase = true <-> occurs_ci phrase text.
Proof.
  unfold mentions, occurs_ci, toLowerCase. rewrite includes_iff. split.
  - intros (pre & post & H).
    apply map_eq_app in H. destruct H as (pre' & rest & Ht & _ & Hrest).
    apply map_eq_app in Hrest. destruct Hrest as (mid & post' & -> & Hmid & _).
    now exists pre', mid, post'.
  - intros (pre & mid & post & Ht & Hmid).
    exists (map lower pre), (map lower post).
    now rewrite Ht, !map_app, Hmid.
Qed.

Lemma score_loop_hits (text : string) (step : Z) (words : list string) :
  forall score,
    score_loop (toLowerCase (explode text)) step words score
    = (score + step * Z.of_nat (length (filter (mentions text) words)))%Z.
Proof.
  unfold score_loop.
  induction words as [|w words IH]; intros score; simpl.
  - lia.
  - rewrite IH. unfold mentions at 2.
    destruct (includes (toLowerCase (explode text)) (explode w)); simpl length; lia.
Qed.

Lemma getSentiment_score_hits (text : string) :
  getSentiment_score text
  = (Z.of_nat (hits positiveWords text) - Z.of_nat (hits negativeWords text))%Z.
Proof.
  unfold getSentiment_score, hits. rewrite !score_loop_hits. lia.
Qed.

Lemma label_of_positive (z : Z) : label_of z = Positive <-> (0 < z)%Z.
Proof.
  unfold label_of. destruct (Z.ltb_spec 0 z); [tauto|].
  destruct (Z.ltb_spec z 0); split; try discriminate; lia.
Qed.

Lemma label_of_negative (z : Z) : label_of z = Negative <-> (z < 0)%Z.
Proof.
  unfold label_of. destruct (Z.ltb_spec 0 z).
  - split; [discriminate | lia].
  - destruct (Z.ltb_spec z 0); split; try discriminate; auto; lia.
Qed.

Lemma label_of_neutral (z : Z) : label_of z = Neutral <-> z = 0%Z.
Proof.
  unfold label_of. destruct (Z.ltb_spec 0 z).
  - split; [discriminate | lia].
  - destruct (Z.ltb_spec z 0); split; try discriminate; auto; lia.
Qed.

(** ** Letter case *)

(** On a character [p] that is neither a capital letter nor outside
    ASCII, [toLowerCase] yields [p] from [p] itself and from its capital,
    and from nothing else. *)
Lemma lower_same_letter (c p : ascii) :
  (N_of_ascii p < 128)%N -> is_upper p = false ->
  lower c = p <-> same_letter c p.
Proof.
  intros Hp Hup. unfold lower, same_letter, is_upper, between, code in *.
  pose proof (N_ascii_bounded c) as Hc.
  assert (Hemb : (N_of_ascii c + 32 < 256)%N ->
                 N_of_ascii (ascii_of_N (N_of_ascii c + 32))
                 = (N_of_ascii c + 32)%N)
    by (intros H; now apply N_ascii_embedding).
  destruct (N.leb_spec 65 (N_of_ascii c)) as [H65|H65];
    destruct (N.leb_spec (N_of_ascii c) 90) as [H90|H90]; cbn [andb orb].
  { split.
    - intros <-. right. rewrite Hemb by lia. lia.
    - intros [->|(_ & _ & H)].
      + apply andb_false_iff in Hup.
        destruct Hup as [Hup|Hup]; apply N.leb_gt in Hup; lia.
      + rewrite <- H. apply ascii_N_embedding. }
  all: destruct (N.leb_spec 192 (N_of_ascii c)) as [H192|H192];
    destruct (N.leb_spec (N_of_ascii c) 222) as [H222|H222];
    destruct (N.eqb_spec (N_of_ascii c) 215) as [H215|H215]; cbn [andb negb];
    try (split; [now left | intros [H|(H1 & H2 & _)]; [exact H | lia]]).
  all: split;
    [intros <-; rewrite Hemb in Hp by lia; lia
    |intros [->|(H1 & H2 & _)]; lia].
Qed.

Lemma toLowerCase_same_letters (mid phrase : chars) :
  Forall (fun p => (N_of_ascii p < 128)%N /\ is_upper p = false) phrase ->
  toLowerCase mid = phrase <-> Forall2 same_letter mid phrase.
Proof.
  unfold toLowerCase. intros Hp. revert mid.
  induction Hp as [|p phrase [Hlt Hup] _ IH]; intros mid.
  - split.
    + intros H. apply map_eq_nil in H. subst. constructor.
    + intros H. inversion H. reflexivity.
  - split.
    + destruct mid as [|c mid]; [discriminate|]. cbn [map]. intros H.
      injection H as Hc Hmid. constructor.
      * now apply lower_same_letter.
      * now apply IH.
    + intros H. inversion H as [|c p' mid' ph' Hc Hmid]; subst. cbn [map].
      f_equal; [now apply lower_same_letter | now apply IH].
Qed.

(** A phrase of small letters, digits, spaces and ASCII punctuation is
    mentioned exactly when it occurs in the text in whatever case. *)
Lemma mentions_any_case (phrase : string) :
  Forall (fun p => (N_of_ascii p < 128)%N /\ is_upper p = false)
         (explode phrase) ->
  forall text, mentions text phrase = true <-> occurs_any_case phrase text.
Proof.
  intros Hp text. rewrite mentions_iff. unfold occurs_ci, occurs_any_case.
  split; intros (pre & mid & post & Ht & Hmid); exists pre, mid, post;
    (split; [exact Ht | now apply (toLowerCase_same_letters mid Hp)]).
Qed.

(** C3. The score of the basic scorer is the number of positive phrases
    that the text mentions minus the number of negative ones, a phrase
    being counted once; the label is positive, negative or neutral as the
    score is above, below or at zero. A phrase of either lexicon is
    mentioned exactly when it occurs in the text as a substring in which
    each letter is written small or as a capital, whatever the other
    letters are. So the two texts of the specification are positive with
    score 2 and negative, also when written in capitals, and a text that
    mentions no phrase is neutral. *)
Theorem getSentiment_correct :
  (forall phrase : string,
      In phrase (positiveWords ++ negativeWords) ->
      forall text : string,
        mentions text phrase = true <-> occurs_any_case phrase text) /\
  (forall text phrase : string,
      mentions text phrase = true <-> occurs_ci phrase text) /\
  NoDup (positiveWords ++ negativeWords) /\
  (forall text : string,
      getSentiment_score text
      = (Z.of_nat (hits positiveWords text)
         - Z.of_nat (hits negativeWords text))%Z /\
      getSentiment text = label_of (getSentiment_score text) /\
      (getSentiment text = Positive <-> (0 < getSentiment_score text)%Z) /\
      (getSentiment text = Negative <-> (getSentiment_score text < 0)%Z) /\
      (getSentiment text = Neutral <-> getSentiment_score text = 0%Z) /\
      (hits (positiveWords ++ negativeWords) text = 0 ->
       getSentiment text = Neutral)) /\
  (getSentiment "This is great and wonderful" = Positive /\
   getSentiment_score "This is great and wonderful" = 2%Z /\
   hits positiveWords "This is great and wonderful" = 2 /\
   hits negativeWords "This is great and wonderful" = 0) /\
  getSentiment "critical bug, urgent issue" = Negative /\
  (getSentiment "This is GREAT and Wonderful" = Positive /\
   getSentiment_score "This is GREAT and Wonderful" = 2%Z /\
   getSentiment "CRITICAL bug, Urgent ISSUE" = Negative /\
   getSentiment_score "CRITICAL bug, Urgent ISSUE" = (-4)%Z).
Proof.
  split.
  { intros phrase Hin. apply mentions_any_case. vm_compute in Hin.
    repeat (destruct Hin as [<-|Hin];
            [repeat (constructor; [split; reflexivity|]); constructor|]).
    contradiction. }
  split; [exact mentions_iff|].
  split.
  { apply (NoDup_count_occ' string_dec). intros x Hx. vm_compute in Hx.
    repeat (destruct Hx as [<-|Hx]; [vm_compute; reflexivity|]). contradiction. }
  split; [|split; [repeat split; vm_compute; reflexivity
                  |split; [|repeat split]; vm_compute; reflexivity]].
  intros text. split; [apply getSentiment_score_hits|].
  split; [reflexivity|].
  split; [apply label_of_positive|].
  split; [apply label_of_negative|].
  split; [apply label_of_neutral|].
  intros H. apply label_of_neutral. rewrite getSentiment_score_hits.
  unfold hits in *. rewrite filter_app, length_app in H. lia.
Qed.

(* ================================================================== *)
(** * The statistics aggregator *)
(* ================================================================== *)

(** C9. On the empty sequence each aggregate returns its zero structure:
    it neither raises nor leaves the model. *)
Theorem aggregates_of_empty
        (stopWords : list string) (getHours : string -> option nat)
        (parseFloat : string -> float) :
  calculateStatistics stopWords [] = Returns (BasicStats.Make 0 0%float []) /\
  analyzeMessages stopWords getHours []
  = Returns (Analysis.Make 0 0%float JSObject.empty JSObject.empty
               JSObject.empty [] (Tally.Make 0 0 0) None None) /\
  getSentimentStats getHours parseFloat []
  = SentimentStats.Make (Tally.Make 0 0 0) JSObject.empty JSObject.empty [] [].
Proof. repeat split. Qed.

Section SumFacts.
Variable V : Type.
Variable f : V -> nat.

Lemma sum_by_set_new (k : string) (v : V) (o : JSObject.t V) :
  JSObject.get_own k o = None ->
  sum_by f (JSObject.set k v o) = sum_by f o + f v.
Proof.
  unfold sum_by. induction o as [|[k' v'] o IH]; simpl; intros H.
  - lia.
  - destruct (String.eqb k k'); [discriminate|]. simpl. rewrite IH by exact H. lia.
Qed.

Lemma sum_by_set_old (k : string) (v v0 : V) (o : JSObject.t V) :
  JSObject.get_own k o = Some v0 ->
  sum_by f (JSObject.set k v o) + f v0 = sum_by f o + f v.
Proof.
  unfold sum_by. induction o as [|[k' v'] o IH]; simpl; intros H.
  - discriminate.
  - destruct (String.eqb k k').
    + injection H as ->. simpl. lia.
    + simpl. specialize (IH H). lia.
Qed.
End SumFacts.

Lemma sum_by_map_values (V W : Type) (g : V -> W) (f : W -> nat) (o : JSObject.t V) :
  sum_by f (map_values g o) = sum_by (fun v => f (g v)) o.
Proof.
  unfold sum_by, map_values. rewrite map_map. reflexivity.
Qed.

Lemma total_incr (s : sentiment) (c : Tally.t) :
  Tally.total (Tally.incr s c) = S (Tally.total c).
Proof. destruct s, c; unfold Tally.total; simpl; lia. Qed.

Lemma total_fold (A : Type) (g : A -> sentiment) (l : list A) :
  forall c,
    Tally.total (fold_left (fun o m => Tally.incr (g m) o) l c)
    = Tally.total c + length l.
Proof.
  induction l as [|m l IH]; intros c; simpl; [lia|].
  rewrite IH, total_incr. lia.
Qed.

Section AnalyzeFacts.
Variable getHours : string -> option nat.

Lemma user_step_sum (m : Message.t) (o : JSObject.t UserStat.t) :
  JSObject.inherited (Message.user m) = false ->
  sum_by UserStat.messageCount (user_step m o)
  = S (sum_by UserStat.messageCount o).
Proof.
  intros Hu. unfold user_step.
  destruct (JSObject.get_own (Message.user m) o) as [st|] eqn:E.
  - pose proof (sum_by_set_old UserStat.messageCount (Message.user m)
                  (UserStat.Make (S (UserStat.messageCount st))
                     (UserStat.totalReactions st + reaction_total (Message.reactions m))%float
                     (UserStat.averageLength st)
                     (UserStat.totalLength st + String.length (Message.text m)))
                  o E) as H.
    simpl in H. lia.
  - rewrite Hu, sum_by_set_new by exact E. simpl. lia.
Qed.

Lemma channel_step_sum (m : Message.t) (o o' : JSObject.t ChannelAcc.t) :
  channel_step m o = Some o' ->
  sum_by ChannelAcc.messageCount o' = S (sum_by ChannelAcc.messageCount o).
Proof.
  unfold channel_step.
  destruct (JSObject.get_own (Message.channel m) o) as [st|] eqn:E.
  - intros H. injection H as <-.
    pose proof (sum_by_set_old ChannelAcc.messageCount (Message.channel m)
                  (ChannelAcc.Make (S (ChannelAcc.messageCount st))
                     (ChannelAcc.totalReactions st + reaction_total (Message.reactions m))%float
                     (set_add (Message.user m) (ChannelAcc.uniqueUsers st)))
                  o E) as H.
    simpl in H. lia.
  - destruct (JSObject.inherited (Message.channel m)); [discriminate|].
    intros H. injection H as <-. rewrite sum_by_set_new by exact E. simpl. lia.
Qed.

Lemma channel_step_plain (m : Message.t) (o : JSObject.t ChannelAcc.t) :
  JSObject.inherited (Message.channel m) = false ->
  exists o', channel_step m o = Some o'.
Proof.
  intros Hc. unfold channel_step. rewrite Hc.
  destruct (JSObject.get_own (Message.channel m) o); eauto.
Qed.

(** What the loop of [analyzeMessages] adds to the counters. *)
Lemma analyze_loop_sums (messages : list Message.t) :
  forall a a',
    analyze_loop getHours messages a = Some a' ->
    Tally.total (acc_sentiment a') = Tally.total (acc_sentiment a) + length messages /\
    sum_by ChannelAcc.messageCount (acc_channels a')
    = sum_by ChannelAcc.messageCount (acc_channels a) + length messages /\
    (Forall (fun m => JSObject.inherited (Message.user m) = false) messages ->
     sum_by UserStat.messageCount (acc_users a')
     = sum_by UserStat.messageCount (acc_users a) + length messages).
Proof.
  induction messages as [|m messages IH]; intros a a' H; simpl in H.
  - injection H as <-. simpl. repeat split; intros; lia.
  - unfold analyze_step in H.
    destruct (channel_step m (acc_channels a)) as [channels|] eqn:Ec; [|discriminate].
    apply IH in H. simpl in H. destruct H as (Hs & Hc & Hu).
    rewrite total_incr in Hs. rewrite (channel_step_sum _ _ Ec) in Hc.
    simpl length. repeat split; try lia.
    intros Hall. inversion Hall as [|? ? Hm Hrest]; subst.
    rewrite (Hu Hrest), user_step_sum by exact Hm. lia.
Qed.

Lemma analyze_loop_plain (messages : list Message.t) :
  Forall (fun m => JSObject.inherited (Message.channel m) = false) messages ->
  forall a, exists a', analyze_loop getHours messages a = Some a'.
Proof.
  induction 1 as [|m messages Hm _ IH]; intros a; simpl; [eauto|].
  unfold analyze_step.
  destruct (channel_step_plain m (acc_channels a) Hm) as [o' ->].
  apply IH.
Qed.
End AnalyzeFacts.

(* ================================================================== *)
(** * The keyword extractor *)
(* ================================================================== *)

(** C5, as stated, fails on a tie between a word and a number: the
    number is an array index of the frequency object, and
    [Object.entries] lists array indices first. *)
Lemma keywords_tie_not_by_encounter :
  ~ (forall stopWords text limit, keywords_as_stated stopWords text limit).
Proof.
  intros H.
  destruct (H [] "abc 123"%string 10 _ eq_refl) as (_ & _ & Hs).
  vm_compute in Hs.
  inversion Hs as [|? ? _ Hall]; subst.
  inversion Hall as [|? ? Hr _]; subst.
  destruct Hr as [Hr|[_ Hr]]; simpl in Hr; lia.
Qed.

Example keywords_tie :
  extractKeywords [] "abc 123" 10
  = Some [Keyword.Make "123" 1; Keyword.Make "abc" 1].
Proof. vm_compute. reflexivity. Qed.

Lemma In_firstn (A : Type) (n : nat) (l : list A) (x : A) :
  In x (firstn n l) -> In x l.
Proof.
  revert n. induction l as [|a l IH]; intros [|n]; simpl; try tauto.
  intros [->|H]; [now left | right; eauto].
Qed.

Section SortedFacts.
Variable A : Type.
Variable R : A -> A -> Prop.

Lemma StronglySorted_app (l1 l2 : list A) :
  StronglySorted R l1 -> StronglySorted R l2 ->
  (forall a b, In a l1 -> In b l2 -> R a b) ->
  StronglySorted R (l1 ++ l2).
Proof.
  induction 1 as [|a l1 H1 IH Ha]; intros H2 Hc; simpl; [exact H2|].
  constructor.
  - apply IH; [exact H2|]. intros x y Hx Hy. apply Hc; [now right | exact Hy].
  - apply Forall_app. split; [exact Ha|].
    apply Forall_forall. intros y Hy. apply Hc; [now left | exact Hy].
Qed.

Lemma StronglySorted_filter (p : A -> bool) (l : list A) :
  StronglySorted R l -> StronglySorted R (filter p l).
Proof.
  induction 1 as [|a l H IH Ha]; simpl; [constructor|].
  destruct (p a); [|exact IH].
  constructor; [exact IH|].
  apply Forall_forall. intros y Hy. apply filter_In in Hy.
  rewrite Forall_forall in Ha. apply Ha, Hy.
Qed.

Lemma StronglySorted_firstn (n : nat) (l : list A) :
  StronglySorted R l -> StronglySorted R (firstn n l).
Proof.
  intros H. revert n. induction H as [|a l H IH Ha]; intros [|n]; simpl;
    try constructor.
  - apply IH.
  - apply Forall_forall. intros y Hy. rewrite Forall_forall in Ha.
    apply Ha. eapply In_firstn; eauto.
Qed.

Lemma StronglySorted_weaken (R' : A -> A -> Prop) (l : list A) :
  (forall a b, In a l -> In b l -> R a b -> R' a b) ->
  StronglySorted R l -> StronglySorted R' l.
Proof.
  intros HR H. induction H as [|a l H IH Ha]; constructor.
  - apply IH. intros x y Hx Hy. apply HR; now right.
  - rewrite Forall_forall in *. intros y Hy.
    apply HR; [now left | now right | now apply Ha].
Qed.
End SortedFacts.

Lemma StronglySorted_map (A B : Type) (f : A -> B) (R : B -> B -> Prop) (l : list A) :
  StronglySorted (fun a b => R (f a) (f b)) l -> StronglySorted R (map f l).
Proof.
  induction 1 as [|a l H IH Ha]; simpl; constructor; [exact IH|].
  apply Forall_map. exact Ha.
Qed.

Lemma StronglySorted_of_map (A B : Type) (f : A -> B) (R : B -> B -> Prop) (l : list A) :
  StronglySorted R (map f l) -> StronglySorted (fun a b => R (f a) (f b)) l.
Proof.
  induction l as [|a l IH]; simpl; intros H; [constructor|].
  inversion H as [|? ? Hl Ha]; subst. constructor; [apply IH; exact Hl|].
  rewrite Forall_map in Ha. exact Ha.
Qed.

(** ** The own properties of a dictionary *)

Section ObjectFacts.
Variable V : Type.

Lemma get_own_none_iff (k : string) (o : JSObject.t V) :
  JSObject.get_own k o = None <-> ~ In k (map fst o).
Proof.
  induction o as [|[k' v'] o IH]; simpl.
  - tauto.
  - destruct (String.eqb_spec k k') as [->|Hne].
    + split; [discriminate | intros H; exfalso; apply H; now left].
    + rewrite IH. split.
      * intros H [Heq|Hin]; [now apply Hne | now apply H].
      * intros H Hin. apply H. now right.
Qed.

Lemma keys_set_old (k : string) (v v0 : V) (o : JSObject.t V) :
  JSObject.get_own k o = Some v0 ->
  map fst (JSObject.set k v o) = map fst o.
Proof.
  induction o as [|[k' v'] o IH]; simpl; intros H; [discriminate|].
  destruct (String.eqb k k'); simpl; [reflexivity|].
  now rewrite IH.
Qed.

Lemma keys_set_new (k : string) (v : V) (o : JSObject.t V) :
  JSObject.get_own k o = None ->
  map fst (JSObject.set k v o) = map fst o ++ [k].
Proof.
  induction o as [|[k' v'] o IH]; simpl; intros H; [reflexivity|].
  destruct (String.eqb k k'); [discriminate|]. simpl. now rewrite IH.
Qed.

Lemma In_insert_index (x kv : string * V) (l : list (string * V)) :
  In x (JSObject.insert_index kv l) <-> x = kv \/ In x l.
Proof.
  induction l as [|kv' l IH]; simpl.
  - intuition congruence.
  - destruct (JSObject.index_of (fst kv) <=? JSObject.index_of (fst kv'))%N; simpl.
    + intuition congruence.
    + rewrite IH. intuition congruence.
Qed.

Lemma In_index_sort (x : string * V) (l : list (string * V)) :
  In x (fold_right JSObject.insert_index [] l) <-> In x l.
Proof.
  induction l as [|kv l IH]; simpl; [tauto|].
  rewrite In_insert_index, IH. intuition congruence.
Qed.

Lemma In_entries (x : string * V) (o : JSObject.t V) :
  In x (JSObject.entries o) <-> In x o.
Proof.
  unfold JSObject.entries. rewrite in_app_iff, In_index_sort, !filter_In.
  destruct (JSObject.is_index (fst x)); simpl; intuition congruence.
Qed.

Lemma insert_index_sorted (kv : string * V) (l : list (string * V)) :
  StronglySorted (@by_index V) l ->
  StronglySorted (@by_index V) (JSObject.insert_index kv l).
Proof.
  induction 1 as [|kv' l H IH Ha]; simpl.
  - repeat constructor.
  - destruct (N.leb_spec (JSObject.index_of (fst kv)) (JSObject.index_of (fst kv'))) as [Hle|Hgt].
    + constructor; [now constructor|].
      constructor; [exact Hle|].
      rewrite Forall_forall in *. intros y Hy.
      specialize (Ha y Hy). unfold by_index in *. lia.
    + constructor; [exact IH|].
      rewrite Forall_forall in *. intros y Hy.
      apply In_insert_index in Hy. destruct Hy as [->|Hy].
      * unfold by_index. lia.
      * now apply Ha.
Qed.

Lemma index_sort_sorted (l : list (string * V)) :
  StronglySorted (@by_index V) (fold_right JSObject.insert_index [] l).
Proof.
  induction l as [|kv l IH]; simpl; [constructor | now apply insert_index_sorted].
Qed.

(** [Object.entries] lists the own properties in [own_order], whenever the
    other keys were created in the order of first encounter. *)
Lemma entries_own_order (toks : list string) (o : JSObject.t V) :
  StronglySorted (encounter_order toks) (map fst o) ->
  StronglySorted (fun a b => own_order toks (fst a) (fst b)) (JSObject.entries o).
Proof.
  intros Ho. apply StronglySorted_of_map in Ho.
  unfold JSObject.entries. apply StronglySorted_app.
  - eapply StronglySorted_weaken; [|apply index_sort_sorted].
    intros a b Ha Hb Hab.
    apply In_index_sort, filter_In in Ha. apply In_index_sort, filter_In in Hb.
    destruct Ha as [_ Ha], Hb as [_ Hb].
    unfold by_index, JSObject.index_of, JSObject.is_index, own_order in *.
    destruct (JSObject.array_index (fst a)); [|discriminate].
    destruct (JSObject.array_index (fst b)); [|discriminate].
    exact Hab.
  - eapply StronglySorted_weaken; [|apply StronglySorted_filter, Ho].
    intros a b Ha Hb Hab.
    apply filter_In in Ha. apply filter_In in Hb.
    destruct Ha as [_ Ha], Hb as [_ Hb].
    unfold JSObject.is_index, own_order in *.
    destruct (JSObject.array_index (fst a)); [discriminate|].
    destruct (JSObject.array_index (fst b)); [discriminate|].
    exact Hab.
  - intros a b Ha Hb.
    apply In_index_sort, filter_In in Ha. apply filter_In in Hb.
    destruct Ha as [_ Ha], Hb as [_ Hb].
    unfold JSObject.is_index, own_order in *.
    destruct (JSObject.array_index (fst a)); [|discriminate].
    destruct (JSObject.array_index (fst b)); [discriminate|].
    exact I.
Qed.
End ObjectFacts.

(** ** The sort is stable *)

Section StableSortFacts.
Variable A : Type.
Variable before : A -> A -> bool.

Lemma In_sort_insert (x y : A) (l : list A) :
  In y (sort_insert before x l) <-> y = x \/ In y l.
Proof.
  induction l as [|z l IH]; simpl.
  - intuition congruence.
  - destruct (before x z); simpl; [|rewrite IH]; intuition congruence.
Qed.

Lemma In_stable_sort (y : A) (l : list A) :
  In y (stable_sort before l) <-> In y l.
Proof.
  induction l as [|x l IH]; simpl; [tauto|].
  rewrite In_sort_insert, IH. intuition congruence.
Qed.
End StableSortFacts.

Section ByCount.
(** [tie] is the order in which the entries reach the sort. *)
Variable tie : string * nat -> string * nat -> Prop.

Lemma sort_insert_by_count (x : string * nat) (l : list (string * nat)) :
  StronglySorted (count_then_tie tie) l ->
  Forall (tie x) l ->
  StronglySorted (count_then_tie tie) (sort_insert by_count_desc x l).
Proof.
  induction 1 as [|y l H IH Hy]; intros Hx; simpl.
  - repeat constructor.
  - inversion Hx as [|? ? Hxy Hxl]; subst.
    unfold by_count_desc at 1.
    destruct (Nat.leb_spec (snd y) (snd x)) as [Hle|Hgt].
    + constructor; [now constructor|].
      constructor.
      * unfold count_then_tie. destruct (Nat.eq_dec (snd x) (snd y)); [right|left]; auto. lia.
      * rewrite Forall_forall in *. intros z Hz.
        specialize (Hy z Hz). specialize (Hxl z Hz).
        unfold count_then_tie in *.
        destruct (Nat.eq_dec (snd x) (snd z)); [right; auto | left; lia].
    + constructor; [apply IH, Hxl|].
      rewrite Forall_forall in *. intros z Hz.
      apply In_sort_insert in Hz. destruct Hz as [->|Hz].
      * left. exact Hgt.
      * now apply Hy.
Qed.

(** Sorting entries that arrive in the order [tie] leaves them by
    descending count, equal counts in the order [tie]. *)
Lemma stable_sort_by_count (l : list (string * nat)) :
  StronglySorted tie l ->
  StronglySorted (count_then_tie tie) (stable_sort by_count_desc l).
Proof.
  induction 1 as [|x l H IH Hx]; simpl; [constructor|].
  apply sort_insert_by_count; [exact IH|].
  rewrite Forall_forall in *. intros y Hy.
  apply In_stable_sort in Hy. now apply Hx.
Qed.
End ByCount.

(** ** The order of first encounter *)

Lemma first_index_in_lt (k : string) (pre l : list string) :
  In k pre -> first_index k (pre ++ l) < length pre.
Proof.
  induction pre as [|x pre IH]; simpl; [tauto|].
  intros H. destruct (String.eqb_spec k x) as [->|Hne]; [lia|].
  destruct H as [->|H]; [congruence|]. specialize (IH H). lia.
Qed.

Lemma first_index_notin (w : string) (pre l : list string) :
  ~ In w pre -> first_index w (pre ++ w :: l) = length pre.
Proof.
  induction pre as [|x pre IH]; simpl; intros H.
  - now rewrite String.eqb_refl.
  - destruct (String.eqb_spec w x) as [->|Hne]; [exfalso; apply H; now left|].
    rewrite IH; [reflexivity|]. intros Hin. apply H. now right.
Qed.

(** ** The counting loop *)

Section CountFacts.
Variable stopWords : list string.
Variable toks : list string.

Lemma count_words_inv (ws : list string) :
  forall pre frequency,
    toks = pre ++ ws ->
    (forall w, In w ws -> kept stopWords w = true -> w <> "constructor"%string) ->
    frequency_inv stopWords toks pre frequency ->
    exists frequency',
      count_words stopWords ws frequency = Some frequency' /\
      frequency_inv stopWords toks toks frequency'.
Proof.
  induction ws as [|w ws IH]; intros pre frequency Ht Hc Hinv.
  - rewrite app_nil_r in Ht. subst pre. simpl. eauto.
  - assert (Ht' : toks = (pre ++ [w]) ++ ws) by (rewrite <- app_assoc; exact Ht).
    assert (Hc' : forall w', In w' ws -> kept stopWords w' = true ->
                             w' <> "constructor"%string)
      by (intros w' Hw'; apply Hc; now right).
    destruct Hinv as (Ha & Hb & Hs).
    simpl. destruct (kept stopWords w) eqn:Hk.
    + unfold bump.
      destruct (JSObject.get_own w frequency) as [n|] eqn:Hg.
      * apply (IH (pre ++ [w]) _ Ht' Hc').
        unfold frequency_inv. rewrite (keys_set_old _ _ _ Hg). split; [|split].
        -- intros k Hin. destruct (Ha k Hin) as [H1 H2].
           split; [apply in_or_app; now left | exact H2].
        -- intros w' Hin Hk' Hp. apply in_app_or in Hin.
           destruct Hin as [Hin|[<-|[]]]; [now apply Hb|].
           destruct (in_dec string_dec w (map fst frequency)) as [Hi|Hn]; [exact Hi|].
           apply get_own_none_iff in Hn. congruence.
        -- exact Hs.
      * destruct (String.eqb_spec w "__proto__") as [Hp|Hp].
        -- apply (IH (pre ++ [w]) _ Ht' Hc'). split; [|split].
           ++ intros k Hin. destruct (Ha k Hin) as [H1 H2].
              split; [apply in_or_app; now left | exact H2].
           ++ intros w' Hin Hk' Hp'. apply in_app_or in Hin.
              destruct Hin as [Hin|[<-|[]]]; [now apply Hb | congruence].
           ++ exact Hs.
        -- destruct (String.eqb_spec w "constructor") as [Hcon|Hcon].
           { exfalso. apply (Hc w); [now left | exact Hk | exact Hcon]. }
           apply (IH (pre ++ [w]) _ Ht' Hc').
           unfold frequency_inv. rewrite (keys_set_new _ _ _ Hg). split; [|split].
           ++ intros k Hin. apply in_app_or in Hin.
              destruct Hin as [Hin|[<-|[]]].
              ** destruct (Ha k Hin) as [H1 H2].
                 split; [apply in_or_app; now left | exact H2].
              ** split; [apply in_or_app; right; now left | exact Hk].
           ++ intros w' Hin Hk' Hp'. apply in_app_or in Hin. apply in_or_app.
              destruct Hin as [Hin|[<-|[]]]; [left; now apply Hb | right; now left].
           ++ apply StronglySorted_app; [exact Hs | repeat constructor|].
              intros a b Hin [<-|[]].
              assert (Hw : ~ In w pre).
              { intros Hin'. apply get_own_none_iff in Hg. apply Hg.
                now apply Hb. }
              unfold encounter_order. rewrite Ht.
              rewrite (@first_index_notin w pre ws Hw).
              apply first_index_in_lt. now apply Ha.
    + apply (IH (pre ++ [w]) _ Ht' Hc'). split; [|split].
      * intros k Hin. destruct (Ha k Hin) as [H1 H2].
        split; [apply in_or_app; now left | exact H2].
      * intros w' Hin Hk' Hp'. apply in_app_or in Hin.
        destruct Hin as [Hin|[<-|[]]]; [now apply Hb | congruence].
      * exact Hs.
Qed.

Lemma count_words_total :
  (forall w, In w toks -> kept stopWords w = true -> w <> "constructor"%string) ->
  exists frequency,
    count_words stopWords toks JSObject.empty = Some frequency /\
    frequency_inv stopWords toks toks frequency.
Proof.
  intros Hc. apply (@count_words_inv toks [] JSObject.empty eq_refl Hc).
  split; [|split].
  - intros k [].
  - intros w [].
  - constructor.
Qed.
End CountFacts.

(** ** The extractor *)

Lemma kept_iff (stopWords : list string) (w : string) :
  kept stopWords w = true <->
  stopWords_has stopWords w = false /\ 3 <= String.length w.
Proof.
  unfold kept. rewrite andb_true_iff, negb_true_iff, Nat.ltb_lt.
  split; intros [H1 H2]; (split; [exact H1 | lia]).
Qed.

Lemma extractKeywords_total (stopWords : list string) (text : string) (limit : nat) :
  countable stopWords text ->
  exists r : list Keyword.t, extractKeywords stopWords text limit = Some r.
Proof.
  intros Hc. unfold extractKeywords.
  destruct (@count_words_total stopWords (tokens (explode text)) Hc)
    as (frequency & -> & _).
  eauto.
Qed.

(** C5, amended. For a text none of whose counted words is
    ["constructor"], [extractKeywords] returns at most [limit] pairs; no
    word of them is a stop word or shorter than 3 characters; the pairs
    are in descending order of count, and among equal counts in the order
    of the own properties of the frequency object: the words that are
    array indices first, by ascending value, then the other words by
    first encounter in the text. *)
Theorem extractKeywords_ranked
        (stopWords : list string) (text : string) (limit : nat) :
  countable stopWords text ->
  exists r : list Keyword.t,
    extractKeywords stopWords text limit = Some r /\
    length r <= limit /\
    Forall (fun k => stopWords_has stopWords (Keyword.word k) = false /\
                     3 <= String.length (Keyword.word k) /\
                     In (Keyword.word k) (tokens (explode text))) r /\
    StronglySorted (ranked (own_order (tokens (explode text)))) r.
Proof.
  intros Hc. unfold extractKeywords.
  destruct (@count_words_total stopWords (tokens (explode text)) Hc)
    as (frequency & -> & Ha & _ & Hs).
  eexists. split; [reflexivity|]. unfold top_entries. split; [|split].
  - rewrite length_map. apply firstn_le_length.
  - apply Forall_forall. intros k Hk.
    apply in_map_iff in Hk. destruct Hk as (wc & <- & Hwc).
    apply In_firstn in Hwc.
    apply (proj1 (In_stable_sort by_count_desc wc _)) in Hwc.
    apply (proj1 (In_entries wc frequency)) in Hwc.
    destruct (Ha (fst wc)) as [Hin Hkept]; [now apply in_map|].
    apply kept_iff in Hkept. simpl. tauto.
  - apply StronglySorted_map, StronglySorted_firstn.
    eapply StronglySorted_weaken;
      [|apply stable_sort_by_count, (@entries_own_order nat _ _ Hs)].
    intros a b _ _ Hab. exact Hab.
Qed.


Lemma extractKeywords_ranked_witness :
  exists r : list Keyword.t,
    extractKeywords ["the"; "and"]%string
                    "abc 123 the cat and the Cat sat 99 0123" 3 = Some r /\
    length r <= 3 /\
    Forall (fun k =>
              stopWords_has ["the"; "and"]%string (Keyword.word k) = false /\
              3 <= String.length (Keyword.word k) /\
              In (Keyword.word k)
                 (tokens (explode "abc 123 the cat and the Cat sat 99 0123"))) r /\
    StronglySorted
      (ranked (own_order (tokens (explode "abc 123 the cat and the Cat sat 99 0123")))) r.
Proof.
  apply (@extractKeywords_ranked ["the"; "and"]%string
           "abc 123 the cat and the Cat sat 99 0123"%string 3).
  intros w Hin _. vm_compute in Hin.
  repeat (destruct Hin as [<-|Hin]; [discriminate|]). contradiction.
Defined.

Example keywords_example :
  extractKeywords ["the"; "and"]%string
                  "abc 123 the cat and the Cat sat 99 0123" 3
  = Some [Keyword.Make "cat" 2; Keyword.Make "123" 1; Keyword.Make "abc" 1].
Proof. vm_compute. reflexivity. Qed.

(** ** The partition sums *)

Lemma analyze_loop_text (getHours : string -> option nat) (messages : list Message.t) :
  forall a a',
    analyze_loop getHours messages a = Some a' ->
    acc_text a' = acc_text a ++ map Message.text messages.
Proof.
  induction messages as [|m messages IH]; intros a a' H; simpl in H.
  - injection H as <-. now rewrite app_nil_r.
  - unfold analyze_step in H.
    destruct (channel_step m (acc_channels a)); [|discriminate].
    apply IH in H. simpl in H. rewrite H, <- app_assoc. reflexivity.
Qed.

(** Whenever [analyzeMessages] returns, the sentiment tally and the
    channel counts add up to the number of messages, and so do the user
    counts if no user identifier names a member of [Object.prototype]. *)
Lemma analysis_partition
      (stopWords : list string) (getHours : string -> option nat)
      (messages : list Message.t) (a : Analysis.t) :
  analyzeMessages stopWords getHours messages = Returns a ->
  Analysis.totalMessages a = length messages /\
  Tally.total (Analysis.sentimentOverview a) = length messages /\
  channel_message_sum a = length messages /\
  (Forall (fun m => JSObject.inherited (Message.user m) = false) messages ->
   user_message_sum a = length messages).
Proof.
  unfold analyzeMessages. destruct messages as [|m0 ms].
  - intros H. injection H as <-. repeat split.
  - set (messages := m0 :: ms).
    destruct (analyze_loop getHours messages (acc0)) as [a'|] eqn:El; [|discriminate].
    destruct (extractKeywords stopWords _ 15) as [kw|]; [|discriminate].
    intros H. injection H as <-.
    destruct (@analyze_loop_sums getHours messages _ _ El) as (Hs & Hc & Hu).
    unfold user_message_sum, channel_message_sum. simpl.
    rewrite !sum_by_map_values. repeat split.
    + exact Hs.
    + exact Hc.
    + exact Hu.
Qed.

(** [analyzeMessages] returns when the identifiers are plain and no
    counted word is ["constructor"]. *)
Lemma analysis_returns
      (stopWords : list string) (getHours : string -> option nat)
      (messages : list Message.t) :
  plain_ids messages ->
  countable stopWords (join_texts messages) ->
  exists a, analyzeMessages stopWords getHours messages = Returns a.
Proof.
  intros Hp Hc. unfold analyzeMessages. destruct messages as [|m0 ms]; [eauto|].
  set (messages := m0 :: ms) in *.
  assert (Hch : Forall (fun m => JSObject.inherited (Message.channel m) = false) messages)
    by (eapply Forall_impl; [|exact Hp]; simpl; tauto).
  destruct (@analyze_loop_plain getHours messages Hch acc0) as [a' El]. rewrite El.
  rewrite (@analyze_loop_text getHours messages _ _ El).
  change (acc_text acc0 ++ map Message.text messages)
    with (map Message.text messages).
  destruct (@extractKeywords_total stopWords _ 15 Hc) as (r & Hr).
  unfold join_texts in Hr. rewrite Hr. eauto.
Qed.

(** The overall tally of [getSentimentStats] always adds up. *)
Lemma sentiment_report_partition
      (getHours : string -> option nat) (parseFloat : string -> float)
      (messages : list Message.t) :
  Tally.total (SentimentStats.overall (getSentimentStats getHours parseFloat messages))
  = length messages.
Proof.
  unfold getSentimentStats. destruct messages as [|m0 ms]; [reflexivity|].
  cbn [SentimentStats.overall]. rewrite total_fold. reflexivity.
Qed.

(** The counts partition the messages whenever the identifiers are plain
    and no counted word is ["constructor"]. *)
Lemma plain_partition
      (stopWords : list string) (getHours : string -> option nat)
      (parseFloat : string -> float) (messages : list Message.t) :
  plain_ids messages ->
  countable stopWords (join_texts messages) ->
  exists a,
    analyzeMessages stopWords getHours messages = Returns a /\
    Analysis.totalMessages a = length messages /\
    user_message_sum a = length messages /\
    channel_message_sum a = length messages /\
    Tally.total (Analysis.sentimentOverview a) = length messages /\
    Tally.total (SentimentStats.overall
                   (getSentimentStats getHours parseFloat messages))
    = length messages.
Proof.
  intros Hp Hc.
  destruct (@analysis_returns stopWords getHours messages Hp Hc) as [a Ha].
  destruct (analysis_partition _ _ _ Ha) as (Ht & Hs & Hch & Hu).
  exists a. repeat split; auto.
  - apply Hu. eapply Forall_impl; [|exact Hp]. simpl. tauto.
  - apply sentiment_report_partition.
Qed.

(** A channel named after a member of [Object.prototype] makes
    [analyzeMessages] raise. *)
Lemma analysis_throws_on_inherited_channel
      (stopWords : list string) (getHours : string -> option nat) :
  analyzeMessages stopWords getHours
    [Message.Make "1.0" "U1" "eve" "constructor" "hi" None] = Throws.
Proof. reflexivity. Qed.

(** C6 at the input on which the code departs from it. The message of a
    user named ["constructor"] is counted in the total, in its channel
    and in the sentiment tally, and in no entry of [userStats]:
    [userStats["constructor"]] reads the function that every object
    inherits, so no entry is created, and the user counts add up to 0
    where the total is 1. *)
Theorem user_counts_miss_inherited_name
        (stopWords : list string) (getHours : string -> option nat) :
  exists a : Analysis.t,
    analyzeMessages stopWords getHours
      [Message.Make "1.0" "constructor" "eve" "C1" "hi" None] = Returns a /\
    Analysis.totalMessages a = 1 /\
    Analysis.userStats a = JSObject.empty /\
    user_message_sum a = 0 /\
    channel_message_sum a = 1 /\
    Tally.total (Analysis.sentimentOverview a) = 1.
Proof.
  unfold analyzeMessages.
  assert (Hk : extractKeywords stopWords "hi" 15 = Some []).
  { unfold extractKeywords. cbn -[kept]. unfold kept. cbn.
    rewrite andb_false_r. reflexivity. }
  cbn -[extractKeywords JSNumber.of_nat PrimFloat.div hourKey].
  rewrite Hk. eexists. split; [reflexivity|]. repeat split.
Qed.

(* ================================================================== *)
(** * Numbers: the arithmetic of binary64 commutes *)
(* ================================================================== *)

Module FloatFacts.
Import FloatOps SpecFloat FloatAxioms.


Lemma compare_cont_Eq (p q : positive) :
  PosDef.Pos.compare_cont Eq p q = Pos.compare p q.
Proof. reflexivity. Qed.

(** The order of [SFcompare] is antisymmetric. *)
Lemma SFcompare_antisym (x y : spec_float) :
  SFcompare y x = option_map CompOpp (SFcompare x y).
Proof.
  destruct x as [sx|sx| |sx mx ex], y as [sy|sy| |sy my ey]; simpl;
    try reflexivity;
    try (destruct sx; reflexivity); try (destruct sy; reflexivity);
    try (destruct sx, sy; reflexivity).
  rewrite !compare_cont_Eq.
  change (IntDef.Z.compare ey ex) with (Z.compare ey ex).
  change (IntDef.Z.compare ex ey) with (Z.compare ex ey).
  rewrite (Z.compare_antisym ex ey), (Pos.compare_antisym mx my).
  destruct sx, sy; simpl; try reflexivity;
    destruct (ex ?= ey)%Z; simpl; try reflexivity;
    destruct (mx ?= my)%positive; reflexivity.
Qed.

(** Two numbers that compare equal are the same number or two zeros. *)
Lemma SFcompare_Eq (x y : spec_float) :
  SFcompare x y = Some Eq ->
  x = y \/ (exists sx sy, x = S754_zero sx /\ y = S754_zero sy).
Proof.
  destruct x as [sx|sx| |sx mx ex], y as [sy|sy| |sy my ey]; simpl;
    try discriminate.
  - right. eauto.
  - destruct sy; discriminate.
  - destruct sy; discriminate.
  - destruct sx; discriminate.
  - destruct sx, sy; try discriminate; auto.
  - destruct sx; discriminate.
  - destruct sx; discriminate.
  - destruct sy; discriminate.
  - rewrite !compare_cont_Eq.
    change (IntDef.Z.compare ex ey) with (Z.compare ex ey).
    destruct sx, sy; try discriminate;
      destruct (ex ?= ey)%Z eqn:Ee; try discriminate;
      destruct (mx ?= my)%positive eqn:Em; try discriminate;
      apply Z.compare_eq in Ee; apply Pos.compare_eq in Em;
      subst; auto.
Qed.

Lemma is_nan_spec (x : float) :
  PrimFloat.is_nan x = match Prim2SF x with S754_nan => true | _ => false end.
Proof.
  unfold PrimFloat.is_nan. rewrite eqb_spec. unfold SFeqb.
  destruct (Prim2SF x) as [s|s| |s m e]; simpl; try reflexivity.
  - destruct s; reflexivity.
  - rewrite compare_cont_Eq, Pos.compare_refl.
    change (IntDef.Z.compare e e) with (Z.compare e e).
    rewrite Z.compare_refl. destruct s; reflexivity.
Qed.

(** [Math.min] does not depend on the order of its arguments. *)
Lemma min_comm (a b : float) : JSNumber.min a b = JSNumber.min b a.
Proof.
  unfold JSNumber.min. rewrite (orb_comm (PrimFloat.is_nan b)).
  destruct (PrimFloat.is_nan a || PrimFloat.is_nan b) eqn:En; [reflexivity|].
  apply orb_false_iff in En. destruct En as [Ha Hb].
  rewrite is_nan_spec in Ha, Hb.
  rewrite !ltb_spec. unfold SFltb. rewrite (SFcompare_antisym (Prim2SF a) (Prim2SF b)).
  destruct (SFcompare (Prim2SF a) (Prim2SF b)) as [[| |]|] eqn:Ec; simpl; try reflexivity.
  - apply SFcompare_Eq in Ec. destruct Ec as [Ec|(sa & sb & Ea & Eb)].
    + apply Prim2SF_inj in Ec. subst b. destruct (JSNumber.is_neg_zero a); reflexivity.
    + unfold JSNumber.is_neg_zero. rewrite Ea, Eb.
      destruct sa, sb; try reflexivity.
      * apply Prim2SF_inj. congruence.
      * apply Prim2SF_inj. congruence.
  - destruct (Prim2SF a) as [s|s| |s m e], (Prim2SF b) as [s'|s'| |s' m' e'];
      simpl in Ec; try discriminate.
Qed.
End FloatFacts.

(* ================================================================== *)
(** * Numbers: bounds through the rounding of binary64 *)
(* ================================================================== *)

Module FloatBounds.
Import FloatOps SpecFloat FloatAxioms Binary64.
Local Open Scope Z_scope.

Lemma fexp_eq (x : Z) : fexp prec emax x = Z.max (x - 53) (-1074).
Proof. reflexivity. Qed.

Lemma digits_bounds (p : positive) :
  2 ^ (Zpos (digits2_pos p) - 1) <= Zpos p < 2 ^ Zpos (digits2_pos p).
Proof.
  induction p as [p IH|p IH|]; cbn [digits2_pos].
  - rewrite Pos2Z.inj_succ, (Pos2Z.inj_xI p).
    replace (Z.succ (Zpos (digits2_pos p)) - 1) with (Z.succ (Zpos (digits2_pos p) - 1)) by lia.
    rewrite !Z.pow_succ_r by lia. lia.
  - rewrite Pos2Z.inj_succ, (Pos2Z.inj_xO p).
    replace (Z.succ (Zpos (digits2_pos p)) - 1) with (Z.succ (Zpos (digits2_pos p) - 1)) by lia.
    rewrite !Z.pow_succ_r by lia. lia.
  - simpl. lia.
Qed.

Lemma shr_1_m (mrs : shr_record) :
  0 <= shr_m mrs -> shr_m (shr_1 mrs) = shr_m mrs / 2.
Proof.
  destruct mrs as [m r s]. cbn [shr_m]. intros Hm.
  rewrite <- Z.div2_div.
  destruct m as [|[p|p|]|p]; try reflexivity. lia.
Qed.

Lemma iter_pos_shr (p : positive) :
  forall mrs, 0 <= shr_m mrs ->
              shr_m (iter_pos shr_1 p mrs) = shr_m mrs / 2 ^ Zpos p.
Proof.
  induction p as [p IH|p IH|]; intros mrs Hm; cbn [iter_pos].
  - assert (H1 : 0 <= shr_m (shr_1 mrs)) by (rewrite shr_1_m by lia; apply Z.div_pos; lia).
    assert (H2 : 0 <= shr_m (iter_pos shr_1 p (shr_1 mrs)))
      by (rewrite IH by lia; apply Z.div_pos; lia).
    rewrite IH by exact H2. rewrite IH by exact H1. rewrite shr_1_m by lia.
    rewrite !Z.div_div by lia. f_equal.
    rewrite (Pos2Z.inj_xI p).
    replace (2 * Zpos p + 1) with (Zpos p + Zpos p + 1) by lia.
    rewrite !Z.pow_add_r by lia. change (2 ^ 1) with 2. ring.
  - assert (H2 : 0 <= shr_m (iter_pos shr_1 p mrs))
      by (rewrite IH by lia; apply Z.div_pos; lia).
    rewrite IH by exact H2. rewrite IH by exact Hm.
    rewrite !Z.div_div by lia. f_equal.
    rewrite (Pos2Z.inj_xO p).
    replace (2 * Zpos p) with (Zpos p + Zpos p) by lia.
    rewrite !Z.pow_add_r by lia. ring.
  - rewrite shr_1_m by lia. reflexivity.
Qed.

Lemma shr_record_m (m : Z) (l : location) : shr_m (shr_record_of_loc m l) = m.
Proof. destruct l as [|[| |]]; reflexivity. Qed.

(** One alignment step: nothing when the mantissa fits, else a floor
    division by a power of two. *)
Lemma shr_fexp_spec (m e : Z) (l : location) :
  0 <= m ->
  let n := fexp prec emax (Zdigits2 m + e) - e in
  let r := shr_fexp prec emax m e l in
  (n <= 0 -> fst r = shr_record_of_loc m l /\ snd r = e) /\
  (0 < n -> shr_m (fst r) = m / 2 ^ n /\ snd r = e + n).
Proof.
  intros Hm n r. unfold r, shr_fexp, shr. fold n.
  destruct n as [|p|p]; cbn [fst snd]; split; intros Hn; try lia; auto.
  rewrite iter_pos_shr by (rewrite shr_record_m; lia).
  now rewrite shr_record_m.
Qed.

Lemma rne_bounds (m : Z) (l : location) :
  m <= round_nearest_even m l <= m + 1.
Proof.
  destruct l as [|[| |]]; simpl; try destruct (Z.even m); lia.
Qed.

Lemma canonical_facts (m : positive) (e : Z) :
  canonical_mantissa prec emax m e = true ->
  -1074 <= e /\ Zpos m < 2 ^ 53 /\ (-1074 < e -> 2 ^ 52 <= Zpos m).
Proof.
  unfold canonical_mantissa. rewrite fexp_eq. intros H.
  apply Z.eqb_eq in H.
  pose proof (digits_bounds m) as [Hlo Hhi].
  set (d := Zpos (digits2_pos m)) in *.
  assert (Hd : 0 < d) by (unfold d; lia).
  split; [lia|]. split.
  - eapply Z.lt_le_trans; [exact Hhi|]. apply Z.pow_le_mono_r; lia.
  - intros He. eapply Z.le_trans; [|exact Hlo].
    apply Z.pow_le_mono_r; lia.
Qed.

Lemma pow2_pos (k : Z) : 0 <= k -> 0 < 2 ^ k.
Proof. intros. apply Z.pow_pos_nonneg; lia. Qed.

Lemma V_split (m e n : Z) : - B <= e -> 0 <= n -> V m (e + n) = m * 2 ^ n * 2 ^ (e + B).
Proof.
  intros He Hn. unfold V.
  replace (e + n + B) with (n + (e + B)) by lia.
  rewrite Z.pow_add_r by lia. ring.
Qed.

Lemma V_mono (a b e : Z) : - B <= e -> a <= b -> V a e <= V b e.
Proof.
  intros He Hab. unfold V. apply Z.mul_le_mono_nonneg_r; [|exact Hab].
  apply Z.lt_le_incl, pow2_pos. lia.
Qed.

Lemma V_pos (m e : Z) : - B <= e -> 0 < V m e -> 0 < m.
Proof.
  intros He H. unfold V in H. assert (0 < 2 ^ (e + B)) by (apply pow2_pos; lia). nia.
Qed.

(** Aligning keeps what is above a representable number above it. *)
Lemma shr_fexp_lo (m e : Z) (l : location) (mL : positive) (eL : Z) :
  0 < m -> - B <= e ->
  canonical_mantissa prec emax mL eL = true ->
  V (Zpos mL) eL <= V m e ->
  V (Zpos mL) eL <= V (shr_m (fst (shr_fexp prec emax m e l)))
                      (snd (shr_fexp prec emax m e l)) /\
  e <= snd (shr_fexp prec emax m e l).
Proof.
  intros Hm He Hc HV.
  destruct (@shr_fexp_spec m e l (Z.lt_le_incl _ _ Hm)) as [H0 H1].
  set (n := fexp prec emax (Zdigits2 m + e) - e) in *.
  destruct (Z.le_gt_cases n 0) as [Hn|Hn].
  - destruct (H0 Hn) as [-> ->]. rewrite shr_record_m. split; [exact HV | lia].
  - destruct (H1 Hn) as [-> ->]. split; [|lia].
    destruct (@canonical_facts mL eL Hc) as (HeL & HmL & _).
    assert (HB : B = 3000) by reflexivity.
    destruct m as [|p|p]; try lia.
    pose proof (digits_bounds p) as [Hlo Hhi].
    unfold n in *. cbn [Zdigits2] in *. rewrite fexp_eq in *.
    set (d := Zpos (digits2_pos p)) in *.
    assert (Hp : 0 < 2 ^ (Z.max (d + e - 53) (-1074) - e)) by (apply pow2_pos; lia).
    set (n' := Z.max (d + e - 53) (-1074) - e) in *.
    destruct (Z.le_gt_cases (e + n') eL) as [Hle|Hgt].
    + (* the bound is a multiple of the new unit *)
      replace eL with (e + (n' + (eL - (e + n')))) in HV |- * by lia.
      rewrite !V_split in * by lia.
      rewrite (Z.pow_add_r 2 n' (eL - (e + n'))) in * by lia.
      set (X := 2 ^ (eL - (e + n'))) in *.
      assert (HX : 0 < X) by (apply pow2_pos; lia).
      assert (HP : 0 < 2 ^ (e + B)) by (apply pow2_pos; lia).
      unfold V in HV.
      assert (Hq : Zpos mL * X <= Zpos p / 2 ^ n').
      { apply Z.div_le_lower_bound; [exact Hp|].
        apply (Z.mul_le_mono_pos_r _ _ (2 ^ (e + B)) HP).
        etransitivity; [|exact HV]. apply Z.eq_le_incl. ring. }
      replace (Zpos mL * (2 ^ n' * X) * 2 ^ (e + B))
        with (Zpos mL * X * (2 ^ n' * 2 ^ (e + B))) by ring.
      replace (Zpos p / 2 ^ n' * 2 ^ n' * 2 ^ (e + B))
        with (Zpos p / 2 ^ n' * (2 ^ n' * 2 ^ (e + B))) by ring.
      apply Z.mul_le_mono_nonneg_r; [|exact Hq]. nia.
    + (* the result keeps 53 digits *)
      assert (Hn' : n' = d - 53) by lia.
      assert (Hq : 2 ^ 52 <= Zpos p / 2 ^ n').
      { apply Z.div_le_lower_bound; [exact Hp|].
        rewrite <- Z.pow_add_r by lia.
        replace (n' + 52) with (d - 1) by lia. exact Hlo. }
      replace (e + n') with (eL + (1 + (e + n' - eL - 1))) by lia.
      rewrite V_split by lia. unfold V.
      rewrite (Z.pow_add_r 2 1 (e + n' - eL - 1)) by lia. change (2 ^ 1) with 2.
      set (Y := 2 ^ (e + n' - eL - 1)) in *.
      assert (HY : 0 < Y) by (apply pow2_pos; lia).
      assert (HP : 0 < 2 ^ (eL + B)) by (apply pow2_pos; lia).
      change (2 ^ 53) with (2 * 2 ^ 52) in HmL.
      set (Q := Zpos p / 2 ^ n') in *. set (T := 2 ^ 52) in *.
      assert (Zpos mL <= Q * (2 * Y)) by nia.
      nia.
Qed.

Lemma shr_fexp_hi (m e : Z) (l : location) :
  0 <= m -> - B <= e ->
  V (shr_m (fst (shr_fexp prec emax m e l))) (snd (shr_fexp prec emax m e l))
  <= V m e /\
  0 <= shr_m (fst (shr_fexp prec emax m e l)) /\
  e <= snd (shr_fexp prec emax m e l)
  <= Z.max e (fexp prec emax (Zdigits2 m + e)).
Proof.
  intros Hm He.
  destruct (@shr_fexp_spec m e l Hm) as [H0 H1].
  set (n := fexp prec emax (Zdigits2 m + e) - e) in *.
  destruct (Z.le_gt_cases n 0) as [Hn|Hn].
  - destruct (H0 Hn) as [-> ->]. rewrite shr_record_m. repeat split; lia.
  - destruct (H1 Hn) as [-> ->].
    assert (Hp : 0 < 2 ^ n) by (apply pow2_pos; lia).
    repeat split; try (unfold n; lia).
    + rewrite V_split by lia. unfold V.
      pose proof (Z.mul_div_le m (2 ^ n) Hp).
      assert (HP : 0 < 2 ^ (e + B)) by (apply pow2_pos; lia).
      nia.
    + apply Z.div_pos; lia.
Qed.

Lemma shr_fexp_nonneg (m e : Z) (l : location) :
  0 <= m -> 0 <= shr_m (fst (shr_fexp prec emax m e l)).
Proof.
  intros Hm. destruct (@shr_fexp_spec m e l Hm) as [H0 H1].
  set (n := fexp prec emax (Zdigits2 m + e) - e) in *.
  destruct (Z.le_gt_cases n 0) as [Hn|Hn].
  - destruct (H0 Hn) as [-> _]. now rewrite shr_record_m.
  - destruct (H1 Hn) as [-> _]. apply Z.div_pos; [lia | apply pow2_pos; lia].
Qed.

(** The rounding of a number, step by step. *)
Lemma bra_unfold (sx : bool) (m e : Z) (l : location) :
  binary_round_aux prec emax sx m e l
  = let r1 := shr_fexp prec emax m e l in
    let m2 := round_nearest_even (shr_m (fst r1)) (loc_of_shr_record (fst r1)) in
    let r2 := shr_fexp prec emax m2 (snd r1) loc_Exact in
    match shr_m (fst r2) with
    | 0 => S754_zero sx
    | Zpos m3 =>
        if snd r2 <=? emax - prec then S754_finite sx m3 (snd r2)
        else S754_infinity sx
    | Zneg _ => S754_nan
    end.
Proof.
  unfold binary_round_aux.
  destruct (shr_fexp prec emax m e l) as [mrs' e']. cbn [fst snd].
  destruct (shr_fexp prec emax _ e' loc_Exact) as [mrs'' e'']. reflexivity.
Qed.

Lemma bra_nonneg (m e : Z) (l : location) :
  0 <= m -> nonneg (binary_round_aux prec emax false m e l).
Proof.
  intros Hm. rewrite bra_unfold. cbv zeta.
  set (r1 := shr_fexp prec emax m e l).
  pose proof (@shr_fexp_nonneg m e l Hm) as H1. fold r1 in H1.
  set (m2 := round_nearest_even _ _).
  assert (H2 : 0 <= m2) by (pose proof (rne_bounds (shr_m (fst r1)) (loc_of_shr_record (fst r1))); unfold m2; lia).
  pose proof (@shr_fexp_nonneg m2 (snd r1) loc_Exact H2) as H3.
  destruct (shr_m (fst (shr_fexp prec emax m2 (snd r1) loc_Exact))) as [|m3|m3].
  - exact I.
  - destruct (_ <=? _); exact I.
  - lia.
Qed.

(** A number at or above a representable one rounds to a number at or
    above it. *)
Lemma bra_lo (m e : Z) (l : location) (mL : positive) (eL : Z) :
  0 < m -> - B <= e ->
  canonical_mantissa prec emax mL eL = true ->
  V (Zpos mL) eL <= V m e ->
  binary_round_aux prec emax false m e l = S754_infinity false \/
  exists m3 e3,
    binary_round_aux prec emax false m e l = S754_finite false m3 e3 /\
    V (Zpos mL) eL <= V (Zpos m3) e3.
Proof.
  intros Hm He Hc HV. rewrite bra_unfold. cbv zeta.
  destruct (@canonical_facts mL eL Hc) as (HeL & _).
  assert (HB : B = 3000) by reflexivity.
  assert (HL : 0 < V (Zpos mL) eL).
  { unfold V. assert (0 < 2 ^ (eL + B)) by (apply pow2_pos; lia). nia. }
  destruct (@shr_fexp_lo m e l mL eL Hm He Hc HV) as [H1 H1e].
  set (r1 := shr_fexp prec emax m e l) in *.
  set (m2 := round_nearest_even _ _).
  assert (H2 : V (Zpos mL) eL <= V m2 (snd r1)).
  { etransitivity; [exact H1|]. apply V_mono; [lia|].
    apply rne_bounds. }
  assert (Hm2 : 0 < m2) by (apply (@V_pos m2 (snd r1)); lia).
  destruct (@shr_fexp_lo m2 (snd r1) loc_Exact mL eL Hm2 ltac:(lia) Hc H2) as [H3 H3e].
  set (r2 := shr_fexp prec emax m2 (snd r1) loc_Exact) in *.
  destruct (shr_m (fst r2)) as [|m3|m3] eqn:E.
  - unfold V in H3 at 2. lia.
  - destruct (snd r2 <=? emax - prec); [right; eauto | left; reflexivity].
  - exfalso. unfold V in H3 at 2.
    assert (0 < 2 ^ (snd r2 + B)) by (apply pow2_pos; lia). nia.
Qed.

(** The rounding of an exact number that is at or above a representable
    one and below [2^K]: a finite number between the bound and the number
    plus one unit. *)
Lemma bra_bounds (m e : Z) (mL : positive) (eL K : Z) :
  0 < m -> - B <= e ->
  canonical_mantissa prec emax mL eL = true ->
  V (Zpos mL) eL <= V m e ->
  V m e + 2 ^ (Z.max e (fexp prec emax (Zdigits2 m + e)) + B) < 2 ^ (K + B) ->
  Z.max e (fexp prec emax (Zdigits2 m + e)) <= 971 -> K <= 1024 -> - B <= K ->
  exists m3 e3,
    binary_round_aux prec emax false m e loc_Exact = S754_finite false m3 e3 /\
    V (Zpos mL) eL <= V (Zpos m3) e3 /\
    V (Zpos m3) e3 <= V m e + 2 ^ (Z.max e (fexp prec emax (Zdigits2 m + e)) + B).
Proof.
  intros Hm He Hc HV HK He1 HK1 HK2.
  assert (HB : B = 3000) by reflexivity.
  destruct (@bra_lo m e loc_Exact mL eL Hm He Hc HV) as [Hinf|(m3 & e3 & Hres & Hlo)].
  - (* not an infinity *)
    exfalso. revert Hinf. rewrite bra_unfold. cbv zeta.
    destruct (@shr_fexp_hi m e loc_Exact ltac:(lia) He) as (H1 & H1m & H1e).
    set (r1 := shr_fexp prec emax m e loc_Exact) in *.
    set (e1 := Z.max e (fexp prec emax (Zdigits2 m + e))) in *.
    set (m2 := round_nearest_even _ _).
    pose proof (rne_bounds (shr_m (fst r1)) (loc_of_shr_record (fst r1))) as Hr.
    fold m2 in Hr.
    assert (H2 : V m2 (snd r1) <= V m e + 2 ^ (e1 + B)).
    { transitivity (V (shr_m (fst r1) + 1) (snd r1)); [apply V_mono; lia|].
      unfold V in *. rewrite Z.mul_add_distr_r, Z.mul_1_l.
      assert (2 ^ (snd r1 + B) <= 2 ^ (e1 + B)) by (apply Z.pow_le_mono_r; lia).
      lia. }
    destruct (@shr_fexp_hi m2 (snd r1) loc_Exact ltac:(lia) ltac:(lia)) as (H3 & H3m & H3e).
    set (r2 := shr_fexp prec emax m2 (snd r1) loc_Exact) in *.
    assert (He2 : snd r2 <= 971).
    { destruct m2 as [|p2|p2]; try lia.
      - cbn [Zdigits2] in H3e. rewrite fexp_eq in H3e. lia.
      - pose proof (digits_bounds p2) as [Hd _].
        cbn [Zdigits2] in H3e. rewrite fexp_eq in H3e.
        set (d2 := Zpos (digits2_pos p2)) in *.
        assert (Hlt : 2 ^ (d2 - 1 + (snd r1 + B)) < 2 ^ (K + B)).
        { eapply Z.le_lt_trans; [|exact HK]. etransitivity; [|exact H2].
          unfold V. rewrite Z.pow_add_r by (unfold d2; lia).
          apply Z.mul_le_mono_nonneg_r; [|exact Hd].
          apply Z.lt_le_incl, pow2_pos. lia. }
        apply Z.pow_lt_mono_r_iff in Hlt; lia. }
    destruct (shr_m (fst r2)) as [|m3|m3]; try discriminate.
    replace (snd r2 <=? emax - prec) with true; [discriminate|].
    symmetry. apply Z.leb_le. change (emax - prec) with 971. exact He2.
  - exists m3, e3. split; [exact Hres|]. split; [exact Hlo|].
    revert Hres. rewrite bra_unfold. cbv zeta.
    destruct (@shr_fexp_hi m e loc_Exact ltac:(lia) He) as (H1 & H1m & H1e).
    set (r1 := shr_fexp prec emax m e loc_Exact) in *.
    set (e1 := Z.max e (fexp prec emax (Zdigits2 m + e))) in *.
    set (m2 := round_nearest_even _ _).
    pose proof (rne_bounds (shr_m (fst r1)) (loc_of_shr_record (fst r1))) as Hr.
    fold m2 in Hr.
    assert (H2 : V m2 (snd r1) <= V m e + 2 ^ (e1 + B)).
    { transitivity (V (shr_m (fst r1) + 1) (snd r1)); [apply V_mono; lia|].
      unfold V in *. rewrite Z.mul_add_distr_r, Z.mul_1_l.
      assert (2 ^ (snd r1 + B) <= 2 ^ (e1 + B)) by (apply Z.pow_le_mono_r; lia).
      lia. }
    destruct (@shr_fexp_hi m2 (snd r1) loc_Exact ltac:(lia) ltac:(lia)) as (H3 & H3m & H3e).
    set (r2 := shr_fexp prec emax m2 (snd r1) loc_Exact) in *.
    destruct (shr_m (fst r2)) as [|m3'|m3']; try discriminate.
    destruct (snd r2 <=? emax - prec); [|discriminate].
    intros Hres. injection Hres as <- <-. lia.
Qed.

(** ** Representable numbers *)

Lemma valid_finite (x : float) (s : bool) (m : positive) (e : Z) :
  Prim2SF x = S754_finite s m e ->
  canonical_mantissa prec emax m e = true /\ e <= 971.
Proof.
  intros H. pose proof (Prim2SF_valid x) as Hv. rewrite H in Hv.
  unfold valid_binary, bounded in Hv. apply andb_true_iff in Hv.
  destruct Hv as [Hc He]. split; [exact Hc|].
  apply Z.leb_le in He. exact He.
Qed.

(** The order of the comparison is the order of the values. *)
Lemma ltb_V (m m' : positive) (e e' : Z) :
  canonical_mantissa prec emax m e = true ->
  canonical_mantissa prec emax m' e' = true ->
  SFltb (S754_finite false m e) (S754_finite false m' e') = true ->
  V (Zpos m) e < V (Zpos m') e'.
Proof.
  intros Hc Hc' H.
  destruct (@canonical_facts m e Hc) as (He & Hm & _).
  destruct (@canonical_facts m' e' Hc') as (He' & _ & Hm').
  assert (HB : B = 3000) by reflexivity.
  unfold SFltb, SFcompare in H.
  change (IntDef.Z.compare e e') with (Z.compare e e') in H.
  destruct (e ?= e') eqn:Ee; try discriminate.
  - apply Z.compare_eq in Ee. subst e'.
    rewrite FloatFacts.compare_cont_Eq in H.
    destruct (m ?= m')%positive eqn:Em; try discriminate.
    assert (Hlt : Zpos m < Zpos m') by (apply Pos2Z.pos_lt_pos; exact Em).
    unfold V. apply Z.mul_lt_mono_pos_r; [apply pow2_pos; lia | exact Hlt].
  - assert (Hlt : e < e') by exact Ee. specialize (Hm' ltac:(lia)).
    unfold V. replace (e' + B) with (1 + (e' - e - 1) + (e + B)) by lia.
    rewrite (Z.pow_add_r 2 (1 + (e' - e - 1)) (e + B)) by lia.
    rewrite (Z.pow_add_r 2 1 (e' - e - 1)) by lia. change (2 ^ 1) with 2.
    assert (0 < 2 ^ (e' - e - 1)) by (apply pow2_pos; lia).
    assert (0 < 2 ^ (e + B)) by (apply pow2_pos; lia).
    change (2 ^ 53) with (2 * 2 ^ 52) in Hm.
    set (T := 2 ^ 52) in *. set (Y := 2 ^ (e' - e - 1)) in *.
    set (P := 2 ^ (e + B)) in *.
    assert (Zpos m < Zpos m' * (2 * Y)) by nia.
    nia.
Qed.

(** ** Signs *)

Lemma of_nat_nonneg (n : nat) : nonneg (Prim2SF (JSNumber.of_nat n)).
Proof.
  unfold JSNumber.of_nat. rewrite of_uint63_spec.
  pose proof (Uint63.to_Z_bounded (Uint63.of_Z (Z.of_nat n))) as [H _].
  destruct (Uint63.to_Z (Uint63.of_Z (Z.of_nat n))) as [|p|p]; [exact I| |lia].
  unfold binary_normalize, binary_round.
  destruct (shl_align p 0 _) as [mz ez]. apply bra_nonneg. lia.
Qed.

Lemma of_small_nat (n : nat) :
  (1 <= n <= 21)%nat ->
  exists m e, Prim2SF (JSNumber.of_nat n) = S754_finite false m e.
Proof.
  intros Hn.
  assert (H : forallb (fun n => match Prim2SF (JSNumber.of_nat n) with
                                | S754_finite false _ _ => true
                                | _ => false
                                end) (seq 1 21) = true) by (vm_compute; reflexivity).
  rewrite forallb_forall in H. specialize (H n).
  destruct (Prim2SF (JSNumber.of_nat n)) as [| | |[|] m e];
    try (discriminate H; apply in_seq; lia).
  eauto.
Qed.

Lemma div_nonneg (x y : spec_float) :
  nonneg x -> nonneg y ->
  (exists m e, x = S754_finite false m e) \/ (exists m e, y = S754_finite false m e) ->
  nonneg (SF64div x y).
Proof.
  intros Hx Hy Hf. unfold SF64div, SFdiv.
  destruct x as [[|]|[|]| |[|] mx ex]; try contradiction;
    destruct y as [[|]|[|]| |[|] my ey]; try contradiction; try exact I;
    try (destruct Hf as [(m & e & Hf)|(m & e & Hf)]; discriminate Hf).
  unfold SFdiv_core_binary.
  set (m' := match _ with Zpos _ => _ | 0 => _ | Zneg _ => _ end).
  assert (Hm' : 0 <= m').
  { unfold m'. destruct (_ - _ - _) as [|s|s]; try lia.
    apply Z.shiftl_nonneg. lia. }
  pose proof (Z_div_mod m' (Zpos my) ltac:(lia)) as Hdm.
  change (IntDef.Z.div_eucl m' (Zpos my)) with (Z.div_eucl m' (Zpos my)).
  destruct (Z.div_eucl m' (Zpos my)) as [q r].
  apply bra_nonneg. destruct Hdm as [Hq Hr]. nia.
Qed.

Lemma mul_nonneg (x : spec_float) (my : positive) (ey : Z) :
  nonneg x -> nonneg (SF64mul x (S754_finite false my ey)).
Proof.
  intros Hx. unfold SF64mul, SFmul.
  destruct x as [[|]|[|]| |[|] mx ex]; try contradiction; try exact I.
  apply bra_nonneg. lia.
Qed.

(** ** Sums at or above one half *)

Lemma iter_xO (d m : positive) : Zpos (Pos.iter xO m d) = Zpos m * 2 ^ Zpos d.
Proof.
  induction d as [|d IH] using Pos.peano_ind.
  - simpl. lia.
  - rewrite Pos.iter_succ, Pos2Z.inj_succ, Z.pow_succ_r by lia.
    rewrite (Pos2Z.inj_xO (Pos.iter xO m d)), IH. ring.
Qed.

(** Aligning to a smaller exponent keeps the value. *)
Lemma shl_align_V (m : positive) (e e' : Z) :
  - B <= e -> - B <= e' ->
  V (Zpos (fst (shl_align m e e'))) (snd (shl_align m e e')) = V (Zpos m) e /\
  Z.min e e' <= snd (shl_align m e e') /\
  (e' <= e -> snd (shl_align m e e') = e').
Proof.
  intros He He'. unfold shl_align.
  destruct (e' - e) as [|d|d] eqn:Ed; cbn [fst snd].
  - split; [reflexivity|]. split; lia.
  - split; [reflexivity|]. split; lia.
  - rewrite iter_xO. split; [|split; lia].
    replace e with (e' + Zpos d) by lia. rewrite V_split by lia.
    unfold V. ring.
Qed.

Lemma half_canonical : canonical_mantissa prec emax 4503599627370496 (-53) = true.
Proof. reflexivity. Qed.

Lemma half_eq : half = V (Zpos 4503599627370496) (-53).
Proof. reflexivity. Qed.

Lemma add_ge_half (x y : spec_float) :
  valid_binary x = true -> valid_binary y = true ->
  ge_half x -> nonneg y -> ge_half (SF64add x y).
Proof.
  intros Vx Vy Hx Hy. unfold SF64add, SFadd.
  assert (HB : B = 3000) by reflexivity.
  destruct Hx as [->|(mx & ex & -> & Hx)].
  - destruct y as [[|]|[|]| |[|] my ey]; try contradiction; left; reflexivity.
  - destruct y as [[|]|[|]| |[|] my ey]; try contradiction.
    + right. eauto.
    + left. reflexivity.
    + unfold valid_binary, SpecFloat.valid_binary, bounded in Vx, Vy.
      apply andb_true_iff in Vx, Vy. destruct Vx as [Cx _], Vy as [Cy _].
      destruct (@canonical_facts mx ex Cx) as (Hex & _).
      destruct (@canonical_facts my ey Cy) as (Hey & _).
      set (ez := IntDef.Z.min ex ey).
      assert (Hez : ez = Z.min ex ey) by reflexivity.
      destruct (@shl_align_V mx ex ez ltac:(lia) ltac:(lia)) as (Hax & _ & Hsx).
      destruct (@shl_align_V my ey ez ltac:(lia) ltac:(lia)) as (Hay & _ & Hsy).
      rewrite Hsx in Hax by lia. rewrite Hsy in Hay by lia.
      cbn [cond_Zopp].
      set (a := fst (shl_align mx ex ez)) in *.
      set (b := fst (shl_align my ey ez)) in *.
      change (IntDef.Z.add (Zpos a) (Zpos b)) with (Zpos (a + b)).
      unfold binary_normalize, binary_round.
      set (e' := fexp prec emax _).
      assert (He' : - B <= e') by (unfold e'; rewrite fexp_eq; lia).
      destruct (@shl_align_V (a + b) ez e' ltac:(lia) He') as (Hs & Hmin & _).
      destruct (shl_align (a + b) ez e') as [mz ez']. cbn [fst snd] in *.
      assert (HV : half <= V (Zpos mz) ez').
      { rewrite Hs. unfold V in *. rewrite Pos2Z.inj_add, Z.mul_add_distr_r.
        assert (0 < 2 ^ (ez + B)) by (apply pow2_pos; lia). nia. }
      rewrite half_eq in HV.
      destruct (@bra_lo (Zpos mz) ez' loc_Exact _ _ ltac:(lia) ltac:(lia)
                        half_canonical HV) as [->|(m3 & e3 & -> & H3)].
      * left. reflexivity.
      * right. exists m3, e3. split; [reflexivity|]. rewrite half_eq. exact H3.
Qed.

(** ** Times one hundred, and to the nearest integer *)

Lemma rep_95 : Prim2SF 0.95%float = S754_finite false m95 (-53).
Proof. reflexivity. Qed.

Lemma rep_100 : Prim2SF 100%float = S754_finite false m100 (-46).
Proof. reflexivity. Qed.

Lemma rep_half : Prim2SF 0.5%float = S754_finite false 4503599627370496 (-53).
Proof. reflexivity. Qed.

(** A number between 0.5 and 0.95, times 100, is a finite number between
    50 and 95.5. *)
Lemma mul100_bounds (mc : positive) (ec : Z) :
  canonical_mantissa prec emax mc ec = true ->
  half <= V (Zpos mc) ec -> V (Zpos mc) ec <= V (Zpos m95) (-53) ->
  exists m3 e3,
    SF64mul (S754_finite false mc ec) (S754_finite false m100 (-46))
    = S754_finite false m3 e3 /\
    50 * 2 ^ B <= V (Zpos m3) e3 /\ 2 * V (Zpos m3) e3 < 191 * 2 ^ B.
Proof.
  intros Hc Hlo Hhi.
  assert (HB : B = 3000) by reflexivity.
  destruct (@canonical_facts mc ec Hc) as (Hec & Hmc & Hnorm).
  assert (Hec' : ec <= -53).
  { destruct (Z.le_gt_cases ec (-53)) as [|Hgt]; [assumption|exfalso].
    specialize (Hnorm ltac:(lia)).
    assert (H95 : V (Zpos m95) (-53) < 2 ^ B) by (vm_compute; reflexivity).
    assert (2 ^ B <= V (Zpos mc) ec); [|lia].
    unfold V. replace B with (52 + (B - 52)) at 1 by lia.
    rewrite (Z.pow_add_r 2 52 (B - 52)) by lia.
    assert (2 ^ (B - 52) <= 2 ^ (ec + B)) by (apply Z.pow_le_mono_r; lia).
    assert (0 < 2 ^ (B - 52)) by (apply pow2_pos; lia).
    nia. }
  unfold SF64mul, SFmul. cbn [xorb].
  change (IntDef.Z.add ec (-46)) with (ec + -46).
  change (PosDef.Pos.mul mc m100) with (mc * m100)%positive.
  set (P := Zpos (mc * m100)). set (E := ec + -46).
  assert (HPE : V P E = 100 * V (Zpos mc) ec).
  { unfold V, P, E. rewrite Pos2Z.inj_mul.
    replace (ec + B) with (46 + (ec + -46 + B)) by lia.
    rewrite (Z.pow_add_r 2 46 (ec + -46 + B)) by lia.
    change (Zpos m100) with (100 * 2 ^ 46). ring. }
  assert (H50 : V (Zpos m100) (-47) = 100 * half) by (vm_compute; reflexivity).
  assert (Hc50 : canonical_mantissa prec emax m100 (-47) = true) by reflexivity.
  assert (HU : 100 * V (Zpos m95) (-53) + 2 ^ (-46 + B) < 2 ^ (7 + B))
    by (vm_compute; reflexivity).
  assert (HU' : 2 * (100 * V (Zpos m95) (-53) + 2 ^ (-46 + B)) < 191 * 2 ^ B)
    by (vm_compute; reflexivity).
  assert (H50' : V (Zpos m100) (-47) = 50 * 2 ^ B) by (vm_compute; reflexivity).
  assert (Hd : Zdigits2 P + E <= 7).
  { unfold P. cbn [Zdigits2].
    pose proof (digits_bounds (mc * m100)) as [Hdl _]. fold P in Hdl.
    set (d := Zpos (digits2_pos (mc * m100))) in *.
    assert (Hlt : 2 ^ (d - 1 + (E + B)) < 2 ^ (7 + B)).
    { eapply Z.le_lt_trans; [|exact HU].
      transitivity (V P E); [|rewrite HPE; assert (0 < 2 ^ (-46 + B)) by (apply pow2_pos; lia); lia].
      unfold V. rewrite Z.pow_add_r by (unfold d, E; lia).
      apply Z.mul_le_mono_nonneg_r; [|exact Hdl].
      apply Z.lt_le_incl, pow2_pos. unfold E. lia. }
    apply Z.pow_lt_mono_r_iff in Hlt; lia. }
  set (e1 := Z.max E (fexp prec emax (Zdigits2 P + E))).
  assert (He1 : e1 <= -46) by (unfold e1, E; rewrite fexp_eq; lia).
  assert (He1' : - B <= e1) by (unfold e1, E; lia).
  assert (Hp1 : 2 ^ (e1 + B) <= 2 ^ (-46 + B)) by (apply Z.pow_le_mono_r; lia).
  destruct (@bra_bounds P E m100 (-47) 7 ltac:(unfold P; lia) ltac:(unfold E; lia) Hc50
              ltac:(rewrite H50, HPE; lia)
              ltac:(fold e1; rewrite HPE; lia)
              ltac:(fold e1; lia) ltac:(lia) ltac:(lia))
    as (m3 & e3 & Hres & H3lo & H3hi).
  exists m3, e3. split; [exact Hres|]. fold e1 in H3hi.
  rewrite H50' in H3lo. rewrite HPE in H3hi. split; lia.
Qed.

(** A finite number between 50 and 95.5 rounds to an integer from 50 to
    95. *)
Lemma round_bounds (y : float) (m3 : positive) (e3 : Z) :
  Prim2SF y = S754_finite false m3 e3 ->
  50 * 2 ^ B <= V (Zpos m3) e3 -> 2 * V (Zpos m3) e3 < 191 * 2 ^ B ->
  exists k, 50 <= k <= 95 /\ JSNumber.round y = PrimFloat.of_uint63 (Uint63.of_Z k).
Proof.
  intros Hy Hlo Hhi.
  assert (HB : B = 3000) by reflexivity.
  destruct (@valid_finite y false m3 e3 Hy) as [Hc _].
  destruct (@canonical_facts m3 e3 Hc) as (He & Hm & Hnorm).
  assert (He3 : e3 < 0).
  { destruct (Z.lt_ge_cases e3 0) as [|Hge]; [assumption|exfalso].
    specialize (Hnorm ltac:(lia)).
    assert (2 ^ 52 * 2 ^ B <= V (Zpos m3) e3).
    { unfold V. assert (2 ^ B <= 2 ^ (e3 + B)) by (apply Z.pow_le_mono_r; lia).
      assert (0 < 2 ^ B) by (apply pow2_pos; lia). nia. }
    assert (0 < 2 ^ B) by (apply pow2_pos; lia).
    change (2 ^ 52) with 4503599627370496 in *. lia. }
  set (X := 2 ^ (- e3)).
  assert (HX : 0 < X) by (apply pow2_pos; lia).
  assert (HBX : 2 ^ B = X * 2 ^ (e3 + B)).
  { unfold X. rewrite <- Z.pow_add_r by lia. f_equal. lia. }
  assert (HP : 0 < 2 ^ (e3 + B)) by (apply pow2_pos; lia).
  unfold V in Hlo, Hhi. rewrite HBX in Hlo, Hhi.
  assert (Hlo' : 50 * X <= Zpos m3) by nia.
  assert (Hhi' : 2 * Zpos m3 < 191 * X) by nia.
  set (k := (2 * Zpos m3 + X) / 2 ^ (1 - e3)).
  assert (H2X : 2 ^ (1 - e3) = 2 * X).
  { unfold X. replace (1 - e3) with (1 + - e3) by lia.
    rewrite Z.pow_add_r by lia. reflexivity. }
  assert (Hk : 50 <= k <= 95).
  { unfold k. rewrite H2X. split.
    - apply Z.div_le_lower_bound; lia.
    - assert ((2 * Zpos m3 + X) / (2 * X) < 96); [|lia].
      apply Z.div_lt_upper_bound; lia. }
  exists k. split; [exact Hk|].
  unfold JSNumber.round. rewrite Hy.
  replace (0 <=? e3) with false by (symmetry; apply Z.leb_gt; lia).
  fold X. fold k.
  replace (k =? 0) with false by (symmetry; apply Z.eqb_neq; lia).
  replace (0 <? k) with true by (symmetry; apply Z.ltb_lt; lia).
  reflexivity.
Qed.

(** The hundredths from 0.50 to 0.95 lie between 0.5 and 0.95. *)
Lemma hundredths_bounds (k : Z) :
  50 <= k <= 95 ->
  (0.5 <=? PrimFloat.of_uint63 (Uint63.of_Z k) / 100)%float = true /\
  (PrimFloat.of_uint63 (Uint63.of_Z k) / 100 <=? 0.95)%float = true.
Proof.
  intros Hk.
  assert (H : forallb (fun i =>
                         let r := (PrimFloat.of_uint63 (Uint63.of_Z (50 + Z.of_nat i)) / 100)%float in
                         (0.5 <=? r)%float && (r <=? 0.95)%float) (seq 0 46) = true)
    by (vm_compute; reflexivity).
  rewrite forallb_forall in H. specialize (H (Z.to_nat (k - 50))).
  replace (50 + Z.of_nat (Z.to_nat (k - 50))) with k in H by lia.
  cbv zeta in H. apply andb_true_iff. apply H. apply in_seq. lia.
Qed.

(** ** The confidence before and after rounding *)

Lemma nonneg_not_nan (x : float) : nonneg (Prim2SF x) -> PrimFloat.is_nan x = false.
Proof.
  intros H. rewrite FloatFacts.is_nan_spec.
  destruct (Prim2SF x) as [[|]|[|]| |[|] m e]; try contradiction; reflexivity.
Qed.

Lemma ge_half_nonneg (x : spec_float) : ge_half x -> nonneg x.
Proof. intros [->|(m & e & -> & _)]; exact I. Qed.

(** The capped sum, rounded to the hundredth, lies between 0.5 and 0.95,
    whatever the numbers of tokens and of phrases are. *)
Lemma confidence_range (matchedWords words strength : nat) :
  (1 <= matchedWords <= 21)%nat ->
  let c := JSNumber.min
             (0.5 + JSNumber.of_nat matchedWords / JSNumber.of_nat words * 0.3
              + JSNumber.of_nat strength / JSNumber.of_nat matchedWords * 0.2)%float
             0.95%float in
  (0.5 <=? round2 c)%float = true /\ (round2 c <=? 0.95)%float = true.
Proof.
  intros Hm.
  set (d := (JSNumber.of_nat matchedWords / JSNumber.of_nat words)%float).
  set (s := (JSNumber.of_nat strength / JSNumber.of_nat matchedWords)%float).
  assert (Hd : nonneg (Prim2SF d)).
  { unfold d. rewrite div_spec. apply div_nonneg; try apply of_nat_nonneg.
    left. now apply of_small_nat. }
  assert (Hs : nonneg (Prim2SF s)).
  { unfold s. rewrite div_spec. apply div_nonneg; try apply of_nat_nonneg.
    right. now apply of_small_nat. }
  assert (H1 : nonneg (Prim2SF (d * 0.3)%float)).
  { rewrite mul_spec. change (Prim2SF 0.3%float)
      with (S754_finite false 5404319552844595 (-54)). now apply mul_nonneg. }
  assert (H3 : nonneg (Prim2SF (s * 0.2)%float)).
  { rewrite mul_spec. change (Prim2SF 0.2%float)
      with (S754_finite false 7205759403792794 (-55)). now apply mul_nonneg. }
  assert (H2 : ge_half (Prim2SF (0.5 + d * 0.3)%float)).
  { rewrite add_spec. apply add_ge_half; try apply Prim2SF_valid; [|exact H1].
    right. rewrite rep_half. do 2 eexists. split; [reflexivity|].
    rewrite half_eq. lia. }
  assert (H4 : ge_half (Prim2SF (0.5 + d * 0.3 + s * 0.2)%float)).
  { rewrite add_spec. apply add_ge_half; try apply Prim2SF_valid; assumption. }
  set (x := (0.5 + d * 0.3 + s * 0.2)%float) in *.
  cbv zeta.
  assert (Hcap : (0.5 <=? round2 0.95)%float = true /\ (round2 0.95 <=? 0.95)%float = true)
    by (split; vm_compute; reflexivity).
  unfold JSNumber.min.
  rewrite (nonneg_not_nan x (ge_half_nonneg H4)).
  change (PrimFloat.is_nan 0.95) with false. cbn [orb].
  destruct (x <? 0.95)%float eqn:Elt.
  - rewrite ltb_spec, rep_95 in Elt.
    destruct H4 as [H4|(m4 & e4 & H4 & Hlo)]; rewrite H4 in Elt; [discriminate|].
    destruct (@valid_finite x false m4 e4 H4) as [Hc _].
    assert (Hhi : V (Zpos m4) e4 <= V (Zpos m95) (-53))
      by (apply Z.lt_le_incl, ltb_V; [exact Hc | reflexivity | exact Elt]).
    destruct (@mul100_bounds m4 e4 Hc Hlo Hhi) as (m3 & e3 & Hmul & H3lo & H3hi).
    assert (Hy : Prim2SF (x * 100)%float = S754_finite false m3 e3)
      by (rewrite mul_spec, H4, rep_100; exact Hmul).
    destruct (@round_bounds (x * 100)%float m3 e3 Hy H3lo H3hi) as (k & Hk & Hr).
    unfold round2. rewrite Hr. now apply hundredths_bounds.
  - destruct (0.95 <? x)%float; [exact Hcap|].
    replace (JSNumber.is_neg_zero x) with false; [exact Hcap|].
    unfold JSNumber.is_neg_zero.
    destruct H4 as [H4|(m4 & e4 & H4 & _)]; rewrite H4; reflexivity.
Qed.

End FloatBounds.

(* ================================================================== *)
(** * Rounding to the hundredth, against the exact values *)
(* ================================================================== *)

Module FloatNearest.
Import FloatOps SpecFloat FloatAxioms Binary64 FloatBounds.
Local Open Scope Z_scope.








End FloatNearest.

(* ================================================================== *)
(** * The confidence-scored scorer *)
(* ================================================================== *)

(** ** Splitting on white space *)

Lemma leading_spaces_le (s : chars) : leading_spaces s <= length s.
Proof.
  induction s as [|c t IH]; simpl; [lia|]. destruct (is_space c); simpl; lia.
Qed.

(** A greedy run of white space takes all the white space there is. *)
Lemma spaces_loop (n : nat) :
  forall prev s,
    leading_spaces s <= n ->
    rep_loop (rmatch (Chr is_space)) (fun _ s' => Some s') n 0 prev s
    = Some (skipn (leading_spaces s) s).
Proof.
  induction n as [|n IH]; intros prev s Hn.
  - destruct s as [|c t]; simpl in *; [reflexivity|].
    destruct (is_space c); [lia | reflexivity].
  - destruct s as [|c t]; [reflexivity|].
    cbn [rep_loop rmatch leading_spaces] in *.
    destruct (is_space c).
    + replace (length t <? length (c :: t)) with true
        by (symmetry; apply Nat.ltb_lt; simpl; lia).
      rewrite IH by lia. reflexivity.
    + reflexivity.
Qed.

Lemma match_spaces (prev : bool) (s : chars) :
  match_at (plus space) prev s
  = match s with
    | [] => None
    | c :: t => if is_space c then Some (skipn (leading_spaces t) t) else None
    end.
Proof.
  unfold match_at, plus, space. cbn [rmatch].
  destruct s as [|c t]; [reflexivity|].
  cbn [rep_loop rmatch Nat.add]. destruct (is_space c); [|reflexivity].
  rewrite spaces_loop; [reflexivity|].
  pose proof (leading_spaces_le t). simpl. lia.
Qed.

Lemma space_runs_after (s : chars) :
  leading_spaces s = 0 -> space_runs_from true s = space_runs_from false s.
Proof.
  destruct s as [|c t]; simpl; [reflexivity|].
  destruct (is_space c); [discriminate | reflexivity].
Qed.

Lemma split_spaces_length (s : chars) :
  (forall prev fresh cur,
      length (split_from (plus space) prev 0 fresh cur s)
      = S (space_runs_from false s)) /\
  (forall prev fresh cur,
      length (split_from (plus space) prev (leading_spaces s) fresh cur s)
      = S (space_runs_from true s)).
Proof.
  induction s as [|c t [IH0 IH1]].
  - split; reflexivity.
  - assert (H0 : forall prev fresh cur,
               length (split_from (plus space) prev 0 fresh cur (c :: t))
               = S (space_runs_from false (c :: t))).
    { intros prev fresh cur. cbn [split_from space_runs_from].
      rewrite match_spaces. destruct (is_space c).
      - pose proof (leading_spaces_le t) as Hle.
        replace (length (c :: t) - length (skipn (leading_spaces t) t))
          with (S (leading_spaces t))
          by (rewrite length_skipn; cbn [length]; lia).
        cbn [length]. rewrite IH1. reflexivity.
      - apply IH0. }
    split; [exact H0|].
    intros prev fresh cur. cbn [leading_spaces space_runs_from].
    destruct (is_space c) eqn:Ec.
    + cbn [split_from]. rewrite IH1. reflexivity.
    + rewrite H0. cbn [space_runs_from]. rewrite Ec. reflexivity.
Qed.

(** [text.split(/\s+/).length] is one more than the number of runs of
    white space. *)
Lemma word_count_runs (s : chars) : word_count s = S (space_runs s).
Proof.
  unfold word_count, split. destruct s as [|c t].
  - rewrite match_spaces. reflexivity.
  - apply split_spaces_length.
Qed.

(** ** The two loops *)

Lemma confidence_loop_hits (text : string) (step : Z) (words : list string) :
  forall st,
    confidence_loop (toLowerCase (explode text)) step words st
    = ((fst st + step * Z.of_nat (hits words text))%Z, snd st + hits words text).
Proof.
  unfold confidence_loop, hits.
  induction words as [|w words IH]; intros [sc n]; cbn [fold_left filter fst snd length].
  - f_equal; lia.
  - rewrite IH.
    change (includes (toLowerCase (explode text)) (explode w)) with (mentions text w).
    destruct (mentions text w); cbn [fst snd length]; f_equal; lia.
Qed.

Lemma hits_app (l l' : list string) (text : string) :
  hits (l ++ l') text = hits l text + hits l' text.
Proof. unfold hits. now rewrite filter_app, length_app. Qed.

Lemma confidence_state (text : string) :
  confidence_loop (toLowerCase (explode text)) (-1) negativeWords
    (confidence_loop (toLowerCase (explode text)) 1 positiveWords (0%Z, 0))
  = (getSentiment_score text, hits (positiveWords ++ negativeWords) text).
Proof.
  rewrite !confidence_loop_hits, getSentiment_score_hits, hits_app.
  cbn [fst snd]. f_equal; lia.
Qed.

(** ** The confidence *)

(** The record that [getSentimentWithConfidence] returns, in terms of the
    number of phrases mentioned and of the number of tokens. *)
Lemma getSentimentWithConfidence_eq (text : string) :
  getSentimentWithConfidence text
  = let m := hits (positiveWords ++ negativeWords) text in
    let sc := getSentiment_score text in
    {| SentimentResult.sentiment_ := label_of sc;
       SentimentResult.score := sc;
       SentimentResult.confidence :=
         round2
           match m with
           | O => 0.3%float
           | S _ =>
               JSNumber.min
                 (0.5 + JSNumber.of_nat m / JSNumber.of_nat (token_count text) * 0.3
                  + JSNumber.of_nat (Z.abs_nat sc) / JSNumber.of_nat m * 0.2)%float
                 0.95%float
           end |}.
Proof.
  unfold getSentimentWithConfidence, token_count.
  rewrite confidence_state, word_count_runs. reflexivity.
Qed.

Lemma hits_le (lexicon : list string) (text : string) :
  hits lexicon text <= length lexicon.
Proof. unfold hits. apply filter_length_le. Qed.


(** The exact sum of that text, its rounding, and what the code
    returns. *)
Example exact_sum_of_four_tokens :
  QArith_base.Qeq (exact_confidence 1 4 1) (QArith_base.Qmake 775 1000) /\
  two_decimals (exact_confidence 1 4 1) = 78%Z /\
  hundredth 78 = 0.78%float /\
  binary64_confidence 1 4 1 = 0.7749999999999999%float /\
  SentimentResult.confidence (getSentimentWithConfidence "this is good stuff")
  = hundredth 77.
Proof. repeat split; vm_compute; reflexivity. Qed.


(** A text of four tokens that mentions one phrase: the sum
    [0.5 + 0.25 * 0.3 + 1 * 0.2] is 0.7749999999999999 in binary64, and the
    confidence is 0.77. *)
Example confidence_of_four_tokens :
  SentimentResult.confidence (getSentimentWithConfidence "this is good stuff")
  = 0.77%float.
Proof. vm_compute. reflexivity. Qed.

(** A leading run of white space delimits an empty first piece, which
    counts as a token. *)
Example confidence_with_leading_space :
  token_count " good" = 2 /\
  SentimentResult.confidence (getSentimentWithConfidence " good") = 0.85%float.
Proof. split; vm_compute; reflexivity. Qed.

(** C10. On every text, the empty one and the blank ones included:
    splitting on white space yields at least one token; each division on
    counters has a divisor that is not zero, the one by [matchedWords]
    being evaluated only where [matchedWords] is above zero; and the
    confidence returned is 0.3 or lies between 0.5 and 0.95, both
    included. The function is defined on every text. *)
Theorem confidence_safe (text : string) :
  let r := getSentimentWithConfidence text in
  1 <= word_count (explode text) /\
  Forall (fun d => d <> 0) (divisors text) /\
  (hits (positiveWords ++ negativeWords) text = 0 -> divisors text = []) /\
  (SentimentResult.confidence r = 0.3%float \/
   ((0.5 <=? SentimentResult.confidence r)%float = true /\
    (SentimentResult.confidence r <=? 0.95)%float = true)).
Proof.
  cbv zeta. split; [rewrite word_count_runs; lia|].
  split; [|split].
  - unfold divisors. rewrite confidence_state, word_count_runs. cbn [snd].
    destruct (hits (positiveWords ++ negativeWords) text);
      repeat constructor; discriminate.
  - intros Hm. unfold divisors. rewrite confidence_state. cbn [snd].
    rewrite Hm. reflexivity.
  - rewrite getSentimentWithConfidence_eq. cbv zeta.
    cbn [SentimentResult.confidence].
    pose proof (hits_le (positiveWords ++ negativeWords) text) as Hle.
    change (length (positiveWords ++ negativeWords)) with 21 in Hle.
    destruct (hits (positiveWords ++ negativeWords) text) as [|m].
    + left. vm_compute. reflexivity.
    + right. apply FloatBounds.confidence_range. lia.
Qed.

(** The confidence of the empty text and of a blank one. *)
Example confidence_of_blank :
  word_count (explode "") = 1 /\ word_count (explode "   ") = 2 /\
  SentimentResult.confidence (getSentimentWithConfidence "") = 0.3%float /\
  SentimentResult.confidence (getSentimentWithConfidence "   ") = 0.3%float.
Proof. repeat split; vm_compute; reflexivity. Qed.

(* ================================================================== *)
(** * Every match of a pattern is a text of its language *)
(* ================================================================== *)

Section LanguageFacts.
Variable R : Type.

Lemma matched_here (Q : chars -> Prop) s (k : bool -> chars -> option R) prev res :
  Q [] -> k prev s = Some res -> matched Q s k res.
Proof. intros HQ H. exists [], s, prev. auto. Qed.

Lemma rep_loop_lang (hi : option nat) (a : re) (k : bool -> chars -> option R) :
  (forall prev s (k' : bool -> chars -> option R) res,
      rmatch a prev s k' = Some res -> matched (lang a) s k' res) ->
  forall n lo prev s res,
    rep_loop (rmatch a) k n lo prev s = Some res ->
    matched (lang (Rep lo hi a)) s k res.
Proof.
  intros Ha n. induction n as [|n IH]; intros lo prev s res H; simpl in H.
  - destruct lo; [|discriminate].
    eapply matched_here; [constructor | eauto].
  - match type of H with
    | match ?m with _ => _ end = _ => destruct m as [x|] eqn:E
    end.
    + injection H as ->. apply Ha in E.
      destruct E as (pre & s' & prev' & -> & Hpre & Hk).
      assert (Hrest : matched (lang (Rep (pred lo) hi a)) s' k res).
      { destruct lo as [|lo'].
        - destruct (length s' <? length (pre ++ s')); [eauto | discriminate].
        - eauto. }
      destruct Hrest as (pre2 & s2 & prev2 & -> & Hpre2 & Hk2).
      exists (pre ++ pre2), s2, prev2. rewrite <- app_assoc.
      split; [reflexivity|]. split; [|exact Hk2].
      now apply lang_rep_cons.
    + destruct lo; [|discriminate].
      eapply matched_here; [constructor | eauto].
Qed.

Lemma rmatch_lang (r : re) :
  forall prev s (k : bool -> chars -> option R) res,
    rmatch r prev s k = Some res -> matched (lang r) s k res.
Proof.
  induction r as [|p|a IHa b IHb|a IHa b IHb|lo hi a IHa|];
    intros prev s k res H; simpl in H.
  - eapply matched_here; [constructor | eauto].
  - destruct s as [|c t]; [discriminate|].
    destruct (p c) eqn:Hp; [|discriminate].
    exists [c], t, (is_word c). repeat split; auto. now constructor.
  - apply IHa in H. destruct H as (x & s1 & prev1 & -> & Hx & H).
    apply IHb in H. destruct H as (y & s2 & prev2 & -> & Hy & H).
    exists (x ++ y), s2, prev2. rewrite <- app_assoc.
    repeat split; auto. now constructor.
  - destruct (rmatch a prev s k) as [x|] eqn:E.
    + injection H as ->. apply IHa in E.
      destruct E as (x & s1 & prev1 & -> & Hx & H).
      exists x, s1, prev1. repeat split; auto. now apply lang_alt_l.
    + apply IHb in H. destruct H as (x & s1 & prev1 & -> & Hx & H).
      exists x, s1, prev1. repeat split; auto. now apply lang_alt_r.
  - eapply rep_loop_lang; [|exact H]. intros. eapply IHa; eauto.
  - destruct (xorb prev (next_is_word s)); [|discriminate].
    eapply matched_here; [constructor | eauto].
Qed.
End LanguageFacts.

Lemma match_at_lang (r : re) (prev : bool) (s rest : chars) :
  match_at r prev s = Some rest -> exists pre, s = pre ++ rest /\ lang r pre.
Proof.
  intros H. apply rmatch_lang in H.
  destruct H as (pre & s' & prev' & -> & Hpre & Hk).
  injection Hk as ->. eauto.
Qed.

Lemma matches_from_lang (r : re) (s : chars) :
  forall prev,
    matches_from r prev s = true ->
    exists before pre rest, s = before ++ pre ++ rest /\ lang r pre.
Proof.
  induction s as [|c t IH]; intros prev H; simpl in H.
  - destruct (match_at r prev []) as [rest|] eqn:E; [|discriminate].
    apply match_at_lang in E. destruct E as (pre & E & Hpre).
    exists [], pre, rest. auto.
  - destruct (match_at r prev (c :: t)) as [rest|] eqn:E.
    + apply match_at_lang in E. destruct E as (pre & E & Hpre).
      exists [], pre, rest. auto.
    + apply IH in H. destruct H as (before & pre & rest & -> & Hpre).
      exists (c :: before), pre, rest. auto.
Qed.

(* ================================================================== *)
(** * Characters that every match of a pattern contains *)
(* ================================================================== *)

Lemma In_all_ascii (c : ascii) : In c all_ascii.
Proof.
  unfold all_ascii. rewrite <- (ascii_nat_embedding c).
  apply in_map, in_seq. pose proof (nat_ascii_bounded c). lia.
Qed.

Lemma subclass_spec (q p : ascii -> bool) (c : ascii) :
  subclass q p = true -> q c = true -> p c = true.
Proof.
  unfold subclass. rewrite forallb_forall. intros H Hq.
  specialize (H c (In_all_ascii c)). now rewrite Hq in H.
Qed.

Lemma count_app (p : ascii -> bool) (a b : chars) :
  count p (a ++ b) = count p a + count p b.
Proof. unfold count. now rewrite filter_app, length_app. Qed.

Lemma lang_least (p : ascii -> bool) (r : re) (w : chars) :
  lang r w -> least p r <= count p w.
Proof.
  induction 1; simpl; try lia.
  - destruct (subclass p0 p) eqn:E; [|lia].
    unfold count. simpl. now rewrite (subclass_spec _ _ c E H).
  - rewrite count_app. lia.
  - rewrite count_app. simpl in IHlang2. destruct lo; simpl in *; lia.
Qed.

Lemma lang_accepts (r : re) (w : chars) :
  lang r w -> Forall (fun c => accepts r c = true) w.
Proof.
  induction 1; simpl; auto.
  - apply Forall_app. split; eapply Forall_impl; eauto; simpl; intros c0 ->;
      auto using orb_true_r.
  - eapply Forall_impl; eauto. simpl. intros c0 ->. reflexivity.
  - eapply Forall_impl; eauto. simpl. intros c0 ->. apply orb_true_r.
  - apply Forall_app. split; auto.
Qed.

(** A pattern that needs more characters of a class than the text has
    matches nowhere in it. *)
Lemma no_match_by_count (p : ascii -> bool) (r : re) (s : chars) :
  count p s < least p r -> matches_in r s = false.
Proof.
  intros Hlt. destruct (matches_in r s) eqn:E; [|reflexivity].
  apply matches_from_lang in E. destruct E as (before & pre & rest & -> & Hpre).
  apply (lang_least p) in Hpre. rewrite !count_app in Hlt. lia.
Qed.

Lemma explode_app (a b : string) : explode (a ++ b) = explode a ++ explode b.
Proof. induction a as [|c a IH]; simpl; [reflexivity | now rewrite IH]. Qed.

Lemma count_le_length (p : ascii -> bool) (s : chars) : count p s <= length s.
Proof. apply filter_length_le. Qed.

Lemma count_subclass (q p : ascii -> bool) (s : chars) :
  subclass q p = true -> forallb q s = true -> count (fun c => negb (p c)) s = 0.
Proof.
  intros Hqp. unfold count. induction s as [|c s IH]; simpl; [reflexivity|].
  intros H. apply andb_true_iff in H. destruct H as [Hc Hs].
  rewrite (subclass_spec _ _ c Hqp Hc). simpl. auto.
Qed.

(** A text of word characters with fewer than ten digits: the rules that
    need no other character need ten digits or more. *)
Lemma identifier_unmatched (s : chars) :
  count non_word s = 0 -> count is_digit s < 10 -> unmatched s = true.
Proof.
  intros Hw Hd. unfold unmatched, rules. cbn [forallb fst].
  repeat match goal with
         | |- _ && _ = true => apply andb_true_iff; split
         | |- negb _ = true => apply negb_true_iff
         end;
    try reflexivity;
    first [ apply (no_match_by_count non_word); rewrite Hw; vm_compute; lia
          | apply (no_match_by_count is_digit);
            eapply Nat.lt_le_trans; [exact Hd | vm_compute; lia] ].
Qed.

(* ================================================================== *)
(** * The redactor leaves the hashed user token alone *)
(* ================================================================== *)

(** X3. The token that [hashUserId] makes of any user identifier is a
    fixed point of [anonymizeText]: no rule of the redactor matches in
    ["user_"] followed by eight hexadecimal digits, so the [user] of an
    anonymized message survives a further redaction unchanged. *)
Theorem anonymizeText_keeps_hashed_user (userId : string) :
  anonymizeText (hashUserId userId) = hashUserId userId /\
  forall message : Message.t,
    anonymizeText (Anonymized.user (anonymizeMessage message))
    = Anonymized.user (anonymizeMessage message).
Proof.
  assert (H : forall u, anonymizeText (hashUserId u) = hashUserId u).
  { intros u. apply anonymizeText_fixed_iff.
    destruct (hashUserId_shape u) as (h & -> & Hlen & Hhex).
    rewrite explode_app. apply identifier_unmatched.
    - rewrite count_app.
      pose proof (count_subclass is_hex is_word _ eq_refl Hhex) as E.
      change (fun c => negb (is_word c)) with non_word in E. rewrite E.
      reflexivity.
    - rewrite count_app.
      pose proof (count_le_length is_digit (explode h)) as Hle.
      rewrite length_explode, Hlen in Hle.
      change (count is_digit (explode "user_")) with 0. lia. }
  split; [apply H | intros message; apply H].
Qed.

(* ================================================================== *)
(** * Texts that the redactor leaves alone *)
(* ================================================================== *)

Lemma lang_seq_inv (a b : re) (x : chars) :
  lang (Seq a b) x -> exists y z, x = y ++ z /\ lang a y /\ lang b z.
Proof. inversion 1; subst. eauto. Qed.

Lemma lang_chr_inv (c : ascii) (x : chars) : lang (chr c) x -> x = [c].
Proof.
  unfold chr. inversion 1; subst.
  match goal with H : Ascii.eqb _ _ = true |- _ => apply Ascii.eqb_eq in H; now subst end.
Qed.

Lemma lang_lit (w : string) (x : chars) : lang (lit w) x -> x = explode w.
Proof.
  revert x. induction w as [|c w IH]; intros x H.
  - inversion H. reflexivity.
  - destruct w as [|c' w'].
    + now apply lang_chr_inv in H.
    + change (lit (String c (String c' w')))
        with (Seq (chr c) (lit (String c' w'))) in H.
      apply lang_seq_inv in H. destruct H as (y & z & -> & Hy & Hz).
      apply lang_chr_inv in Hy. apply IH in Hz. subst. reflexivity.
Qed.

Lemma includes_inside (before x rest p : chars) :
  includes x p = true -> includes (before ++ x ++ rest) p = true.
Proof.
  rewrite !includes_iff. intros (pre & post & ->).
  exists (before ++ pre), (post ++ rest). now rewrite <- !app_assoc.
Qed.

Lemma includes_here (pre p post : chars) : includes (pre ++ p ++ post) p = true.
Proof. apply includes_iff. eauto. Qed.

(** A pattern whose matches all contain [p] matches nowhere in a text
    that does not contain [p]. *)
Lemma no_match_by_literal (p : chars) (r : re) (s : chars) :
  (forall x, lang r x -> includes x p = true) ->
  includes s p = false -> matches_in r s = false.
Proof.
  intros Hr Hs. destruct (matches_in r s) eqn:E; [|reflexivity].
  apply matches_from_lang in E. destruct E as (before & pre & rest & -> & Hpre).
  apply Hr in Hpre. apply (@includes_inside before pre rest p) in Hpre. congruence.
Qed.

Ltac split_seq H :=
  let y := fresh "y" in
  let z := fresh "z" in
  let Hy := fresh "Hy" in
  apply lang_seq_inv in H; destruct H as (y & z & -> & Hy & H).

Lemma url_has_http (x : chars) : lang re_url x -> includes x (explode "http") = true.
Proof.
  intros H. cbv [re_url cat] in H. split_seq H.
  apply lang_lit in Hy. subst. apply (@includes_here [] _ _).
Qed.

Lemma ssh_has_prefix (x : chars) :
  lang re_ssh x -> includes x (explode "ssh-rsa") = true.
Proof.
  intros H. cbv [re_ssh cat] in H. split_seq H.
  apply lang_lit in Hy. subst. apply (@includes_here [] _ _).
Qed.

Lemma server_has_domain (x : chars) :
  lang re_server x -> includes x (explode ".company.com") = true.
Proof.
  intros H. cbv [re_server cat] in H. do 5 split_seq H.
  match goal with
  | Hl : lang (lit ".company.com") _ |- _ => apply lang_lit in Hl; subst
  end.
  rewrite !app_assoc. rewrite <- (app_assoc _ (explode ".company.com")).
  apply includes_here.
Qed.

(** X4. A text without a digit and without an at sign, in which neither
    ["http"] nor ["ssh-rsa"] nor [".company.com"] occurs, is returned by
    [anonymizeText] as it is: ten of the rules need a digit, the e-mail
    rule an at sign, and the other three one of these literals. *)
Theorem anonymizeText_keeps_prose (text : string) :
  count is_digit (explode text) = 0 ->
  count (Ascii.eqb "@") (explode text) = 0 ->
  includes (explode text) (explode "http") = false ->
  includes (explode text) (explode "ssh-rsa") = false ->
  includes (explode text) (explode ".company.com") = false ->
  anonymizeText text = text.
Proof.
  intros Hd Ha Hu Hs Hc. apply anonymizeText_fixed_iff.
  unfold unmatched, rules. cbn [forallb fst].
  repeat match goal with
         | |- _ && _ = true => apply andb_true_iff; split
         | |- negb _ = true => apply negb_true_iff
         end;
    try reflexivity;
    first [ apply (no_match_by_count is_digit); rewrite Hd; vm_compute; lia
          | apply (no_match_by_count (Ascii.eqb "@")); rewrite Ha; vm_compute; lia
          | apply (@no_match_by_literal _ _ _ url_has_http Hu)
          | apply (@no_match_by_literal _ _ _ ssh_has_prefix Hs)
          | apply (@no_match_by_literal _ _ _ server_has_domain Hc) ].
Qed.

Lemma anonymizeText_keeps_prose_witness :
  anonymizeText "Thanks - see you at noon. Bring the (signed) papers!"
  = "Thanks - see you at noon. Bring the (signed) papers!"%string.
Proof.
  apply anonymizeText_keeps_prose; reflexivity.
Defined.

(* ================================================================== *)
(** * Reading a dictionary after a write *)
(* ================================================================== *)

Section LookupFacts.
Variable V : Type.

Lemma get_own_set_same (k : string) (v : V) (o : JSObject.t V) :
  JSObject.get_own k (JSObject.set k v o) = Some v.
Proof.
  induction o as [|[k' v'] o IH]; simpl.
  - now rewrite String.eqb_refl.
  - destruct (String.eqb k k') eqn:E; simpl; rewrite E; auto.
Qed.

Lemma get_own_set_other (k k' : string) (v : V) (o : JSObject.t V) :
  k <> k' -> JSObject.get_own k (JSObject.set k' v o) = JSObject.get_own k o.
Proof.
  intros Hne. induction o as [|[k0 v0] o IH]; simpl.
  - apply String.eqb_neq in Hne. now rewrite Hne.
  - destruct (String.eqb k' k0) eqn:E; simpl.
    + apply String.eqb_eq in E. subst k0.
      apply String.eqb_neq in Hne. now rewrite Hne.
    + now rewrite IH.
Qed.

Lemma get_own_set (k k' : string) (v : V) (o : JSObject.t V) :
  JSObject.get_own k (JSObject.set k' v o)
  = if String.eqb k k' then Some v else JSObject.get_own k o.
Proof.
  destruct (String.eqb k k') eqn:E.
  - apply String.eqb_eq in E. subst. apply get_own_set_same.
  - apply String.eqb_neq in E. now apply get_own_set_other.
Qed.

Lemma get_own_In (k : string) (v : V) (o : JSObject.t V) :
  JSObject.get_own k o = Some v -> In (k, v) o.
Proof.
  induction o as [|[k' v'] o IH]; simpl; [discriminate|].
  destruct (String.eqb k k') eqn:E.
  - apply String.eqb_eq in E. intros [= ->]. subst. auto.
  - auto.
Qed.

Lemma In_get_own (k : string) (v : V) (o : JSObject.t V) :
  NoDup (map fst o) -> In (k, v) o -> JSObject.get_own k o = Some v.
Proof.
  induction o as [|[k' v'] o IH]; simpl; [tauto|].
  intros Hnd [E|Hin].
  - injection E as -> ->. now rewrite String.eqb_refl.
  - inversion Hnd as [|? ? Hnot Hnd']; subst.
    destruct (String.eqb k k') eqn:E.
    + apply String.eqb_eq in E. subst k'.
      exfalso. apply Hnot. apply (in_map fst) in Hin. exact Hin.
    + auto.
Qed.

Lemma keys_set (k : string) (v : V) (o : JSObject.t V) :
  map fst (JSObject.set k v o)
  = match JSObject.get_own k o with
    | Some _ => map fst o
    | None => map fst o ++ [k]
    end.
Proof.
  destruct (JSObject.get_own k o) eqn:E.
  - eapply keys_set_old; eauto.
  - now apply keys_set_new.
Qed.

Lemma Forall_set (P : string * V -> Prop) (k : string) (v : V) (o : JSObject.t V) :
  (forall k', P (k', v)) -> Forall P o -> Forall P (JSObject.set k v o).
Proof.
  intros Hv. induction o as [|[k' v'] o IH]; simpl; intros H.
  - constructor; auto.
  - inversion H; subst. destruct (String.eqb k k'); constructor; auto.
Qed.

End LookupFacts.

Lemma existsb_eqb_In (x : string) (l : list string) :
  existsb (String.eqb x) l = true <-> In x l.
Proof.
  rewrite existsb_exists. split.
  - intros (y & Hy & E). apply String.eqb_eq in E. now subst.
  - intros H. exists x. split; [exact H | apply String.eqb_refl].
Qed.

Lemma existsb_eqb_app (x : string) (l l' : list string) :
  existsb (String.eqb x) (l ++ l')
  = existsb (String.eqb x) l || existsb (String.eqb x) l'.
Proof. apply existsb_app. Qed.

(* ================================================================== *)
(** * The user mapping *)
(* ================================================================== *)

Lemma hashUserId_not_empty (u : string) : String.eqb (hashUserId u) "" = false.
Proof. reflexivity. Qed.

(** What the mapping holds for [u] once the users [seen] are read. *)
Lemma mapping_lookup (messages : list Message.t) :
  forall (o : JSObject.t string) (seen : list string),
    (forall u,
        JSObject.get_own u o
        = if JSObject.inherited u then None
          else if existsb (String.eqb u) seen then Some (hashUserId u)
               else None) ->
    forall u,
      JSObject.get_own u (fold_left mapping_step messages o)
      = if JSObject.inherited u then None
        else if existsb (String.eqb u) (seen ++ map Message.user messages)
             then Some (hashUserId u)
             else None.
Proof.
  induction messages as [|m ms IH]; intros o seen Ho u; simpl.
  - now rewrite app_nil_r.
  - change (seen ++ Message.user m :: map Message.user ms)
      with (seen ++ [Message.user m] ++ map Message.user ms).
    rewrite app_assoc. apply IH. clear u IH. intros u.
    rewrite existsb_eqb_app. simpl. rewrite orb_false_r.
    unfold mapping_step. pose proof (Ho (Message.user m)) as Hm.
    destruct (JSObject.get_own (Message.user m) o) as [tok|] eqn:E.
    + destruct (JSObject.inherited (Message.user m)); [discriminate|].
      destruct (existsb (String.eqb (Message.user m)) seen) eqn:Hs; [|discriminate].
      injection Hm as ->. rewrite hashUserId_not_empty. rewrite Ho.
      destruct (String.eqb u (Message.user m)) eqn:Eu.
      * apply String.eqb_eq in Eu. subst u. now rewrite Hs.
      * now rewrite orb_false_r.
    + destruct (JSObject.inherited (Message.user m)) eqn:Hi.
      * rewrite Ho. destruct (String.eqb u (Message.user m)) eqn:Eu.
        -- apply String.eqb_eq in Eu. subst u. now rewrite Hi.
        -- now rewrite orb_false_r.
      * rewrite get_own_set. destruct (String.eqb u (Message.user m)) eqn:Eu.
        -- apply String.eqb_eq in Eu. subst u. rewrite Hi.
           now rewrite orb_true_r.
        -- rewrite Ho. now rewrite orb_false_r.
Qed.

(** X1. [createUserMapping] maps a user identifier to its hashed token
    exactly when some message has that user and the identifier is not the
    name of a member of [Object.prototype] (["constructor"], ["toString"],
    ["__proto__"], ...): such a user gets no entry, and a user of no
    message gets none. The token is the one that [anonymizeMessage] puts
    in the [user] field of that user's messages. *)
Theorem createUserMapping_lookup (messages : list Message.t) (u : string) :
  JSObject.get_own u (createUserMapping messages)
  = if JSObject.inherited u then None
    else if existsb (String.eqb u) (map Message.user messages)
         then Some (hashUserId u)
         else None.
Proof.
  unfold createUserMapping.
  apply (@mapping_lookup messages JSObject.empty []).
  intros u'. simpl. now destruct (JSObject.inherited u').
Qed.

Lemma lookup_spec_keys (o : JSObject.t string) (seen : list string) :
  (forall u,
      JSObject.get_own u o
      = if JSObject.inherited u then None
        else if existsb (String.eqb u) seen then Some (hashUserId u)
             else None) ->
  forall k, In k (map fst o) <-> In k seen /\ JSObject.inherited k = false.
Proof.
  intros Ho k. specialize (Ho k). split.
  - intros Hin. destruct (JSObject.get_own k o) eqn:E.
    + destruct (JSObject.inherited k); [discriminate|].
      destruct (existsb (String.eqb k) seen) eqn:Hs; [|discriminate].
      apply existsb_eqb_In in Hs. auto.
    + apply get_own_none_iff in E. contradiction.
  - intros [Hin Hi]. rewrite Hi in Ho. apply existsb_eqb_In in Hin.
    rewrite Hin in Ho.
    destruct (in_dec string_dec k (map fst o)) as [H|H]; [exact H|].
    apply get_own_none_iff in H. congruence.
Qed.

Lemma mapping_order (users : list string) (messages : list Message.t) :
  forall (o : JSObject.t string) (seen : list string),
    users = seen ++ map Message.user messages ->
    (forall u,
        JSObject.get_own u o
        = if JSObject.inherited u then None
          else if existsb (String.eqb u) seen then Some (hashUserId u)
               else None) ->
    StronglySorted (encounter_order users) (map fst o) ->
    StronglySorted (encounter_order users)
                   (map fst (fold_left mapping_step messages o)).
Proof.
  induction messages as [|m ms IH]; intros o seen Hu Ho Hs; simpl; [exact Hs|].
  assert (Hu' : users = (seen ++ [Message.user m]) ++ map Message.user ms)
    by (rewrite <- app_assoc; exact Hu).
  apply (IH _ (seen ++ [Message.user m]) Hu').
  - intros u.
    pose proof (@mapping_lookup [m] o seen Ho u) as H. simpl in H. exact H.
  - unfold mapping_step. pose proof (Ho (Message.user m)) as Hm.
    destruct (JSObject.get_own (Message.user m) o) as [tok|] eqn:E.
    + destruct (JSObject.inherited (Message.user m)); [discriminate|].
      destruct (existsb (String.eqb (Message.user m)) seen); [|discriminate].
      injection Hm as ->. now rewrite hashUserId_not_empty.
    + destruct (JSObject.inherited (Message.user m)) eqn:Hi; [exact Hs|].
      rewrite (keys_set_new _ _ _ E).
      apply StronglySorted_app; [exact Hs | repeat constructor|].
      intros a b Hin [<-|[]].
      destruct (existsb (String.eqb (Message.user m)) seen) eqn:Hseen;
        [discriminate|].
      assert (Hw : ~ In (Message.user m) seen).
      { intros Hin'. apply existsb_eqb_In in Hin'. congruence. }
      unfold encounter_order. rewrite Hu. simpl map.
      rewrite (@first_index_notin (Message.user m) seen _ Hw).
      apply first_index_in_lt.
      exact (proj1 (proj1 (@lookup_spec_keys o seen Ho a) Hin)).
Qed.

Lemma StronglySorted_NoDup (A : Type) (R : A -> A -> Prop) (l : list A) :
  (forall a, ~ R a a) -> StronglySorted R l -> NoDup l.
Proof.
  intros Hirr. induction 1 as [|a l Hs IH Hall]; constructor; auto.
  intros Hin. rewrite Forall_forall in Hall. exact (Hirr a (Hall a Hin)).
Qed.

(** X2. The mapping has one entry per user of the messages whose
    identifier is not the name of a member of [Object.prototype]: the keys
    are pairwise different, they were created in the order in which the
    users first occur in the messages, and [Object.keys] lists them in
    that order after the keys that are array indices. *)
Theorem createUserMapping_keys (messages : list Message.t) :
  let users := map Message.user messages in
  let own := map fst (createUserMapping messages) in
  NoDup own /\
  (forall u, In u own <-> In u users /\ JSObject.inherited u = false) /\
  StronglySorted (encounter_order users) own /\
  StronglySorted (own_order users) (JSObject.keys (createUserMapping messages)).
Proof.
  intros users own.
  assert (H0 : forall u,
             JSObject.get_own u (JSObject.empty : JSObject.t string)
             = if JSObject.inherited u then None
               else if existsb (String.eqb u) [] then Some (hashUserId u)
                    else None)
    by (intros u; simpl; now destruct (JSObject.inherited u)).
  assert (Hs : StronglySorted (encounter_order users) own).
  { apply (@mapping_order users messages JSObject.empty [] eq_refl H0).
    constructor. }
  split; [|split; [|split]].
  - apply (StronglySorted_NoDup (R := encounter_order users)); [|exact Hs].
    intros a. unfold encounter_order. lia.
  - intros u.
    apply (@lookup_spec_keys (createUserMapping messages) users
             (@mapping_lookup messages JSObject.empty [] H0)).
  - exact Hs.
  - unfold JSObject.keys. apply StronglySorted_map.
    apply entries_own_order. exact Hs.
Qed.

(* ================================================================== *)
(** * The two scorers *)
(* ================================================================== *)

(** X5. The scorer with confidence and the basic scorer agree on every
    text: the same score, hence the same label. *)
Theorem scorers_agree (text : string) :
  SentimentResult.score (getSentimentWithConfidence text)
  = getSentiment_score text /\
  SentimentResult.sentiment_ (getSentimentWithConfidence text)
  = getSentiment text.
Proof.
  unfold getSentimentWithConfidence, getSentiment.
  cbv zeta. cbn [SentimentResult.score SentimentResult.sentiment_].
  rewrite confidence_state. auto.
Qed.

Lemma label_agrees (text : string) :
  SentimentResult.sentiment_ (getSentimentWithConfidence text) = getSentiment text.
Proof.
  unfold getSentimentWithConfidence, getSentiment.
  cbv zeta. cbn [SentimentResult.sentiment_].
  now rewrite confidence_state.
Qed.

(** X6. The score lies between minus the size of the negative lexicon
    and the size of the positive one, its absolute value is at most the
    number of phrases found, and both ends are reached. *)
Theorem score_bounds :
  (forall text : string,
      (-10 <= getSentiment_score text <= 11)%Z /\
      (Z.abs (getSentiment_score text)
       <= Z.of_nat (hits (positiveWords ++ negativeWords) text))%Z /\
      hits (positiveWords ++ negativeWords) text <= 21) /\
  getSentiment_score
    "great smoothly hard work love amazing excellent fantastic ready good thanks wonderful"
  = 11%Z /\
  getSentiment_score
    "disappointing 401 error problem critical bug urgent issues help"
  = (-10)%Z.
Proof.
  split; [|split; reflexivity].
  intros text. rewrite getSentiment_score_hits, hits_app.
  pose proof (hits_le positiveWords text) as Hp.
  pose proof (hits_le negativeWords text) as Hn.
  change (length positiveWords) with 11 in Hp.
  change (length negativeWords) with 10 in Hn.
  lia.
Qed.

Lemma mentions_longer (text : string) (phrase : string) (pre post : chars) :
  mentions text (implode (pre ++ explode phrase ++ post)) = true ->
  mentions text phrase = true.
Proof.
  unfold mentions. rewrite explode_implode. rewrite !includes_iff.
  intros (a & b & ->). exists (a ++ pre), (post ++ b).
  now rewrite <- !app_assoc.
Qed.

Lemma hits_two (lexicon : list string) (text a b : string) :
  forall l1 l2 l3,
    lexicon = l1 ++ a :: l2 ++ b :: l3 ->
    mentions text a = true -> mentions text b = true ->
    2 <= hits lexicon text.
Proof.
  intros l1 l2 l3 -> Ha Hb. unfold hits.
  rewrite filter_app, length_app. simpl. rewrite Ha. simpl.
  rewrite filter_app, length_app. simpl. rewrite Hb. simpl. lia.
Qed.

(** X7. The phrases are looked up as substrings, so a phrase that
    contains another one counts twice: a text with ["issues"] also has
    ["issue"], one with ["401 error"] also has ["error"], and either
    takes two points off the score. *)
Theorem nested_phrases_count_twice (text : string) :
  mentions text "issues" = true \/ mentions text "401 error" = true ->
  2 <= hits negativeWords text /\
  (getSentiment_score text <= Z.of_nat (hits positiveWords text) - 2)%Z.
Proof.
  intros H.
  assert (H2 : 2 <= hits negativeWords text).
  { destruct H as [H|H].
    - apply (@hits_two negativeWords text "issue" "issues" [] 
               ["disappointing"; "401 error"; "problem"; "critical"; "bug";
                "urgent"; "error"]%string ["help"]%string eq_refl); [|exact H].
      apply (@mentions_longer text "issue" [] (explode "s")). exact H.
    - apply (@hits_two negativeWords text "401 error" "error"
               ["issue"; "disappointing"]%string
               ["problem"; "critical"; "bug"; "urgent"]%string
               ["issues"; "help"]%string eq_refl); [exact H|].
      apply (@mentions_longer text "error" (explode "401 ") []). exact H. }
  split; [exact H2|]. rewrite getSentiment_score_hits. lia.
Qed.

Lemma nested_phrases_count_twice_witness :
  2 <= hits negativeWords "Thanks for the known issues list" /\
  (getSentiment_score "Thanks for the known issues list"
   <= Z.of_nat (hits positiveWords "Thanks for the known issues list") - 2)%Z.
Proof.
  apply nested_phrases_count_twice. left. reflexivity.
Defined.

Lemma lower_keeps_space (c : ascii) : is_space (lower c) = is_space c.
Proof.
  assert (H : forallb (fun c => Bool.eqb (is_space (lower c)) (is_space c))
                      all_ascii = true) by (vm_compute; reflexivity).
  rewrite forallb_forall in H. specialize (H c (In_all_ascii c)).
  now apply Bool.eqb_prop in H.
Qed.

Lemma space_runs_lower (s : chars) :
  forall in_run,
    space_runs_from in_run (toLowerCase s) = space_runs_from in_run s.
Proof.
  induction s as [|c s IH]; intros in_run; simpl; [reflexivity|].
  rewrite lower_keeps_space. now rewrite !IH.
Qed.

Lemma mentions_same_lower (a b : string) (phrase : string) :
  toLowerCase (explode a) = toLowerCase (explode b) ->
  mentions a phrase = mentions b phrase.
Proof. unfold mentions. now intros ->. Qed.

Lemma hits_same_lower (a b : string) (lexicon : list string) :
  toLowerCase (explode a) = toLowerCase (explode b) ->
  hits lexicon a = hits lexicon b.
Proof.
  intros H. unfold hits. f_equal. apply filter_ext.
  intros phrase. now apply mentions_same_lower.
Qed.

(** X8. Letter case does not matter to the scorers: two texts with the
    same lower-case form get the same label from [getSentiment] and the
    same label, score and confidence from [getSentimentWithConfidence]. *)
Theorem scorers_ignore_case (a b : string) :
  toLowerCase (explode a) = toLowerCase (explode b) ->
  getSentiment a = getSentiment b /\
  getSentimentWithConfidence a = getSentimentWithConfidence b.
Proof.
  intros H.
  assert (Hs : getSentiment_score a = getSentiment_score b).
  { rewrite !getSentiment_score_hits.
    now rewrite (@hits_same_lower a b positiveWords H), (@hits_same_lower a b negativeWords H). }
  assert (Ht : token_count a = token_count b).
  { unfold token_count, space_runs. f_equal.
    rewrite <- (space_runs_lower (explode a)), <- (space_runs_lower (explode b)).
    now rewrite H. }
  split.
  - unfold getSentiment. now rewrite Hs.
  - rewrite !getSentimentWithConfidence_eq. cbv zeta.
    now rewrite Hs, Ht, (@hits_same_lower a b (positiveWords ++ negativeWords) H).
Qed.

Lemma scorers_ignore_case_witness :
  getSentiment "GREAT work, no Bug" = getSentiment "great WORK, no bug" /\
  getSentimentWithConfidence "GREAT work, no Bug"
  = getSentimentWithConfidence "great WORK, no bug".
Proof.
  apply scorers_ignore_case. reflexivity.
Defined.

(* ================================================================== *)
(** * What the loop of [analyzeMessages] accumulates *)
(* ================================================================== *)

Lemma reaction_sum_snoc (l : list Message.t) (m : Message.t) :
  reaction_sum (l ++ [m])
  = (reaction_sum l + reaction_total (Message.reactions m))%float.
Proof. unfold reaction_sum. now rewrite fold_left_app. Qed.

Lemma text_length_snoc (l : list Message.t) (m : Message.t) :
  text_length (l ++ [m]) = text_length l + String.length (Message.text m).
Proof.
  unfold text_length. rewrite map_app, list_sum_app. simpl. lia.
Qed.

Lemma by_user_snoc (u : string) (l : list Message.t) (m : Message.t) :
  by_user u (l ++ [m])
  = by_user u l ++ (if String.eqb (Message.user m) u then [m] else []).
Proof. unfold by_user. now rewrite filter_app. Qed.

Lemma by_channel_snoc (c : string) (l : list Message.t) (m : Message.t) :
  by_channel c (l ++ [m])
  = by_channel c l ++ (if String.eqb (Message.channel m) c then [m] else []).
Proof. unfold by_channel. now rewrite filter_app. Qed.

Lemma by_hour_snoc (getHours : string -> option nat) (k : string)
      (l : list Message.t) (m : Message.t) :
  by_hour getHours k (l ++ [m])
  = by_hour getHours k l
    ++ (if String.eqb (hourKey getHours (Message.ts m)) k then [m] else []).
Proof. unfold by_hour. now rewrite filter_app. Qed.

Lemma user_entry_snoc_other (u : string) (l : list Message.t) (m : Message.t) :
  u <> Message.user m -> user_entry u (l ++ [m]) = user_entry u l.
Proof.
  intros Hne. unfold user_entry. rewrite by_user_snoc.
  destruct (String.eqb_spec (Message.user m) u) as [E|E]; [congruence|].
  now rewrite app_nil_r.
Qed.

Lemma user_step_entry (l : list Message.t) (m : Message.t)
      (o : JSObject.t UserStat.t) :
  (forall u, JSObject.get_own u o = user_entry u l) ->
  forall u, JSObject.get_own u (user_step m o) = user_entry u (l ++ [m]).
Proof.
  intros Ho u. unfold user_step. pose proof (Ho (Message.user m)) as Hm.
  destruct (JSObject.get_own (Message.user m) o) as [st|] eqn:E.
  - rewrite get_own_set. destruct (String.eqb_spec u (Message.user m)) as [->|Hne].
    + unfold user_entry in Hm |- *. rewrite by_user_snoc, String.eqb_refl.
      destruct (JSObject.inherited (Message.user m)); [discriminate|].
      destruct (by_user (Message.user m) l) as [|x mine] eqn:Hmine; [discriminate|].
      injection Hm as ->. cbn [UserStat.messageCount UserStat.totalReactions
                                 UserStat.averageLength UserStat.totalLength].
      cbn [app]. change (x :: mine ++ [m]) with ((x :: mine) ++ [m]).
      rewrite reaction_sum_snoc, text_length_snoc, length_app.
      cbn [length]. f_equal. f_equal. lia.
    + rewrite Ho. symmetry. now apply user_entry_snoc_other.
  - destruct (JSObject.inherited (Message.user m)) eqn:Hi.
    + rewrite Ho. destruct (String.eqb_spec u (Message.user m)) as [->|Hne].
      * unfold user_entry. now rewrite Hi.
      * symmetry. now apply user_entry_snoc_other.
    + rewrite get_own_set. destruct (String.eqb_spec u (Message.user m)) as [->|Hne].
      * unfold user_entry in Hm |- *. rewrite by_user_snoc, String.eqb_refl, Hi in *.
        destruct (by_user (Message.user m) l) as [|x mine] eqn:Hmine; [|discriminate].
        cbn [app length]. f_equal.
        change (reaction_sum [m])
          with (0 + reaction_total (Message.reactions m))%float.
        change (text_length [m]) with (String.length (Message.text m) + 0).
        f_equal; lia.
      * rewrite Ho. symmetry. now apply user_entry_snoc_other.
Qed.

Lemma channel_entry_snoc_other (c : string) (l : list Message.t) (m : Message.t) :
  c <> Message.channel m -> channel_entry c (l ++ [m]) = channel_entry c l.
Proof.
  intros Hne. unfold channel_entry. rewrite by_channel_snoc.
  destruct (String.eqb_spec (Message.channel m) c) as [E|E]; [congruence|].
  now rewrite app_nil_r.
Qed.

Lemma channel_step_entry (l : list Message.t) (m : Message.t)
      (o o' : JSObject.t ChannelAcc.t) :
  (forall c, JSObject.get_own c o = channel_entry c l) ->
  channel_step m o = Some o' ->
  forall c, JSObject.get_own c o' = channel_entry c (l ++ [m]).
Proof.
  intros Ho Hstep c. unfold channel_step in Hstep.
  pose proof (Ho (Message.channel m)) as Hm.
  destruct (JSObject.get_own (Message.channel m) o) as [st|] eqn:E.
  - injection Hstep as <-. rewrite get_own_set.
    destruct (String.eqb_spec c (Message.channel m)) as [->|Hne].
    + unfold channel_entry in Hm |- *. rewrite by_channel_snoc, String.eqb_refl.
      destruct (by_channel (Message.channel m) l) as [|x mine] eqn:Hmine;
        [discriminate|].
      injection Hm as ->.
      cbn [ChannelAcc.messageCount ChannelAcc.totalReactions ChannelAcc.uniqueUsers].
      cbn [app]. change (x :: mine ++ [m]) with ((x :: mine) ++ [m]).
      rewrite reaction_sum_snoc, length_app, fold_left_app.
      cbn [length]. f_equal. f_equal. lia.
    + rewrite Ho. symmetry. now apply channel_entry_snoc_other.
  - destruct (JSObject.inherited (Message.channel m)) eqn:Hi; [discriminate|].
    injection Hstep as <-. rewrite get_own_set.
    destruct (String.eqb_spec c (Message.channel m)) as [->|Hne].
    + unfold channel_entry in Hm |- *. rewrite by_channel_snoc, String.eqb_refl.
      destruct (by_channel (Message.channel m) l) as [|x mine] eqn:Hmine;
        [|discriminate].
      cbn [app length fold_left]. f_equal.
    + rewrite Ho. symmetry. now apply channel_entry_snoc_other.
Qed.

Section LoopFacts.
Variable getHours : string -> option nat.

Lemma time_step_entry (l : list Message.t) (m : Message.t)
      (o : JSObject.t nat) :
  (forall k, JSObject.get_own k o = time_entry getHours k l) ->
  forall k, JSObject.get_own k (time_step getHours m o)
            = time_entry getHours k (l ++ [m]).
Proof.
  intros Ho k. unfold time_step. cbv zeta.
  pose proof (Ho (hourKey getHours (Message.ts m))) as Hm.
  assert (Hk : JSObject.get_own k
                 (JSObject.set (hourKey getHours (Message.ts m))
                    (S (length (by_hour getHours (hourKey getHours (Message.ts m)) l))) o)
               = time_entry getHours k (l ++ [m])).
  { rewrite get_own_set. unfold time_entry. rewrite by_hour_snoc, length_app.
    destruct (String.eqb_spec k (hourKey getHours (Message.ts m))) as [->|Hne].
    - rewrite String.eqb_refl. cbn [length]. rewrite Nat.add_1_r. reflexivity.
    - destruct (String.eqb_spec (hourKey getHours (Message.ts m)) k) as [E|E];
        [congruence|].
      cbn [length]. rewrite Nat.add_0_r. apply Ho. }
  unfold time_entry in Hm.
  destruct (JSObject.get_own (hourKey getHours (Message.ts m)) o) as [n|] eqn:E.
  - destruct (length (by_hour getHours (hourKey getHours (Message.ts m)) l));
      [discriminate|].
    injection Hm as ->. exact Hk.
  - destruct (length (by_hour getHours (hourKey getHours (Message.ts m)) l));
      [|discriminate].
    exact Hk.
Qed.

Lemma analyze_loop_snoc (l : list Message.t) (m : Message.t) :
  forall a,
    analyze_loop getHours (l ++ [m]) a
    = match analyze_loop getHours l a with
      | Some a' => analyze_step getHours a' m
      | None => None
      end.
Proof.
  induction l as [|x l IH]; intros a; simpl.
  - now destruct (analyze_step getHours a m).
  - destruct (analyze_step getHours a x); [apply IH | reflexivity].
Qed.

(** The state of the loop after the messages [l]. *)
Lemma analyze_loop_state (l : list Message.t) :
  forall a,
    analyze_loop getHours l acc0 = Some a ->
    (forall u, JSObject.get_own u (acc_users a) = user_entry u l) /\
    (forall c, JSObject.get_own c (acc_channels a) = channel_entry c l) /\
    (forall k, JSObject.get_own k (acc_times a) = time_entry getHours k l) /\
    acc_sentiment a = getSentimentSummary l /\
    acc_length a = text_length l /\
    acc_text a = map Message.text l.
Proof.
  induction l as [|m l IH] using rev_ind; intros a H.
  - injection H as <-. simpl. repeat split; auto.
    intros u. unfold user_entry. now destruct (JSObject.inherited u).
  - rewrite analyze_loop_snoc in H.
    destruct (analyze_loop getHours l acc0) as [a0|] eqn:E; [|discriminate].
    destruct (IH a0 eq_refl) as (Hu & Hc & Ht & Hs & Hl & Hx).
    unfold analyze_step in H.
    destruct (channel_step m (acc_channels a0)) as [channels|] eqn:Ec;
      [|discriminate].
    injection H as <-. cbn [acc_users acc_channels acc_times acc_sentiment
                             acc_length acc_text].
    split; [|split; [|split; [|split; [|split]]]].
    + now apply user_step_entry.
    + eapply channel_step_entry; eauto.
    + now apply time_step_entry.
    + rewrite Hs. unfold getSentimentSummary. now rewrite fold_left_app.
    + rewrite Hl. now rewrite text_length_snoc.
    + rewrite Hx. now rewrite map_app.
Qed.

(** The loop stops with an error exactly at a channel that is a member
    name of [Object.prototype]. *)
Lemma analyze_loop_none (l : list Message.t) :
  analyze_loop getHours l acc0 = None <->
  Exists (fun m => JSObject.inherited (Message.channel m) = true) l.
Proof.
  induction l as [|m l IH] using rev_ind.
  - simpl. split; [discriminate | inversion 1].
  - rewrite analyze_loop_snoc, Exists_app.
    destruct (analyze_loop getHours l acc0) as [a0|] eqn:E.
    + assert (Hno : ~ Exists (fun m => JSObject.inherited (Message.channel m) = true) l).
      { intros Hex. apply IH in Hex. discriminate. }
      destruct (analyze_loop_state l E) as (_ & Hc & _).
      unfold analyze_step, channel_step. rewrite Hc.
      destruct (JSObject.inherited (Message.channel m)) eqn:Hi.
      * assert (Hnone : channel_entry (Message.channel m) l = None).
        { unfold channel_entry.
          destruct (by_channel (Message.channel m) l) as [|x mine] eqn:Hmine;
            [reflexivity|].
          exfalso. apply Hno. apply Exists_exists. exists x.
          assert (Hin : In x (by_channel (Message.channel m) l))
            by (rewrite Hmine; now left).
          apply filter_In in Hin. destruct Hin as [Hin Heq].
          apply String.eqb_eq in Heq. split; [exact Hin | now rewrite Heq]. }
        rewrite Hnone. split; [|reflexivity].
        intros _. right. constructor. exact Hi.
      * split.
        -- destruct (channel_entry (Message.channel m) l); discriminate.
        -- intros [Hex|Hex]; [contradiction|].
           inversion Hex as [? ? Hm|? ? Hm]; subst; [congruence | inversion Hm].
    + split; [|reflexivity]. intros _. left. now apply IH.
Qed.
End LoopFacts.

Lemma get_own_map_values (V W : Type) (f : V -> W) (k : string) (o : JSObject.t V) :
  JSObject.get_own k (map_values f o) = option_map f (JSObject.get_own k o).
Proof.
  induction o as [|[k' v] o IH]; simpl; [reflexivity|].
  destruct (String.eqb k k'); auto.
Qed.

(** What [analyzeMessages] returns is built from the state of its loop. *)
Lemma analysis_of_state
      (stopWords : list string) (getHours : string -> option nat)
      (messages : list Message.t) (a : Analysis.t) :
  analyzeMessages stopWords getHours messages = Returns a ->
  messages <> [] ->
  exists st keywords,
    analyze_loop getHours messages acc0 = Some st /\
    extractKeywords stopWords (String.concat " " (acc_text st)) 15 = Some keywords /\
    a = Analysis.Make (length messages)
          (JSNumber.of_nat (acc_length st) / JSNumber.of_nat (length messages))%float
          (map_values with_average (acc_users st))
          (map_values with_size (acc_channels st))
          (acc_times st) keywords (acc_sentiment st)
          (Some (most_active UserStat.messageCount
                   (map_values with_average (acc_users st))))
          (Some (most_active ChannelStat.messageCount
                   (map_values with_size (acc_channels st)))).
Proof.
  intros H Hne. unfold analyzeMessages in H.
  destruct messages as [|m ms]; [congruence|].
  destruct (analyze_loop getHours (m :: ms) acc0) as [st|] eqn:E; [|discriminate].
  cbv zeta in H.
  destruct (extractKeywords stopWords (String.concat " " (acc_text st)) 15)
    as [keywords|] eqn:Ek; [|discriminate].
  injection H as <-. exists st, keywords. auto.
Qed.

(* ================================================================== *)
(** * The error of [analyzeMessages] *)
(* ================================================================== *)

(** X10. [analyzeMessages] raises a [TypeError] exactly when some message
    has a channel that is the name of a member of [Object.prototype]
    (["constructor"], ["toString"], ["__proto__"], ...): there
    [channelStats[channel]] is the inherited member, no entry is made and
    [uniqueUsers.add] is called on [undefined]. *)
Theorem analyzeMessages_throws_iff
        (stopWords : list string) (getHours : string -> option nat)
        (messages : list Message.t) :
  analyzeMessages stopWords getHours messages = Throws <->
  Exists (fun m => JSObject.inherited (Message.channel m) = true) messages.
Proof.
  rewrite <- (analyze_loop_none getHours messages).
  unfold analyzeMessages. destruct messages as [|m ms].
  - simpl. split; discriminate.
  - destruct (analyze_loop getHours (m :: ms) acc0) as [st|].
    + cbv zeta.
      destruct (extractKeywords stopWords (String.concat " " (acc_text st)) 15);
        split; discriminate.
    + split; reflexivity.
Qed.

(* ================================================================== *)
(** * The entries of [userStats], [channelStats] and [timeStats] *)
(* ================================================================== *)

(** On an analysable conversation [analyzeMessages] returns. *)
Lemma analysable_returns
      (stopWords : list string) (getHours : string -> option nat)
      (messages : list Message.t) :
  analysable stopWords messages ->
  exists a, analyzeMessages stopWords getHours messages = Returns a.
Proof.
  intros [Hch Hc]. unfold analyzeMessages. destruct messages as [|m0 ms]; [eauto|].
  set (messages := m0 :: ms) in *.
  destruct (@analyze_loop_plain getHours messages Hch acc0) as [a' El]. rewrite El.
  rewrite (@analyze_loop_text getHours messages _ _ El).
  change (acc_text acc0 ++ map Message.text messages)
    with (map Message.text messages).
  destruct (@extractKeywords_total stopWords _ 15 Hc) as (r & Hr).
  unfold join_texts in Hr. rewrite Hr. eauto.
Qed.

(** The sample conversation is analysable. *)
Ltac sample_is_analysable :=
  split;
  [ repeat constructor
  | intros w Hin _ ->; vm_compute in Hin;
    repeat (destruct Hin as [Hin|Hin]; [discriminate Hin|]); exact Hin ].

(** X11. For a conversation in which no channel is a member name of
    [Object.prototype] and no counted word is ["constructor"],
    [analyzeMessages] returns an analysis in which a user has an entry
    exactly when some message is theirs and their identifier is no member
    name of [Object.prototype]; the entry holds the number of their
    messages, as [totalReactions] the reaction totals of these messages
    added to 0 one after the other as binary64 numbers, the sum of their
    text lengths, and as [averageLength] the quotient of that length by
    that number. *)
Theorem user_stats_exact
        (stopWords : list string) (getHours : string -> option nat)
        (messages : list Message.t) :
  analysable stopWords messages ->
  exists a : Analysis.t,
    analyzeMessages stopWords getHours messages = Returns a /\
    forall u : string,
      JSObject.get_own u (Analysis.userStats a)
      = if JSObject.inherited u then None
        else match by_user u messages with
             | [] => None
             | (_ :: _) as mine =>
                 Some (UserStat.Make (length mine) (reaction_sum mine)
                         (JSNumber.of_nat (text_length mine)
                          / JSNumber.of_nat (length mine))%float
                         (text_length mine))
             end.
Proof.
  intros Han. destruct (analysable_returns getHours Han) as [a H].
  exists a. split; [exact H|]. intros u. clear Han.
  destruct messages as [|m0 ms].
  - injection H as <-. simpl. now destruct (JSObject.inherited u).
  - destruct (analysis_of_state _ _ H) as (st & kw & Hloop & _ & ->);
      [discriminate|].
    cbn [Analysis.userStats]. rewrite get_own_map_values.
    destruct (@analyze_loop_state _ _ _ Hloop) as (Hu & _). rewrite Hu.
    unfold user_entry. destruct (JSObject.inherited u); [reflexivity|].
    destruct (by_user u (m0 :: ms)); reflexivity.
Qed.

Lemma user_stats_exact_witness :
  exists a : Analysis.t,
    analyzeMessages [] sample_hours sample_messages = Returns a /\
    forall u : string,
      JSObject.get_own u (Analysis.userStats a)
      = if JSObject.inherited u then None
        else match by_user u sample_messages with
             | [] => None
             | (_ :: _) as mine =>
                 Some (UserStat.Make (length mine) (reaction_sum mine)
                         (JSNumber.of_nat (text_length mine)
                          / JSNumber.of_nat (length mine))%float
                         (text_length mine))
             end.
Proof.
  apply (@user_stats_exact [] sample_hours sample_messages).
  sample_is_analysable.
Defined.

(** Reaction counts are added as binary64 numbers: from [2^53] on a
    count of 1 is lost, and a total that is no number counts as 0. *)
Example reaction_total_rounds :
  reaction_total (Some [Reaction.Make "a" 9007199254740992%float;
                        Reaction.Make "b" 1%float])
  = 9007199254740992%float /\
  reaction_total (Some [Reaction.Make "a" 1.5%float; Reaction.Make "b" 2%float])
  = 3.5%float /\
  reaction_total (Some [Reaction.Make "a" PrimFloat.nan]) = 0%float /\
  reaction_total (Some []) = 0%float /\
  reaction_total None = 0%float.
Proof. repeat split; vm_compute; reflexivity. Qed.

(** The entry of the first user of the sample conversation. *)
Example user_stats_of_sample :
  exists a : Analysis.t,
    analyzeMessages [] sample_hours sample_messages = Returns a /\
    JSObject.get_own "U1" (Analysis.userStats a)
    = Some (UserStat.Make 2 2 26.5%float 53).
Proof. eexists. split; vm_compute; reflexivity. Qed.

Lemma set_add_fold (mine : list Message.t) :
  forall s,
    NoDup s ->
    NoDup (fold_left (fun s m => set_add (Message.user m) s) mine s) /\
    forall x,
      In x (fold_left (fun s m => set_add (Message.user m) s) mine s)
      <-> In x s \/ In x (map Message.user mine).
Proof.
  induction mine as [|m mine IH]; intros s Hs; simpl.
  - split; [exact Hs | intros x; tauto].
  - assert (Hs' : NoDup (set_add (Message.user m) s) /\
                  forall x, In x (set_add (Message.user m) s)
                            <-> In x s \/ x = Message.user m).
    { unfold set_add.
      destruct (existsb (String.eqb (Message.user m)) s) eqn:E.
      - split; [exact Hs|]. intros x. split; [auto|].
        intros [H| ->]; [exact H | now apply existsb_eqb_In].
      - assert (Hn : ~ In (Message.user m) s).
        { intros Hin. apply existsb_eqb_In in Hin. congruence. }
        split.
        + apply NoDup_app; [exact Hs | repeat constructor; auto |].
          intros x Hx [<-|[]]. contradiction.
        + intros x. rewrite in_app_iff. simpl. intuition. }
    destruct Hs' as [Hnd Hin]. destruct (IH _ Hnd) as [H1 H2].
    split; [exact H1|]. intros x. rewrite H2, Hin. intuition.
Qed.

Lemma unique_users_count (mine : list Message.t) :
  length (fold_left (fun s m => set_add (Message.user m) s) mine [])
  = length (nodup string_dec (map Message.user mine)).
Proof.
  destruct (@set_add_fold mine [] (NoDup_nil _)) as [Hnd Hin].
  apply Permutation_length. apply NoDup_Permutation.
  - exact Hnd.
  - apply NoDup_nodup.
  - intros x. rewrite Hin, nodup_In. simpl. tauto.
Qed.

(** X12. For a conversation in which no channel is a member name of
    [Object.prototype] and no counted word is ["constructor"],
    [analyzeMessages] returns an analysis in which a channel has an entry
    exactly when some message is in it; the entry holds the number of
    these messages, as [totalReactions] their reaction totals added to 0
    one after the other as binary64 numbers, and the number of different
    users who wrote them. *)
Theorem channel_stats_exact
        (stopWords : list string) (getHours : string -> option nat)
        (messages : list Message.t) :
  analysable stopWords messages ->
  exists a : Analysis.t,
    analyzeMessages stopWords getHours messages = Returns a /\
    forall c : string,
      JSObject.get_own c (Analysis.channelStats a)
      = match by_channel c messages with
        | [] => None
        | (_ :: _) as mine =>
            Some (ChannelStat.Make (length mine) (reaction_sum mine)
                    (length (nodup string_dec (map Message.user mine))))
        end.
Proof.
  intros Han. destruct (analysable_returns getHours Han) as [a H].
  exists a. split; [exact H|]. intros c. clear Han.
  destruct messages as [|m0 ms].
  - injection H as <-. reflexivity.
  - destruct (analysis_of_state _ _ H) as (st & kw & Hloop & _ & ->);
      [discriminate|].
    cbn [Analysis.channelStats]. rewrite get_own_map_values.
    destruct (@analyze_loop_state _ _ _ Hloop) as (_ & Hc & _). rewrite Hc.
    unfold channel_entry.
    destruct (by_channel c (m0 :: ms)) as [|x mine]; [reflexivity|].
    cbn [option_map]. unfold with_size.
    cbn [ChannelAcc.messageCount ChannelAcc.totalReactions ChannelAcc.uniqueUsers].
    now rewrite unique_users_count.
Qed.

Lemma channel_stats_exact_witness :
  exists a : Analysis.t,
    analyzeMessages [] sample_hours sample_messages = Returns a /\
    forall c : string,
      JSObject.get_own c (Analysis.channelStats a)
      = match by_channel c sample_messages with
        | [] => None
        | (_ :: _) as mine =>
            Some (ChannelStat.Make (length mine) (reaction_sum mine)
                    (length (nodup string_dec (map Message.user mine))))
        end.
Proof.
  apply (@channel_stats_exact [] sample_hours sample_messages).
  sample_is_analysable.
Defined.

(** The entry of the first channel of the sample conversation. *)
Example channel_stats_of_sample :
  exists a : Analysis.t,
    analyzeMessages [] sample_hours sample_messages = Returns a /\
    JSObject.get_own "C1" (Analysis.channelStats a)
    = Some (ChannelStat.Make 2 2 2).
Proof. eexists. split; vm_compute; reflexivity. Qed.

Lemma time_step_sum (getHours : string -> option nat) (m : Message.t)
      (o : JSObject.t nat) :
  sum_by (fun n => n) (time_step getHours m o) = S (sum_by (fun n => n) o).
Proof.
  unfold time_step. cbv zeta.
  destruct (JSObject.get_own (hourKey getHours (Message.ts m)) o) as [n|] eqn:E.
  - pose proof (@sum_by_set_old nat (fun n => n) _ (S n) n o E) as H.
    cbv beta in H. lia.
  - rewrite (@sum_by_set_new nat (fun n => n) _ 1 o E). lia.
Qed.

Lemma analyze_loop_hours (getHours : string -> option nat) (l : list Message.t) :
  forall a,
    analyze_loop getHours l acc0 = Some a ->
    sum_by (fun n => n) (acc_times a) = length l.
Proof.
  induction l as [|m l IH] using rev_ind; intros a H.
  - injection H as <-. reflexivity.
  - rewrite analyze_loop_snoc in H.
    destruct (analyze_loop getHours l acc0) as [a0|] eqn:E; [|discriminate].
    unfold analyze_step in H.
    destruct (channel_step m (acc_channels a0)); [|discriminate].
    injection H as <-. cbn [acc_times].
    rewrite time_step_sum, (IH _ eq_refl), length_app. simpl. lia.
Qed.

(** X13. For a conversation in which no channel is a member name of
    [Object.prototype] and no counted word is ["constructor"],
    [analyzeMessages] returns an analysis in which [timeStats] has an
    entry for an hour key exactly when some message falls into that hour,
    the entry is the number of these messages, and the entries sum to the
    number of messages. *)
Theorem time_stats_exact
        (stopWords : list string) (getHours : string -> option nat)
        (messages : list Message.t) :
  analysable stopWords messages ->
  exists a : Analysis.t,
    analyzeMessages stopWords getHours messages = Returns a /\
    (forall k : string,
        JSObject.get_own k (Analysis.timeStats a)
        = match length (by_hour getHours k messages) with
          | O => None
          | S n => Some (S n)
          end) /\
    sum_by (fun n => n) (Analysis.timeStats a) = length messages.
Proof.
  intros Han. destruct (analysable_returns getHours Han) as [a H].
  exists a. split; [exact H|]. clear Han.
  destruct messages as [|m0 ms].
  - injection H as <-. split; reflexivity.
  - destruct (analysis_of_state _ _ H) as (st & kw & Hloop & _ & ->);
      [discriminate|].
    cbn [Analysis.timeStats]. split.
    + intros k. destruct (@analyze_loop_state _ _ _ Hloop) as (_ & _ & Ht & _).
      apply Ht.
    + exact (@analyze_loop_hours getHours _ _ Hloop).
Qed.

Lemma time_stats_exact_witness :
  exists a : Analysis.t,
    analyzeMessages [] sample_hours sample_messages = Returns a /\
    (forall k : string,
        JSObject.get_own k (Analysis.timeStats a)
        = match length (by_hour sample_hours k sample_messages) with
          | O => None
          | S n => Some (S n)
          end) /\
    sum_by (fun n => n) (Analysis.timeStats a) = length sample_messages.
Proof.
  apply (@time_stats_exact [] sample_hours sample_messages).
  sample_is_analysable.
Defined.

(* ================================================================== *)
(** * The sentiment tallies of the three aggregates *)
(* ================================================================== *)

Lemma tally_fold_ext (A : Type) (f g : A -> sentiment) (l : list A) :
  (forall x, f x = g x) ->
  forall c,
    fold_left (fun o m => Tally.incr (f m) o) l c
    = fold_left (fun o m => Tally.incr (g m) o) l c.
Proof.
  intros Hfg. induction l as [|x l IH]; intros c; simpl; [reflexivity|].
  now rewrite Hfg, IH.
Qed.

(** X9. The three aggregates count the same labels. The three counters
    of the summary of [getSentimentSummary] add up to the number of
    messages; the [overall] tally of [getSentimentStats] is that summary;
    and for a conversation in which no channel is a member name of
    [Object.prototype] and no counted word is ["constructor"],
    [analyzeMessages] returns an analysis whose [sentimentOverview] is
    that summary. *)
Theorem sentiment_tallies_agree
        (stopWords : list string) (getHours : string -> option nat)
        (parseFloat : string -> float) (messages : list Message.t) :
  Tally.total (getSentimentSummary messages) = length messages /\
  SentimentStats.overall (getSentimentStats getHours parseFloat messages)
  = getSentimentSummary messages /\
  (analysable stopWords messages ->
   exists a : Analysis.t,
     analyzeMessages stopWords getHours messages = Returns a /\
     Analysis.sentimentOverview a = getSentimentSummary messages).
Proof.
  split; [|split].
  - unfold getSentimentSummary.
    rewrite (total_fold (fun m => getSentiment (Message.text m))). reflexivity.
  - destruct messages as [|m0 ms]; [reflexivity|].
    unfold getSentimentStats, getSentimentSummary. cbv zeta.
    cbn [SentimentStats.overall].
    apply tally_fold_ext. intros m. apply label_agrees.
  - intros Han. destruct (analysable_returns getHours Han) as [a H].
    exists a. split; [exact H|]. clear Han.
    destruct messages as [|m0 ms].
    + injection H as <-. reflexivity.
    + destruct (analysis_of_state _ _ H) as (st & kw & Hloop & _ & ->);
        [discriminate|].
      cbn [Analysis.sentimentOverview].
      now destruct (@analyze_loop_state _ _ _ Hloop) as (_ & _ & _ & Hs & _).
Qed.

Lemma sentiment_tallies_agree_witness :
  exists a : Analysis.t,
    analyzeMessages [] sample_hours sample_messages = Returns a /\
    Analysis.sentimentOverview a = getSentimentSummary sample_messages.
Proof.
  apply (@sentiment_tallies_agree [] sample_hours sample_parseFloat
           sample_messages).
  sample_is_analysable.
Defined.

(* ================================================================== *)
(** * The most active user and channel *)
(* ================================================================== *)

Lemma most_active_fold (V : Type) (f : V -> nat) (l : list (string * V)) :
  first_maximum f l
    (fold_left
       (fun max kv =>
          if MostActive.count max <? f (snd kv)
          then MostActive.Make (Some (fst kv)) (f (snd kv))
          else max)
       l (MostActive.Make None 0)).
Proof.
  induction l as [|[k v] l IH] using rev_ind.
  - simpl. split; [reflexivity | constructor].
  - rewrite fold_left_app. cbn [fold_left fst snd].
    set (w := fold_left _ l _) in *.
    destruct (MostActive.count w <? f v) eqn:E.
    + apply Nat.ltb_lt in E. unfold first_maximum. cbn [MostActive.name MostActive.count].
      exists l, v, []. repeat split; auto; [lia|].
      unfold first_maximum in IH. destruct (MostActive.name w) as [k0|].
      * destruct IH as (l1 & v0 & l2 & -> & Hc & Hp & H1 & H2).
        rewrite Hc in E. apply Forall_app. split.
        -- eapply Forall_impl; [|exact H1]. simpl. intros; lia.
        -- constructor; [simpl; lia|].
           eapply Forall_impl; [|exact H2]. simpl. intros; lia.
      * destruct IH as [_ H0]. eapply Forall_impl; [|exact H0].
        simpl. intros; lia.
    + apply Nat.ltb_ge in E. unfold first_maximum in IH |- *.
      destruct (MostActive.name w) as [k0|].
      * destruct IH as (l1 & v0 & l2 & -> & Hc & Hp & H1 & H2).
        exists l1, v0, (l2 ++ [(k, v)]). rewrite <- app_assoc.
        repeat split; auto.
        apply Forall_app. split; [exact H2|]. constructor; [simpl; lia | constructor].
      * destruct IH as [Hc H0]. split; [exact Hc|].
        apply Forall_app. split; [exact H0|]. constructor; [simpl; lia | constructor].
Qed.

Lemma most_active_first_maximum (V : Type) (f : V -> nat) (o : JSObject.t V) :
  first_maximum f (JSObject.entries o) (most_active f o).
Proof. apply most_active_fold. Qed.

Lemma Forall_map_values (V W : Type) (g : V -> W) (P : string * W -> Prop)
      (o : JSObject.t V) :
  Forall (fun kv => P (fst kv, g (snd kv))) o -> Forall P (map_values g o).
Proof.
  unfold map_values. intros H. apply Forall_map.
  eapply Forall_impl; [|exact H]. auto.
Qed.

Lemma user_step_counted (m : Message.t) (o : JSObject.t UserStat.t) :
  Forall (fun kv => 1 <= UserStat.messageCount (snd kv)) o ->
  Forall (fun kv => 1 <= UserStat.messageCount (snd kv)) (user_step m o).
Proof.
  intros H. unfold user_step. cbv zeta.
  destruct (JSObject.get_own (Message.user m) o).
  - apply Forall_set; [simpl; intros; lia | exact H].
  - destruct (JSObject.inherited (Message.user m)); [exact H|].
    apply Forall_set; [simpl; intros; lia | exact H].
Qed.

Lemma channel_step_counted (m : Message.t) (o o' : JSObject.t ChannelAcc.t) :
  channel_step m o = Some o' ->
  Forall (fun kv => 1 <= ChannelAcc.messageCount (snd kv)) o ->
  Forall (fun kv => 1 <= ChannelAcc.messageCount (snd kv)) o'.
Proof.
  intros Hs H. unfold channel_step in Hs. cbv zeta in Hs.
  destruct (JSObject.get_own (Message.channel m) o).
  - injection Hs as <-. apply Forall_set; [simpl; intros; lia | exact H].
  - destruct (JSObject.inherited (Message.channel m)); [discriminate|].
    injection Hs as <-. apply Forall_set; [simpl; intros; lia | exact H].
Qed.

Lemma analyze_loop_counted (getHours : string -> option nat) (l : list Message.t) :
  forall a,
    analyze_loop getHours l acc0 = Some a ->
    Forall (fun kv => 1 <= UserStat.messageCount (snd kv)) (acc_users a) /\
    Forall (fun kv => 1 <= ChannelAcc.messageCount (snd kv)) (acc_channels a).
Proof.
  induction l as [|m l IH] using rev_ind; intros a H.
  - injection H as <-. split; constructor.
  - rewrite analyze_loop_snoc in H.
    destruct (analyze_loop getHours l acc0) as [a0|] eqn:E; [|discriminate].
    destruct (IH a0 eq_refl) as [Hu Hc].
    unfold analyze_step in H.
    destruct (channel_step m (acc_channels a0)) as [channels|] eqn:Ec;
      [|discriminate].
    injection H as <-. cbn [acc_users acc_channels]. split.
    + now apply user_step_counted.
    + eapply channel_step_counted; eauto.
Qed.

Lemma Forall_entries (V : Type) (P : string * V -> Prop) (o : JSObject.t V) :
  Forall P o -> Forall P (JSObject.entries o).
Proof.
  rewrite !Forall_forall. intros H kv Hin. apply H.
  exact (proj1 (In_entries kv o) Hin).
Qed.

Lemma first_maximum_none (V : Type) (f : V -> nat) (l : list (string * V))
      (w : MostActive.t) :
  Forall (fun kv => 1 <= f (snd kv)) l ->
  first_maximum f l w ->
  (MostActive.name w = None <-> l = []).
Proof.
  intros Hpos Hw. unfold first_maximum in Hw.
  destruct (MostActive.name w) as [k|].
  - destruct Hw as (l1 & v & l2 & -> & _). split; [discriminate|].
    intros E. destruct l1; discriminate.
  - destruct Hw as [_ H0]. split; [|reflexivity]. intros _.
    destruct l as [|kv l]; [reflexivity|].
    inversion Hpos; subst. inversion H0; subst. lia.
Qed.

Lemma entries_nil (V : Type) (o : JSObject.t V) : JSObject.entries o = [] <-> o = [].
Proof.
  split; [|intros ->; reflexivity].
  intros E. destruct o as [|kv o]; [reflexivity|].
  assert (Hin : In kv (JSObject.entries (kv :: o))) by (apply In_entries; now left).
  rewrite E in Hin. destruct Hin.
Qed.

(** X14. For a non-empty conversation in which no channel is a member
    name of [Object.prototype] and no counted word is ["constructor"],
    [analyzeMessages] returns an analysis in which [mostActiveUser] names
    the first entry of [Object.entries(userStats)] whose [messageCount]
    is the largest, with that count: the entries before it have smaller
    counts and those after it have none larger. It names no user (and
    count 0) exactly when [userStats] is empty. [mostActiveChannel] does
    the same on [channelStats] and always names a channel. *)
Theorem most_active_is_first_maximum
        (stopWords : list string) (getHours : string -> option nat)
        (messages : list Message.t) :
  analysable stopWords messages ->
  messages <> [] ->
  exists a : Analysis.t,
    analyzeMessages stopWords getHours messages = Returns a /\
    exists wu wc : MostActive.t,
      Analysis.mostActiveUser a = Some wu /\
      Analysis.mostActiveChannel a = Some wc /\
      first_maximum UserStat.messageCount
                    (JSObject.entries (Analysis.userStats a)) wu /\
      first_maximum ChannelStat.messageCount
                    (JSObject.entries (Analysis.channelStats a)) wc /\
      (MostActive.name wu = None <-> Analysis.userStats a = JSObject.empty) /\
      MostActive.name wc <> None.
Proof.
  intros Han Hne. destruct (analysable_returns getHours Han) as [a H].
  exists a. split; [exact H|]. clear Han.
  destruct (analysis_of_state _ _ H Hne) as (st & kw & Hloop & _ & ->).
  cbn [Analysis.mostActiveUser Analysis.mostActiveChannel
       Analysis.userStats Analysis.channelStats].
  destruct (@analyze_loop_counted _ _ _ Hloop) as [Hu Hc].
  eexists. eexists. split; [reflexivity|]. split; [reflexivity|].
  split; [apply most_active_first_maximum|].
  split; [apply most_active_first_maximum|].
  split.
  - unfold JSObject.empty.
    rewrite <- (entries_nil (map_values with_average (acc_users st))).
    apply (@first_maximum_none _ UserStat.messageCount).
    + apply Forall_entries. apply Forall_map_values. exact Hu.
    + apply most_active_first_maximum.
  - intros Hnone.
    assert (Hempty : JSObject.entries (map_values with_size (acc_channels st)) = []).
    { apply (@first_maximum_none _ ChannelStat.messageCount _
               (most_active ChannelStat.messageCount
                  (map_values with_size (acc_channels st)))).
      - apply Forall_entries. apply Forall_map_values. exact Hc.
      - apply most_active_first_maximum.
      - exact Hnone. }
    apply (proj1 (entries_nil _)) in Hempty. unfold map_values in Hempty.
    destruct messages as [|m0 ms]; [congruence|].
    destruct (@analyze_loop_state _ _ _ Hloop) as (_ & Hch & _).
    specialize (Hch (Message.channel m0)).
    assert (Hnil : acc_channels st = []).
    { destruct (acc_channels st); [reflexivity | discriminate Hempty]. }
    rewrite Hnil in Hch. unfold channel_entry, by_channel in Hch.
    cbn [filter JSObject.get_own] in Hch. rewrite String.eqb_refl in Hch.
    discriminate.
Qed.

Lemma most_active_is_first_maximum_witness :
  exists a : Analysis.t,
    analyzeMessages [] sample_hours sample_messages = Returns a /\
    exists wu wc : MostActive.t,
      Analysis.mostActiveUser a = Some wu /\
      Analysis.mostActiveChannel a = Some wc /\
      first_maximum UserStat.messageCount
                    (JSObject.entries (Analysis.userStats a)) wu /\
      first_maximum ChannelStat.messageCount
                    (JSObject.entries (Analysis.channelStats a)) wc /\
      (MostActive.name wu = None <-> Analysis.userStats a = JSObject.empty) /\
      MostActive.name wc <> None.
Proof.
  apply (@most_active_is_first_maximum [] sample_hours sample_messages).
  - sample_is_analysable.
  - discriminate.
Defined.

(* ================================================================== *)
(** * The top words and the keywords *)
(* ================================================================== *)

Lemma top_entries_firstn (n k : nat) (frequency : JSObject.t nat) :
  n <= k -> firstn n (top_entries k frequency) = top_entries n frequency.
Proof.
  intros Hle. unfold top_entries.
  rewrite firstn_map, firstn_firstn. now rewrite Nat.min_l.
Qed.

(** X15. For a conversation in which no channel is a member name of
    [Object.prototype] and no counted word is ["constructor"],
    [analyzeMessages] returns an analysis whose [keywords] are what
    [extractKeywords] gives for the texts joined by blanks and the limit
    15, at most 15 of them; [calculateStatistics] returns too, with the
    same number of messages, and its [topWords] are the first five of
    these keywords. *)
Theorem top_words_are_first_keywords
        (stopWords : list string) (getHours : string -> option nat)
        (messages : list Message.t) :
  analysable stopWords messages ->
  exists a : Analysis.t,
    analyzeMessages stopWords getHours messages = Returns a /\
    extractKeywords stopWords (join_texts messages) 15
    = Some (Analysis.keywords a) /\
    length (Analysis.keywords a) <= 15 /\
    exists b : BasicStats.t,
      calculateStatistics stopWords messages = Returns b /\
      BasicStats.totalMessages b = Analysis.totalMessages a /\
      BasicStats.topWords b = firstn 5 (Analysis.keywords a).
Proof.
  intros Han. destruct (analysable_returns getHours Han) as [a H].
  exists a. split; [exact H|]. clear Han.
  destruct messages as [|m0 ms].
  - injection H as <-. split; [reflexivity|]. split; [simpl; lia|].
    eexists. split; [reflexivity|]. split; reflexivity.
  - destruct (analysis_of_state _ _ H) as (st & kw & Hloop & Hkw & ->);
      [discriminate|].
    destruct (@analyze_loop_state _ _ _ Hloop) as (_ & _ & _ & _ & _ & Hx).
    rewrite Hx in Hkw. cbn [Analysis.keywords Analysis.totalMessages].
    split; [exact Hkw|].
    unfold extractKeywords in Hkw.
    unfold calculateStatistics, join_texts.
    destruct (count_words stopWords
                (tokens (explode (String.concat " " (map Message.text (m0 :: ms)))))
                JSObject.empty) as [frequency|]; [|discriminate].
    injection Hkw as <-. split.
    + unfold top_entries. rewrite length_map, length_firstn. lia.
    + eexists. split; [reflexivity|].
      cbn [BasicStats.totalMessages BasicStats.topWords].
      split; [reflexivity|]. symmetry. apply top_entries_firstn. lia.
Qed.

Lemma top_words_are_first_keywords_witness :
  exists a : Analysis.t,
    analyzeMessages [] sample_hours sample_messages = Returns a /\
    extractKeywords [] (join_texts sample_messages) 15
    = Some (Analysis.keywords a) /\
    length (Analysis.keywords a) <= 15 /\
    exists b : BasicStats.t,
      calculateStatistics [] sample_messages = Returns b /\
      BasicStats.totalMessages b = Analysis.totalMessages a /\
      BasicStats.topWords b = firstn 5 (Analysis.keywords a).
Proof.
  apply (@top_words_are_first_keywords [] sample_hours sample_messages).
  sample_is_analysable.
Defined.

(* ================================================================== *)
(** * The tallies by user, by channel and by hour of [getSentimentStats] *)
(* ================================================================== *)

Lemma tally_fold_lookup (key : Message.t -> string) (label : Message.t -> sentiment)
      (l : list Message.t) :
  forall k,
    JSObject.get_own k
      (fold_left (fun o m => tally_step (key m) (label m) o) l JSObject.empty)
    = if JSObject.inherited k then None
      else match filter (fun m => String.eqb (key m) k) l with
           | [] => None
           | (_ :: _) as mine =>
               Some (fold_left (fun c m => Tally.incr (label m) c) mine Tally.zero)
           end.
Proof.
  induction l as [|m l IH] using rev_ind; intros k.
  - simpl. now destruct (JSObject.inherited k).
  - rewrite fold_left_app. cbn [fold_left].
    set (o := fold_left _ l JSObject.empty) in *.
    rewrite filter_app. cbn [filter].
    unfold tally_step. pose proof (IH (key m)) as Hm.
    destruct (String.eqb_spec (key m) k) as [<-|Hne].
    + destruct (JSObject.get_own (key m) o) as [c|] eqn:E.
      * rewrite get_own_set_same.
        destruct (JSObject.inherited (key m)); [discriminate|].
        destruct (filter (fun m0 => String.eqb (key m0) (key m)) l) as [|x mine];
          [discriminate|].
        injection Hm as ->. cbn [app].
        change (x :: mine ++ [m]) with ((x :: mine) ++ [m]).
        now rewrite fold_left_app.
      * destruct (JSObject.inherited (key m)) eqn:Hi; [exact E|].
        rewrite get_own_set_same.
        destruct (filter (fun m0 => String.eqb (key m0) (key m)) l) as [|x mine];
          [reflexivity | discriminate].
    + rewrite app_nil_r.
      assert (Hk : k <> key m) by congruence.
      destruct (JSObject.get_own (key m) o) as [c|].
      * rewrite (get_own_set_other _ _ Hk). apply IH.
      * destruct (JSObject.inherited (key m)); [apply IH|].
        rewrite (get_own_set_other _ _ Hk). apply IH.
Qed.

(** X18. In the report of [getSentimentStats], the tally of a user is
    the sentiment summary of that user's messages, and the tally of a
    channel that of the channel's messages; a user or channel without a
    message has no tally, and neither has one whose identifier is a
    member name of [Object.prototype]. *)
Theorem sentiment_by_user_and_channel
        (getHours : string -> option nat) (parseFloat : string -> float)
        (messages : list Message.t) (k : string) :
  JSObject.get_own k
    (SentimentStats.byUser (getSentimentStats getHours parseFloat messages))
  = (if JSObject.inherited k then None
     else match by_user k messages with
          | [] => None
          | (_ :: _) as mine => Some (getSentimentSummary mine)
          end) /\
  JSObject.get_own k
    (SentimentStats.byChannel (getSentimentStats getHours parseFloat messages))
  = (if JSObject.inherited k then None
     else match by_channel k messages with
          | [] => None
          | (_ :: _) as mine => Some (getSentimentSummary mine)
          end).
Proof.
  destruct messages as [|m0 ms].
  - simpl. now destruct (JSObject.inherited k).
  - unfold getSentimentStats. cbv zeta.
    cbn [SentimentStats.byUser SentimentStats.byChannel].
    rewrite !tally_fold_lookup. unfold by_user, by_channel, getSentimentSummary.
    destruct (JSObject.inherited k); [split; reflexivity|].
    split.
    + destruct (filter (fun m => String.eqb (Message.user m) k) (m0 :: ms));
        [reflexivity|].
      f_equal. apply tally_fold_ext. intros m. apply label_agrees.
    + destruct (filter (fun m => String.eqb (Message.channel m) k) (m0 :: ms));
        [reflexivity|].
      f_equal. apply tally_fold_ext. intros m. apply label_agrees.
Qed.

Lemma hour_suffix_plain (x : string) : JSObject.inherited (x ++ ":00") = false.
Proof.
  unfold JSObject.inherited.
  destruct (existsb (String.eqb (x ++ ":00")) JSObject.prototype_members) eqn:E;
    [|reflexivity].
  apply existsb_eqb_In in E. exfalso.
  assert (Hlast : forall p, In p JSObject.prototype_members ->
                            hd "x"%char (rev (explode p)) <> "0"%char).
  { intros p Hp. simpl in Hp.
    repeat (destruct Hp as [<-|Hp]; [simpl; discriminate|]). destruct Hp. }
  apply (Hlast _ E). rewrite explode_app, rev_app_distr. reflexivity.
Qed.

Lemma hourKey_plain (getHours : string -> option nat) (ts : string) :
  JSObject.inherited (hourKey getHours ts) = false.
Proof.
  unfold hourKey. destruct (getHours ts); [apply hour_suffix_plain|].
  apply (hour_suffix_plain "NaN").
Qed.

Section EntriesFacts.
Variable V : Type.

Lemma insert_index_perm (kv : string * V) (l : list (string * V)) :
  Permutation (JSObject.insert_index kv l) (kv :: l).
Proof.
  induction l as [|x l IH]; simpl; [reflexivity|].
  destruct (JSObject.index_of (fst kv) <=? JSObject.index_of (fst x))%N;
    [reflexivity|].
  rewrite IH. apply perm_swap.
Qed.

Lemma index_sort_perm (l : list (string * V)) :
  Permutation (fold_right JSObject.insert_index [] l) l.
Proof.
  induction l as [|x l IH]; simpl; [reflexivity|].
  rewrite insert_index_perm. now constructor.
Qed.

Lemma filter_partition_perm (A : Type) (p : A -> bool) (l : list A) :
  Permutation (filter p l ++ filter (fun x => negb (p x)) l) l.
Proof.
  induction l as [|x l IH]; simpl; [reflexivity|].
  destruct (p x); simpl.
  - now constructor.
  - rewrite <- Permutation_middle. now constructor.
Qed.

Lemma entries_perm (o : JSObject.t V) : Permutation (JSObject.entries o) o.
Proof.
  unfold JSObject.entries. rewrite index_sort_perm.
  apply (filter_partition_perm (fun kv => JSObject.is_index (fst kv))).
Qed.

Lemma set_keys_nodup (k : string) (v : V) (o : JSObject.t V) :
  NoDup (map fst o) -> NoDup (map fst (JSObject.set k v o)).
Proof.
  intros H. rewrite keys_set.
  destruct (JSObject.get_own k o) eqn:E; [exact H|].
  apply get_own_none_iff in E.
  apply NoDup_app; [exact H | repeat constructor; auto |].
  intros x Hx [<-|[]]. contradiction.
Qed.

End EntriesFacts.

Lemma tally_step_nodup (k : string) (s : sentiment) (o : JSObject.t Tally.t) :
  NoDup (map fst o) -> NoDup (map fst (tally_step k s o)).
Proof.
  intros H. unfold tally_step. destruct (JSObject.get_own k o).
  - now apply set_keys_nodup.
  - destruct (JSObject.inherited k); [exact H | now apply set_keys_nodup].
Qed.

Lemma tally_step_sum (k : string) (s : sentiment) (o : JSObject.t Tally.t) :
  JSObject.inherited k = false ->
  sum_by Tally.total (tally_step k s o) = S (sum_by Tally.total o).
Proof.
  intros Hk. unfold tally_step. rewrite Hk.
  destruct (JSObject.get_own k o) as [c|] eqn:E.
  - pose proof (@sum_by_set_old _ Tally.total k (Tally.incr s c) c o E) as H.
    rewrite total_incr in H. lia.
  - rewrite (@sum_by_set_new _ Tally.total k (Tally.incr s Tally.zero) o E).
    rewrite (total_incr s Tally.zero). change (Tally.total Tally.zero) with 0. lia.
Qed.

Lemma tally_fold_facts (key : Message.t -> string) (label : Message.t -> sentiment)
      (l : list Message.t) :
  (forall m, JSObject.inherited (key m) = false) ->
  NoDup (map fst (fold_left (fun o m => tally_step (key m) (label m) o)
                            l JSObject.empty)) /\
  sum_by Tally.total (fold_left (fun o m => tally_step (key m) (label m) o)
                                l JSObject.empty)
  = length l.
Proof.
  intros Hkey. induction l as [|m l IH] using rev_ind.
  - split; [constructor | reflexivity].
  - rewrite fold_left_app. cbn [fold_left]. destruct IH as [Hnd Hsum]. split.
    + now apply tally_step_nodup.
    + rewrite tally_step_sum by apply Hkey. rewrite Hsum, length_app. simpl. lia.
Qed.

(** X19. The [timeline] of [getSentimentStats] has one row per hour key
    into which a message falls, no hour twice; the row of an hour is the
    sentiment summary of the messages of that hour, and the counters of
    all rows add up to the number of messages. *)
Theorem sentiment_timeline
        (getHours : string -> option nat) (parseFloat : string -> float)
        (messages : list Message.t) :
  let timeline :=
    SentimentStats.timeline (getSentimentStats getHours parseFloat messages) in
  NoDup (map fst timeline) /\
  (forall (hour : string) (t : Tally.t),
      In (hour, t) timeline <->
      by_hour getHours hour messages <> [] /\
      t = getSentimentSummary (by_hour getHours hour messages)) /\
  list_sum (map (fun row => Tally.total (snd row)) timeline) = length messages.
Proof.
  destruct messages as [|m0 ms].
  - simpl. split; [constructor|]. split; [|reflexivity].
    intros hour t. split; [intros [] | intros [H _]; congruence].
  - unfold getSentimentStats. cbv zeta. cbn [SentimentStats.timeline].
    pose (label := fun m : Message.t =>
                     SentimentResult.sentiment_
                       (getSentimentWithConfidence (Message.text m))).
    destruct (@tally_fold_facts (fun m => hourKey getHours (Message.ts m)) label
                (m0 :: ms) (fun m => hourKey_plain getHours (Message.ts m)))
      as [Hnd Hsum].
    assert (Hl := @tally_fold_lookup (fun m => hourKey getHours (Message.ts m))
                    label (m0 :: ms)).
    assert (Hsame : forall mine,
               fold_left
                 (fun c m =>
                    Tally.incr
                      (SentimentResult.sentiment_
                         (getSentimentWithConfidence (Message.text m))) c)
                 mine Tally.zero
               = getSentimentSummary mine).
    { intros mine. unfold getSentimentSummary.
      apply tally_fold_ext. intros m. apply label_agrees. }
    unfold by_hour. cbv beta in Hl. unfold label in Hnd, Hsum, Hl.
    clear label.
    set (o := fold_left _ (m0 :: ms) JSObject.empty) in *.
    set (mine_of := fun hour =>
                      filter (fun m => String.eqb (hourKey getHours (Message.ts m)) hour)
                             (m0 :: ms)) in *.
    pose proof (entries_perm o) as Hperm.
    split; [|split].
    + eapply Permutation_NoDup; [|exact Hnd].
      apply Permutation_map. now symmetry.
    + intros hour t. rewrite In_entries. specialize (Hl hour).
      change (filter _ (m0 :: ms)) with (mine_of hour) in Hl |- *.
      split.
      * intros Hin. apply (@In_get_own _ hour t o Hnd) in Hin. rewrite Hin in Hl.
        destruct (JSObject.inherited hour); [discriminate|].
        destruct (mine_of hour) as [|x mine] eqn:Hmine; [discriminate|].
        rewrite (Hsame (x :: mine)) in Hl.
        split; [discriminate | congruence].
      * intros [Hne ->]. apply get_own_In. rewrite Hl.
        destruct (mine_of hour) as [|x mine] eqn:Hmine; [congruence|].
        assert (Hx : In x (mine_of hour)) by (rewrite Hmine; now left).
        apply filter_In in Hx. destruct Hx as [_ Hx].
        apply String.eqb_eq in Hx. rewrite <- Hx, hourKey_plain.
        f_equal. exact (Hsame (x :: mine)).
    + unfold sum_by in Hsum. rewrite <- Hsum.
      apply Permutation_list_sum. now apply Permutation_map.
Qed.

(* ================================================================== *)
(** * The details of [getSentimentStats] *)
(* ================================================================== *)

Lemma substring_prefix (n : nat) :
  forall s, String.substring 0 n s = implode (firstn n (explode s)).
Proof.
  induction n as [|n IH]; intros s.
  - destruct s; reflexivity.
  - destruct s as [|c s]; simpl; [reflexivity|]. now rewrite IH.
Qed.

(** X16. The text of a detail is the message text cut to 100 code
    units: a text of at most 100 is kept as it is, a longer one gives its
    first 100 code units followed by three dots and nothing else, 103
    code units in all. *)
Theorem preview_cuts_at_100 (text : string) :
  String.length (preview text)
  = (if 100 <? String.length text then 103 else String.length text) /\
  (String.length text <= 100 -> preview text = text) /\
  firstn 100 (explode (preview text)) = firstn 100 (explode text) /\
  (100 < String.length text ->
   skipn 100 (explode (preview text)) = ["."; "."; "."]%char /\
   preview text
   = (implode (firstn 100 (explode text)) ++ "...")%string) /\
  (forall message : Message.t,
      Detail.text (detail_of message) = preview (Message.text message)).
Proof.
  assert (Hcut : forall l : chars,
             100 < length l ->
             firstn 100 (firstn 100 l ++ explode "...") = firstn 100 l /\
             skipn 100 (firstn 100 l ++ explode "...") = explode "...").
  { intros l Hl.
    assert (H100 : length (firstn 100 l) = 100) by (rewrite length_firstn; lia).
    split.
    - rewrite firstn_app, H100, firstn_firstn. simpl. now rewrite app_nil_r.
    - rewrite skipn_app, H100.
      rewrite skipn_all2 by lia. reflexivity. }
  split; [|split; [|split; [|split; [|reflexivity]]]];
    unfold preview; rewrite substring_prefix;
    pose proof (length_explode text) as Hlen;
    destruct (Nat.ltb_spec 100 (String.length text)) as [E|E].
  - rewrite string_length_app, length_implode, length_firstn.
    change (String.length "...") with 3. lia.
  - rewrite string_length_app, length_implode, length_firstn.
    change (String.length "") with 0. lia.
  - lia.
  - intros _. rewrite firstn_all2 by lia. rewrite implode_explode.
    clear. induction text as [|c s IH]; simpl; [reflexivity | now rewrite IH].
  - rewrite explode_app, explode_implode. apply Hcut. lia.
  - rewrite explode_app, explode_implode.
    change (explode "") with (@nil ascii).
    now rewrite app_nil_r, firstn_firstn.
  - intros _. split; [|reflexivity].
    rewrite explode_app, explode_implode. apply Hcut. lia.
  - lia.
Qed.

Lemma sort_insert_perm (A : Type) (before : A -> A -> bool) (x : A) (l : list A) :
  Permutation (sort_insert before x l) (x :: l).
Proof.
  induction l as [|y l IH]; simpl; [reflexivity|].
  destruct (before x y); [reflexivity|].
  rewrite IH. apply perm_swap.
Qed.

Lemma stable_sort_perm (A : Type) (before : A -> A -> bool) (l : list A) :
  Permutation (stable_sort before l) l.
Proof.
  induction l as [|x l IH]; simpl; [reflexivity|].
  rewrite sort_insert_perm. now constructor.
Qed.

(* ================================================================== *)
(** * The message routes *)
(* ================================================================== *)

Section RouteFacts.
Variable mockMessages : list Message.t.

Lemma find_first (A : Type) (p : A -> bool) (l : list A) (x : A) :
  find p l = Some x <->
  exists l1 l2, l = l1 ++ x :: l2 /\ p x = true /\ Forall (fun y => p y = false) l1.
Proof.
  induction l as [|y l IH]; simpl.
  - split; [discriminate|]. intros (l1 & l2 & E & _). destruct l1; discriminate.
  - destruct (p y) eqn:Hy.
    + split.
      * intros [= <-]. exists [], l. auto.
      * intros (l1 & l2 & E & Hx & Hl1). destruct l1 as [|z l1].
        -- now injection E as ->.
        -- injection E as -> _. inversion Hl1; subst. congruence.
    + rewrite IH. split.
      * intros (l1 & l2 & -> & Hx & Hl1). exists (y :: l1), l2. auto.
      * intros (l1 & l2 & E & Hx & Hl1). destruct l1 as [|z l1].
        -- injection E as -> _. congruence.
        -- injection E as -> ->. inversion Hl1; subst. eauto.
Qed.

(** X22. [GET /api/v1/messages/{ts}/anonymized] answers 404 with
    ["Message not found"] exactly when no message has the time stamp
    [ts]; otherwise it answers 200 with the anonymized form of the first
    message that has it, whose own [ts] is the one asked for. *)
Theorem messageById_finds_first (ts : string) :
  (~ In ts (map Message.ts mockMessages) ->
   Routes.messageById mockMessages ts
   = Routes.Response 404 false (Routes.Failure "Message not found")) /\
  (In ts (map Message.ts mockMessages) ->
   exists before message rest,
     mockMessages = before ++ message :: rest /\
     Message.ts message = ts /\
     ~ In ts (map Message.ts before) /\
     Routes.messageById mockMessages ts
     = Routes.Response 200 true (Routes.AnonymizedOne (anonymizeMessage message)) /\
     Anonymized.ts (anonymizeMessage message) = ts).
Proof.
  unfold Routes.messageById.
  destruct (find (fun msg => String.eqb (Message.ts msg) ts) mockMessages)
    as [message|] eqn:E.
  - apply find_first in E. destruct E as (l1 & l2 & -> & Hts & Hl1).
    apply String.eqb_eq in Hts. split.
    + intros Hn. exfalso. apply Hn. rewrite map_app. apply in_or_app.
      right. left. exact Hts.
    + intros _. exists l1, message, l2. repeat split; auto.
      intros Hin. apply in_map_iff in Hin. destruct Hin as (y & Hy & Hin).
      rewrite Forall_forall in Hl1. specialize (Hl1 y Hin).
      apply String.eqb_neq in Hl1. contradiction.
  - split; [reflexivity|]. intros Hin. exfalso.
    apply in_map_iff in Hin. destruct Hin as (y & Hy & Hin).
    pose proof (find_none _ _ E y Hin) as Hf. cbv beta in Hf.
    apply String.eqb_neq in Hf. contradiction.
Qed.

(** X23. When no two messages share a time stamp, the route by time
    stamp and the list route agree: for the message at any position of
    the list, asking for its [ts] gives the element at that position of
    the data of [GET /api/v1/messages/anonymized], and both list routes
    report the same [count]. *)
Theorem routes_agree (i : nat) (message : Message.t) :
  NoDup (map Message.ts mockMessages) ->
  nth_error mockMessages i = Some message ->
  exists data,
    Routes.anonymizedMessages mockMessages
    = Routes.Response 200 true (Routes.AnonymizedList data (length mockMessages)) /\
    Routes.messages mockMessages
    = Routes.Response 200 true
        (Routes.MessageList mockMessages (length mockMessages)) /\
    nth_error data i = Some (anonymizeMessage message) /\
    Routes.messageById mockMessages (Message.ts message)
    = Routes.Response 200 true (Routes.AnonymizedOne (anonymizeMessage message)).
Proof.
  intros Hnd Hi. exists (anonymizeMessages mockMessages).
  split; [|split; [|split]].
  - unfold Routes.anonymizedMessages, anonymizeMessages.
    now rewrite length_map.
  - reflexivity.
  - unfold anonymizeMessages. rewrite nth_error_map, Hi. reflexivity.
  - unfold Routes.messageById.
    destruct (find (fun msg => String.eqb (Message.ts msg) (Message.ts message))
                   mockMessages) as [found|] eqn:E.
    + apply find_first in E. destruct E as (l1 & l2 & E & Hts & _).
      apply String.eqb_eq in Hts.
      apply nth_error_split in Hi. destruct Hi as (k1 & k2 & Hk & _).
      assert (found = message); [|now subst].
      rewrite E in Hnd. rewrite map_app in Hnd. simpl in Hnd.
      apply NoDup_remove_2 in Hnd.
      assert (Hin : In message (l1 ++ found :: l2))
        by (rewrite <- E, Hk; apply in_or_app; right; now left).
      apply in_app_or in Hin. destruct Hin as [Hin|[Hin|Hin]]; [|exact Hin|].
      * exfalso. apply Hnd. apply in_or_app. left.
        rewrite Hts. now apply in_map.
      * exfalso. apply Hnd. apply in_or_app. right.
        rewrite Hts. now apply in_map.
    + apply nth_error_In in Hi.
      pose proof (find_none _ _ E message Hi) as Hf. cbv beta in Hf.
      now rewrite String.eqb_refl in Hf.
Qed.

End RouteFacts.

Lemma routes_agree_witness :
  exists data,
    Routes.anonymizedMessages sample_messages
    = Routes.Response 200 true
        (Routes.AnonymizedList data (length sample_messages)) /\
    Routes.messages sample_messages
    = Routes.Response 200 true
        (Routes.MessageList sample_messages (length sample_messages)) /\
    nth_error data 1
    = Some (anonymizeMessage
              (Message.Make "1736954100.000002" "U2" "bob" "C1"
                 "There is a critical bug in the release" None)) /\
    Routes.messageById sample_messages "1736954100.000002"
    = Routes.Response 200 true
        (Routes.AnonymizedOne
           (anonymizeMessage
              (Message.Make "1736954100.000002" "U2" "bob" "C1"
                 "There is a critical bug in the release" None))).
Proof.
  apply (@routes_agree sample_messages 1
           (Message.Make "1736954100.000002" "U2" "bob" "C1"
              "There is a critical bug in the release" None)).
  - repeat constructor; simpl; intuition discriminate.
  - reflexivity.
Defined.

(* ================================================================== *)
(** * The tokens of a text *)
(* ================================================================== *)

Lemma match_from_lang (r : re) (s : chars) :
  forall prev skip w,
    In w (match_from r prev skip s) ->
    lang r w /\ exists before rest, s = before ++ w ++ rest.
Proof.
  induction s as [|c t IH]; intros prev skip w Hin; cbn [match_from] in Hin.
  - destruct skip; [|destruct Hin].
    destruct (match_at r prev []) as [rest|] eqn:E; [|destruct Hin].
    destruct Hin as [<-|[]].
    apply match_at_lang in E. destruct E as (pre & E & Hpre).
    symmetry in E. apply app_eq_nil in E. destruct E as [-> ->].
    split; [exact Hpre|]. exists [], []. reflexivity.
  - destruct skip as [|n].
    + destruct (match_at r prev (c :: t)) as [rest|] eqn:E.
      * cbv zeta in Hin. destruct Hin as [Hw|Hin].
        -- apply match_at_lang in E. destruct E as (pre & E & Hpre).
           assert (Hf : firstn (length (c :: t) - length rest) (c :: t) = pre).
           { rewrite E, length_app, Nat.add_sub, firstn_app, Nat.sub_diag.
             rewrite firstn_all. simpl. apply app_nil_r. }
           rewrite Hf in Hw. subst w.
           split; [exact Hpre|]. exists [], rest. exact E.
        -- apply IH in Hin. destruct Hin as [Hl (a & b & ->)].
           split; [exact Hl|]. exists (c :: a), b. reflexivity.
      * apply IH in Hin. destruct Hin as [Hl (a & b & ->)].
        split; [exact Hl|]. exists (c :: a), b. reflexivity.
    + apply IH in Hin. destruct Hin as [Hl (a & b & ->)].
      split; [exact Hl|]. exists (c :: a), b. reflexivity.
Qed.

Lemma lower_not_upper (c : ascii) : is_upper (lower c) = false.
Proof.
  assert (H : forallb (fun c => negb (is_upper (lower c))) all_ascii = true)
    by (vm_compute; reflexivity).
  rewrite forallb_forall in H. specialize (H c (In_all_ascii c)).
  now apply negb_true_iff in H.
Qed.

(** X21. The words that the statistics count, the matches of
    [/\b(\w+)\b/g] in the lower-cased text, are not empty, consist of
    word characters none of which is an upper-case letter, and occur in
    the lower-cased text. *)
Theorem tokens_are_lower_case_words (text : string) :
  Forall (fun w : string =>
            w <> ""%string /\
            forallb (fun c => is_word c && negb (is_upper c)) (explode w) = true /\
            includes (toLowerCase (explode text)) (explode w) = true)
         (tokens (explode text)).
Proof.
  apply Forall_forall. intros w Hin. unfold tokens in Hin.
  apply in_map_iff in Hin. destruct Hin as (x & <- & Hin).
  unfold match_all in Hin. apply match_from_lang in Hin.
  destruct Hin as [Hl (a & b & E)]. rewrite explode_implode.
  split; [|split].
  - apply (lang_least (fun _ => true)) in Hl.
    change (least (fun _ => true) re_word) with 1 in Hl.
    unfold count in Hl. destruct x; [simpl in Hl; lia | discriminate].
  - apply forallb_forall. intros c Hc.
    apply lang_accepts in Hl. rewrite Forall_forall in Hl.
    specialize (Hl c Hc). simpl in Hl. rewrite orb_false_r in Hl.
    rewrite Hl. simpl.
    assert (Hin : In c (toLowerCase (explode text))).
    { rewrite E. apply in_or_app. right. apply in_or_app. now left. }
    unfold toLowerCase in Hin. apply in_map_iff in Hin.
    destruct Hin as (c0 & <- & _). now rewrite lower_not_upper.
  - rewrite E. apply includes_here.
Qed.

(* ================================================================== *)
(** * The counts of the keywords *)
(* ================================================================== *)

Lemma count_occ_snoc (l : list string) (w k : string) :
  count_occ string_dec (l ++ [w]) k
  = count_occ string_dec l k + (if String.eqb w k then 1 else 0).
Proof.
  rewrite count_occ_app. simpl.
  destruct (string_dec w k) as [->|Hne].
  - now rewrite String.eqb_refl.
  - apply String.eqb_neq in Hne. now rewrite Hne.
Qed.

Lemma count_words_counts (stopWords : list string) (ws : list string) :
  forall pre frequency,
    (forall w, In w ws -> kept stopWords w = true -> w <> "constructor"%string) ->
    counts_inv stopWords pre frequency ->
    exists frequency',
      count_words stopWords ws frequency = Some frequency' /\
      counts_inv stopWords (pre ++ ws) frequency'.
Proof.
  induction ws as [|w ws IH]; intros pre frequency Hc Hinv.
  - rewrite app_nil_r. simpl. eauto.
  - assert (Hc' : forall w', In w' ws -> kept stopWords w' = true ->
                             w' <> "constructor"%string)
      by (intros w' Hw'; apply Hc; now right).
    replace (pre ++ w :: ws) with ((pre ++ [w]) ++ ws)
      by (rewrite <- app_assoc; reflexivity).
    destruct Hinv as (Ha & Hb & Hn).
    assert (Hother : forall k m,
               k <> w -> JSObject.get_own k frequency = Some m ->
               m = count_occ string_dec (pre ++ [w]) k /\
               kept stopWords k = true /\ 1 <= m).
    { intros k m Hne Hm. destruct (Ha k m Hm) as (-> & Hkept & Hpos).
      rewrite count_occ_snoc.
      destruct (String.eqb_spec w k) as [->|_]; [congruence|].
      repeat split; auto; lia. }
    assert (Hstay : (kept stopWords w = false \/ w = "__proto__"%string) ->
                    JSObject.get_own w frequency = None ->
                    counts_inv stopWords (pre ++ [w]) frequency).
    { intros Hw Hg. split; [|split; [|exact Hn]].
      - intros k n Hk. apply Hother; [congruence | exact Hk].
      - intros w' Hin Hk' Hp. apply in_app_or in Hin.
        destruct Hin as [Hin|[<-|[]]]; [now apply Hb|].
        destruct Hw; congruence. }
    simpl. destruct (kept stopWords w) eqn:Hk.
    + unfold bump.
      destruct (JSObject.get_own w frequency) as [n|] eqn:Hg.
      * apply (IH (pre ++ [w]) _ Hc'). split; [|split].
        -- intros k m. rewrite get_own_set.
           destruct (String.eqb_spec k w) as [->|Hne].
           ++ intros [= <-]. rewrite count_occ_snoc, String.eqb_refl.
              destruct (Ha w n Hg) as (-> & _ & _).
              repeat split; auto; lia.
           ++ now apply Hother.
        -- intros w' Hin Hk' Hp. rewrite get_own_set.
           destruct (String.eqb_spec w' w); [discriminate|].
           apply in_app_or in Hin.
           destruct Hin as [Hin|[<-|[]]]; [now apply Hb | congruence].
        -- now apply set_keys_nodup.
      * destruct (String.eqb_spec w "__proto__") as [Hp|Hp].
        -- apply (IH (pre ++ [w]) _ Hc'). apply Hstay; auto.
        -- destruct (String.eqb_spec w "constructor") as [Hcon|Hcon].
           { exfalso. apply (Hc w); [now left | exact Hk | exact Hcon]. }
           apply (IH (pre ++ [w]) _ Hc'). split; [|split].
           ++ intros k m. rewrite get_own_set.
              destruct (String.eqb_spec k w) as [->|Hne].
              ** intros [= <-]. rewrite count_occ_snoc, String.eqb_refl.
                 assert (Hnot : ~ In w pre).
                 { intros Hin. now apply (Hb w Hin Hk Hp). }
                 rewrite (proj1 (count_occ_not_In string_dec pre w) Hnot).
                 repeat split; auto.
              ** now apply Hother.
           ++ intros w' Hin Hk' Hp'. rewrite get_own_set.
              destruct (String.eqb_spec w' w); [discriminate|].
              apply in_app_or in Hin.
              destruct Hin as [Hin|[<-|[]]]; [now apply Hb | congruence].
           ++ now apply set_keys_nodup.
    + apply (IH (pre ++ [w]) _ Hc'). apply Hstay; auto.
      destruct (JSObject.get_own w frequency) as [n|] eqn:Hg; [|reflexivity].
      destruct (Ha w n Hg) as (_ & Hkept & _). congruence.
Qed.

Lemma NoDup_firstn (A : Type) (n : nat) (l : list A) :
  NoDup l -> NoDup (firstn n l).
Proof.
  intros H. rewrite <- (firstn_skipn n l) in H.
  now apply NoDup_app_remove_r in H.
Qed.

(** X20. For a text none of whose counted words is ["constructor"], the
    keywords of [extractKeywords] are pairwise different words, the count
    of each is the number of times the word occurs among the tokens of
    the text, and when fewer than [limit] keywords come back no counted
    word but ["__proto__"] is missing. *)
Theorem extractKeywords_counts
        (stopWords : list string) (text : string) (limit : nat) :
  countable stopWords text ->
  exists r : list Keyword.t,
    extractKeywords stopWords text limit = Some r /\
    NoDup (map Keyword.word r) /\
    Forall (fun k =>
              Keyword.count k
              = count_occ string_dec (tokens (explode text)) (Keyword.word k) /\
              1 <= Keyword.count k) r /\
    (length r < limit ->
     forall w, In w (tokens (explode text)) -> kept stopWords w = true ->
               w <> "__proto__"%string -> In w (map Keyword.word r)).
Proof.
  intros Hc. unfold extractKeywords.
  destruct (@count_words_counts stopWords (tokens (explode text)) []
              JSObject.empty Hc) as (frequency & -> & Ha & Hb & Hn).
  { split; [|split]; [intros w n; discriminate | intros w [] | constructor]. }
  simpl app in Ha, Hb.
  eexists. split; [reflexivity|].
  unfold top_entries.
  set (sorted := stable_sort by_count_desc (JSObject.entries frequency)).
  assert (Hperm : Permutation sorted frequency).
  { unfold sorted. rewrite stable_sort_perm. apply entries_perm. }
  assert (Hword : forall l : list (string * nat),
             map Keyword.word (map (fun wc => Keyword.Make (fst wc) (snd wc)) l)
             = map fst l).
  { intros l. rewrite map_map. reflexivity. }
  split; [|split].
  - rewrite Hword, <- firstn_map. apply NoDup_firstn.
    eapply Permutation_NoDup; [|exact Hn].
    apply Permutation_map. now symmetry.
  - apply Forall_map. apply Forall_forall. intros [w n] Hin.
    apply In_firstn in Hin.
    apply (Permutation_in _ Hperm) in Hin.
    apply (@In_get_own _ w n frequency Hn) in Hin.
    cbn [Keyword.word Keyword.count fst snd].
    destruct (Ha w n Hin) as (Hcount & _ & Hpos). auto.
  - intros Hlen w Hw Hk Hp. rewrite Hword.
    rewrite length_map, length_firstn in Hlen.
    rewrite firstn_all2 by lia.
    apply (Permutation_in (l := map fst frequency)).
    + apply Permutation_map. now symmetry.
    + destruct (JSObject.get_own w frequency) as [n|] eqn:E.
      * apply get_own_In in E. now apply (in_map fst) in E.
      * exfalso. now apply (Hb w Hw Hk Hp).
Qed.

Lemma extractKeywords_counts_witness :
  exists r : list Keyword.t,
    extractKeywords ["the"; "and"]%string
                    "The release and the release notes: release-ready" 10 = Some r /\
    NoDup (map Keyword.word r) /\
    Forall (fun k =>
              Keyword.count k
              = count_occ string_dec
                  (tokens (explode "The release and the release notes: release-ready"))
                  (Keyword.word k) /\
              1 <= Keyword.count k) r /\
    (length r < 10 ->
     forall w,
       In w (tokens (explode "The release and the release notes: release-ready")) ->
       kept ["the"; "and"]%string w = true ->
       w <> "__proto__"%string -> In w (map Keyword.word r)).
Proof.
  apply (@extractKeywords_counts ["the"; "and"]%string
           "The release and the release notes: release-ready"%string 10).
  intros w Hin _. vm_compute in Hin.
  repeat (destruct Hin as [<-|Hin]; [discriminate|]). contradiction.
Defined.

Example keyword_counts :
  extractKeywords ["the"; "and"]%string
                  "The release and the release notes: release-ready" 10
  = Some [Keyword.Make "release" 3; Keyword.Make "notes" 1;
          Keyword.Make "ready" 1].
Proof. vm_compute. reflexivity. Qed.

(* ================================================================== *)
(** * The order of finite binary64 numbers and the sign of a difference *)
(* ================================================================== *)

Module FloatOrder.
Import FloatOps SpecFloat FloatAxioms Binary64 Binary64Order.
Local Open Scope Z_scope.

Lemma V_positive (m : positive) (e : Z) : - B <= e -> 0 < V (Zpos m) e.
Proof.
  intros He. unfold V. apply Z.mul_pos_pos; [lia | apply FloatBounds.pow2_pos; lia].
Qed.

Lemma V_lt_exp (m m' : positive) (e e' : Z) :
  canonical_mantissa prec emax m e = true ->
  canonical_mantissa prec emax m' e' = true ->
  e < e' -> V (Zpos m) e < V (Zpos m') e'.
Proof.
  intros Hc Hc' Hlt.
  destruct (@FloatBounds.canonical_facts m e Hc) as (He & Hm & _).
  destruct (@FloatBounds.canonical_facts m' e' Hc') as (He' & _ & Hm').
  assert (HB : B = 3000) by reflexivity.
  specialize (Hm' ltac:(lia)).
  unfold V. replace (e' + B) with (1 + (e' - e - 1) + (e + B)) by lia.
  rewrite (Z.pow_add_r 2 (1 + (e' - e - 1)) (e + B)) by lia.
  rewrite (Z.pow_add_r 2 1 (e' - e - 1)) by lia. change (2 ^ 1) with 2.
  assert (0 < 2 ^ (e' - e - 1)) by (apply FloatBounds.pow2_pos; lia).
  assert (0 < 2 ^ (e + B)) by (apply FloatBounds.pow2_pos; lia).
  change (2 ^ 53) with (2 * 2 ^ 52) in Hm.
  set (T := 2 ^ 52) in *. set (Y := 2 ^ (e' - e - 1)) in *.
  set (P := 2 ^ (e + B)) in *.
  assert (Zpos m < Zpos m' * (2 * Y)) by nia.
  nia.
Qed.

(** The comparison of two positive finite numbers is that of their
    values. *)
Lemma compare_V (m m' : positive) (e e' : Z) :
  canonical_mantissa prec emax m e = true ->
  canonical_mantissa prec emax m' e' = true ->
  match
    match e ?= e' with
    | Lt => Lt
    | Gt => Gt
    | Eq => (m ?= m')%positive
    end
  with
  | Lt => V (Zpos m) e < V (Zpos m') e'
  | Eq => V (Zpos m) e = V (Zpos m') e'
  | Gt => V (Zpos m') e' < V (Zpos m) e
  end.
Proof.
  intros Hc Hc'.
  destruct (@FloatBounds.canonical_facts m e Hc) as (He & _).
  assert (HB : B = 3000) by reflexivity.
  destruct (e ?= e') eqn:Ee.
  - apply Z.compare_eq in Ee. subst e'.
    assert (0 < 2 ^ (e + B)) by (apply FloatBounds.pow2_pos; lia).
    destruct (m ?= m')%positive eqn:Em.
    + apply Pos.compare_eq in Em. now subst.
    + assert (Zpos m < Zpos m') by (apply Pos2Z.pos_lt_pos; exact Em).
      unfold V. nia.
    + apply Pos.compare_gt_iff in Em.
      assert (Zpos m' < Zpos m) by (apply Pos2Z.pos_lt_pos; exact Em).
      unfold V. nia.
  - apply V_lt_exp; auto.
  - apply V_lt_exp; auto. now apply Z.compare_gt_iff in Ee.
Qed.

Lemma valid_canonical (s : bool) (m : positive) (e : Z) :
  valid_binary (S754_finite s m e) = true ->
  canonical_mantissa prec emax m e = true /\ - B <= e.
Proof.
  intros H. unfold valid_binary, SpecFloat.valid_binary, bounded in H.
  apply andb_true_iff in H. destruct H as [Hc _]. split; [exact Hc|].
  destruct (@FloatBounds.canonical_facts m e Hc) as (He & _).
  assert (HB : B = 3000) by reflexivity. lia.
Qed.

(** [x < y] on numbers that are zero or finite is the order of the
    values. *)
Lemma ltb_val (x y : spec_float) :
  valid_binary x = true -> valid_binary y = true -> fin x -> fin y ->
  (SFltb x y = true <-> val x < val y).
Proof.
  intros Vx Vy Fx Fy. unfold SFltb, SFcompare.
  destruct x as [sx|sx| |sx mx ex]; try contradiction;
    destruct y as [sy|sy| |sy my ey]; try contradiction; cbn [val].
  - split; [discriminate | lia].
  - destruct (@valid_canonical _ _ _ Vy) as [_ Hy].
    pose proof (V_positive my Hy). destruct sy; cbn [cond_Zopp];
      split; try discriminate; try lia; auto.
  - destruct (@valid_canonical _ _ _ Vx) as [_ Hx].
    pose proof (V_positive mx Hx). destruct sx; cbn [cond_Zopp];
      split; try discriminate; try lia; auto.
  - destruct (@valid_canonical _ _ _ Vx) as [Cx Hx].
    destruct (@valid_canonical _ _ _ Vy) as [Cy Hy].
    pose proof (V_positive mx Hx). pose proof (V_positive my Hy).
    pose proof (@compare_V _ _ _ _ Cx Cy) as Hcmp.
    change (IntDef.Z.compare ex ey) with (Z.compare ex ey).
    rewrite FloatFacts.compare_cont_Eq.
    destruct sx, sy; cbn [cond_Zopp].
    + destruct (ex ?= ey); [destruct (mx ?= my)%positive|..]; cbn [CompOpp];
        split; try discriminate; try lia; auto.
    + split; [lia | reflexivity].
    + split; [discriminate | lia].
    + destruct (ex ?= ey); [destruct (mx ?= my)%positive|..];
        split; try discriminate; try lia; auto.
Qed.

Lemma bra_negative (m e : Z) (l : location) :
  SFltb (S754_zero false) (binary_round_aux prec emax true m e l) = false.
Proof.
  rewrite FloatBounds.bra_unfold. cbv zeta.
  destruct (shr_m (fst (shr_fexp prec emax _ _ loc_Exact))); try reflexivity.
  destruct (_ <=? _); reflexivity.
Qed.

Lemma binary_round_positive (m : positive) (e : Z) :
  -1074 <= e ->
  SFltb (S754_zero false) (binary_round prec emax false m e) = true.
Proof.
  intros He. assert (HB : B = 3000) by reflexivity.
  unfold binary_round.
  set (e' := fexp prec emax _).
  assert (He' : -1074 <= e') by (unfold e'; rewrite FloatBounds.fexp_eq; lia).
  destruct (@FloatBounds.shl_align_V m e e' ltac:(lia) ltac:(lia)) as (Hs & Hmin & _).
  destruct (shl_align m e e') as [mz ez]. cbn [fst snd] in *.
  assert (Hone : canonical_mantissa prec emax 1 (-1074) = true) by reflexivity.
  assert (HV : V (Zpos 1) (-1074) <= V (Zpos mz) ez).
  { assert (Hez : -1074 <= ez) by lia.
    unfold V. replace (ez + B) with ((ez + 1074) + (-1074 + B)) by lia.
    rewrite (Z.pow_add_r 2 (ez + 1074) (-1074 + B)) by lia.
    assert (0 < 2 ^ (ez + 1074)) by (apply FloatBounds.pow2_pos; lia).
    assert (0 < 2 ^ (-1074 + B)) by (apply FloatBounds.pow2_pos; lia).
    set (X := 2 ^ (ez + 1074)) in *. set (P := 2 ^ (-1074 + B)) in *.
    assert (1 <= Zpos mz * X) by nia.
    rewrite Z.mul_assoc. nia. }
  destruct (@FloatBounds.bra_lo (Zpos mz) ez loc_Exact _ _ ltac:(lia) ltac:(lia)
              Hone HV) as [->|(m3 & e3 & -> & _)]; reflexivity.
Qed.

Lemma binary_round_negative (m : positive) (e : Z) :
  SFltb (S754_zero false) (binary_round prec emax true m e) = false.
Proof.
  unfold binary_round. destruct (shl_align m e _) as [mz ez].
  apply bra_negative.
Qed.

(** The sign of [y - x] is that of the difference of the values. *)
Lemma sub_sign (x y : spec_float) :
  valid_binary x = true -> valid_binary y = true -> fin x -> fin y ->
  (SFltb (S754_zero false) (SF64sub y x) = true <-> val x < val y).
Proof.
  intros Vx Vy Fx Fy. unfold SF64sub, SFsub.
  assert (HB : B = 3000) by reflexivity.
  destruct x as [sx|sx| |sx mx ex]; try contradiction;
    destruct y as [sy|sy| |sy my ey]; try contradiction; cbn [val].
  - destruct sy, sx; split; try discriminate; lia.
  - destruct (@valid_canonical _ _ _ Vy) as [_ Hy].
    pose proof (V_positive my Hy). destruct sy; cbn [cond_Zopp];
      split; try discriminate; try lia; auto.
  - destruct (@valid_canonical _ _ _ Vx) as [_ Hx].
    pose proof (V_positive mx Hx). destruct sx; cbn [cond_Zopp negb];
      split; try discriminate; try lia; auto.
  - destruct (@valid_canonical _ _ _ Vx) as [Cx Hx].
    destruct (@valid_canonical _ _ _ Vy) as [Cy Hy].
    destruct (@FloatBounds.canonical_facts mx ex Cx) as (Hex & _).
    destruct (@FloatBounds.canonical_facts my ey Cy) as (Hey & _).
    set (ez := IntDef.Z.min ey ex).
    assert (Hez : ez = Z.min ey ex) by reflexivity.
    destruct (@FloatBounds.shl_align_V mx ex ez ltac:(lia) ltac:(lia))
      as (Hax & _ & Hsx).
    destruct (@FloatBounds.shl_align_V my ey ez ltac:(lia) ltac:(lia))
      as (Hay & _ & Hsy).
    rewrite Hsx in Hax by lia. rewrite Hsy in Hay by lia.
    set (a := fst (shl_align mx ex ez)) in *.
    set (b := fst (shl_align my ey ez)) in *.
    assert (Hp : 0 < 2 ^ (ez + B)) by (apply FloatBounds.pow2_pos; lia).
    assert (Hd : val (S754_finite sx mx ex) < val (S754_finite sy my ey)
                 <-> 0 < cond_Zopp sy (Zpos b) - cond_Zopp sx (Zpos a)).
    { cbn [val]. rewrite <- Hax, <- Hay. unfold V.
      destruct sx, sy; cbn [cond_Zopp]; nia. }
    cbn [val] in Hd. rewrite Hd.
    change (IntDef.Z.sub (cond_Zopp sy (Zpos b)) (cond_Zopp sx (Zpos a)))
      with (cond_Zopp sy (Zpos b) - cond_Zopp sx (Zpos a)).
    unfold binary_normalize.
    destruct (cond_Zopp sy (Zpos b) - cond_Zopp sx (Zpos a)) as [|d|d].
    + split; [discriminate | lia].
    + rewrite binary_round_positive by lia. split; [lia | reflexivity].
    + rewrite binary_round_negative. split; [discriminate | lia].
Qed.

(** On finite numbers, [y - x > 0] says [x < y]. *)
Lemma sub_pos_iff (x y : float) :
  finite x -> finite y -> (0 <? y - x)%float = (x <? y)%float.
Proof.
  intros Fx Fy. rewrite !ltb_spec, sub_spec.
  change (Prim2SF 0) with (S754_zero false).
  pose proof (@sub_sign _ _ (Prim2SF_valid x) (Prim2SF_valid y) Fx Fy) as Hs.
  pose proof (@ltb_val _ _ (Prim2SF_valid x) (Prim2SF_valid y) Fx Fy) as Hl.
  destruct (SFltb (S754_zero false) (SF64sub (Prim2SF y) (Prim2SF x)));
    destruct (SFltb (Prim2SF x) (Prim2SF y)); try reflexivity.
  - assert (true = true) as Ht by reflexivity.
    apply Hs in Ht. apply Hl in Ht. discriminate.
  - assert (true = true) as Ht by reflexivity.
    apply Hl in Ht. apply Hs in Ht. discriminate.
Qed.

Lemma ltb_asym (x y : float) :
  finite x -> finite y -> (x <? y)%float = true -> (y <? x)%float = false.
Proof.
  intros Fx Fy H. rewrite ltb_spec in *.
  apply (@ltb_val _ _ (Prim2SF_valid x) (Prim2SF_valid y) Fx Fy) in H.
  destruct (SFltb (Prim2SF y) (Prim2SF x)) eqn:E; [|reflexivity].
  apply (@ltb_val _ _ (Prim2SF_valid y) (Prim2SF_valid x) Fy Fx) in E. lia.
Qed.

Lemma geb_trans (x y z : float) :
  finite x -> finite y -> finite z ->
  (x <? y)%float = false -> (y <? z)%float = false -> (x <? z)%float = false.
Proof.
  intros Fx Fy Fz Hxy Hyz. rewrite ltb_spec in *.
  destruct (SFltb (Prim2SF x) (Prim2SF z)) eqn:E; [|reflexivity].
  apply (@ltb_val _ _ (Prim2SF_valid x) (Prim2SF_valid z) Fx Fz) in E.
  assert (Hxy' : ~ val (Prim2SF x) < val (Prim2SF y)).
  { intros H. apply (@ltb_val _ _ (Prim2SF_valid x) (Prim2SF_valid y) Fx Fy) in H.
    congruence. }
  assert (Hyz' : ~ val (Prim2SF y) < val (Prim2SF z)).
  { intros H. apply (@ltb_val _ _ (Prim2SF_valid y) (Prim2SF_valid z) Fy Fz) in H.
    congruence. }
  lia.
Qed.

End FloatOrder.

Section SortFacts.
Variable A : Type.
Variable before : A -> A -> bool.
Variable P : A -> Prop.
Hypothesis before_total :
  forall x y, P x -> P y -> before x y = false -> before y x = true.
Hypothesis before_trans :
  forall x y z, P x -> P y -> P z ->
                before x y = true -> before y z = true -> before x z = true.

Lemma sort_insert_sorted (x : A) (l : list A) :
  P x -> Forall P l ->
  StronglySorted (fun a b => before a b = true) l ->
  StronglySorted (fun a b => before a b = true) (sort_insert before x l).
Proof.
  intros Hx Hl Hs. induction Hs as [|y l Hs IH Hy]; simpl.
  - repeat constructor.
  - inversion Hl as [|? ? Py Pl]; subst.
    destruct (before x y) eqn:E.
    + constructor; [constructor; assumption|].
      constructor; [exact E|].
      rewrite Forall_forall in Hy, Pl |- *. intros z Hz.
      apply (before_trans Hx Py (Pl z Hz) E (Hy z Hz)).
    + constructor; [now apply IH|].
      apply Forall_forall. intros z Hz. apply In_sort_insert in Hz.
      destruct Hz as [->|Hz].
      * now apply before_total.
      * rewrite Forall_forall in Hy. now apply Hy.
Qed.

Lemma stable_sort_sorted (l : list A) :
  Forall P l ->
  StronglySorted (fun a b => before a b = true) (stable_sort before l).
Proof.
  induction l as [|x l IH]; intros Hl; simpl; [constructor|].
  inversion Hl; subst. apply sort_insert_sorted; auto.
  apply Forall_forall. intros y Hy. apply In_stable_sort in Hy.
  match goal with H : Forall P l |- _ => rewrite Forall_forall in H; now apply H end.
Qed.

End SortFacts.

(** X17. When the time stamp of every message parses to a finite
    number, the [details] of [getSentimentStats] are the details of the
    messages, one for each, in another order, and they are sorted with
    the newest first: no detail is followed, at any distance, by one
    whose time stamp is larger. *)
Theorem details_newest_first
        (getHours : string -> option nat) (parseFloat : string -> float)
        (messages : list Message.t) :
  Forall (fun m => Binary64Order.finite (parseFloat (Message.ts m))) messages ->
  let details :=
    SentimentStats.details (getSentimentStats getHours parseFloat messages) in
  Permutation details (map detail_of messages) /\
  length details = length messages /\
  StronglySorted (newest_first parseFloat) details.
Proof.
  intros Hfin details.
  assert (Hd : details = stable_sort (by_ts_desc parseFloat) (map detail_of messages)).
  { unfold details. destruct messages; reflexivity. }
  rewrite Hd. clear Hd details.
  assert (Hperm : Permutation (stable_sort (by_ts_desc parseFloat)
                                           (map detail_of messages))
                              (map detail_of messages))
    by apply stable_sort_perm.
  split; [exact Hperm|]. split.
  - rewrite (Permutation_length Hperm). apply length_map.
  - assert (Hbefore : forall a b,
               Binary64Order.finite (parseFloat (Detail.ts a)) ->
               Binary64Order.finite (parseFloat (Detail.ts b)) ->
               by_ts_desc parseFloat a b
               = negb (parseFloat (Detail.ts a) <? parseFloat (Detail.ts b))%float).
    { intros a b Fa Fb. unfold by_ts_desc. now rewrite FloatOrder.sub_pos_iff. }
    assert (Hall : Forall (fun d => Binary64Order.finite (parseFloat (Detail.ts d)))
                          (map detail_of messages)).
    { apply Forall_map. eapply Forall_impl; [|exact Hfin]. auto. }
    eapply StronglySorted_weaken;
      [|apply (@stable_sort_sorted _ (by_ts_desc parseFloat)
                 (fun d => Binary64Order.finite (parseFloat (Detail.ts d))))].
    + intros a b Ha Hb H. unfold newest_first. cbv beta in H.
      rewrite Forall_forall in Hall.
      apply (proj1 (In_stable_sort _ _ _)) in Ha, Hb.
      rewrite (Hbefore a b (Hall a Ha) (Hall b Hb)) in H.
      now apply negb_true_iff in H.
    + intros x y Px Py H. rewrite (Hbefore x y Px Py) in H.
      rewrite (Hbefore y x Py Px). apply negb_false_iff in H.
      now rewrite (FloatOrder.ltb_asym Px Py H).
    + intros x y z Px Py Pz Hxy Hyz.
      rewrite (Hbefore x y Px Py) in Hxy. rewrite (Hbefore y z Py Pz) in Hyz.
      rewrite (Hbefore x z Px Pz).
      apply negb_true_iff in Hxy, Hyz.
      now rewrite (FloatOrder.geb_trans Px Py Pz Hxy Hyz).
    + exact Hall.
Qed.

Lemma details_newest_first_witness :
  let details :=
    SentimentStats.details
      (getSentimentStats sample_hours sample_parseFloat sample_messages) in
  Permutation details (map detail_of sample_messages) /\
  length details = length sample_messages /\
  StronglySorted (newest_first sample_parseFloat) details.
Proof.
  apply (@details_newest_first sample_hours sample_parseFloat sample_messages).
  repeat constructor.
Defined.

Example details_order :
  map Detail.ts
      (SentimentStats.details
         (getSentimentStats sample_hours sample_parseFloat sample_messages))
  = ["1736954100.000003"; "1736954100.000002"; "1736954100.000001"]%string.
Proof. vm_compute. reflexivity. Qed.

(* ================================================================== *)
(** * The confidence is a number of hundredths *)
(* ================================================================== *)

Module FloatHundredths.
Import FloatOps SpecFloat FloatAxioms Binary64 FloatBounds.
Local Open Scope Z_scope.

Lemma confidence_hundredth (matchedWords words strength : nat) :
  (1 <= matchedWords <= 21)%nat ->
  let c := JSNumber.min
             (0.5 + JSNumber.of_nat matchedWords / JSNumber.of_nat words * 0.3
              + JSNumber.of_nat strength / JSNumber.of_nat matchedWords * 0.2)%float
             0.95%float in
  exists k, 50 <= k <= 95 /\ round2 c = hundredth k.
Proof.
  intros Hm.
  set (d := (JSNumber.of_nat matchedWords / JSNumber.of_nat words)%float).
  set (s := (JSNumber.of_nat strength / JSNumber.of_nat matchedWords)%float).
  assert (Hd : nonneg (Prim2SF d)).
  { unfold d. rewrite div_spec. apply div_nonneg; try apply of_nat_nonneg.
    left. now apply of_small_nat. }
  assert (Hs : nonneg (Prim2SF s)).
  { unfold s. rewrite div_spec. apply div_nonneg; try apply of_nat_nonneg.
    right. now apply of_small_nat. }
  assert (H1 : nonneg (Prim2SF (d * 0.3)%float)).
  { rewrite mul_spec. change (Prim2SF 0.3%float)
      with (S754_finite false 5404319552844595 (-54)). now apply mul_nonneg. }
  assert (H3 : nonneg (Prim2SF (s * 0.2)%float)).
  { rewrite mul_spec. change (Prim2SF 0.2%float)
      with (S754_finite false 7205759403792794 (-55)). now apply mul_nonneg. }
  assert (H2 : ge_half (Prim2SF (0.5 + d * 0.3)%float)).
  { rewrite add_spec. apply add_ge_half; try apply Prim2SF_valid; [|exact H1].
    right. rewrite rep_half. do 2 eexists. split; [reflexivity|].
    rewrite half_eq. lia. }
  assert (H4 : ge_half (Prim2SF (0.5 + d * 0.3 + s * 0.2)%float)).
  { rewrite add_spec. apply add_ge_half; try apply Prim2SF_valid; assumption. }
  set (x := (0.5 + d * 0.3 + s * 0.2)%float) in *.
  cbv zeta.
  assert (Hcap : exists k, 50 <= k <= 95 /\ round2 0.95 = hundredth k).
  { exists 95. split; [lia|]. vm_compute. reflexivity. }
  unfold JSNumber.min.
  rewrite (nonneg_not_nan x (ge_half_nonneg H4)).
  change (PrimFloat.is_nan 0.95) with false. cbn [orb].
  destruct (x <? 0.95)%float eqn:Elt.
  - rewrite ltb_spec, rep_95 in Elt.
    destruct H4 as [H4|(m4 & e4 & H4 & Hlo)]; rewrite H4 in Elt; [discriminate|].
    destruct (@valid_finite x false m4 e4 H4) as [Hc _].
    assert (Hhi : V (Zpos m4) e4 <= V (Zpos m95) (-53))
      by (apply Z.lt_le_incl, ltb_V; [exact Hc | reflexivity | exact Elt]).
    destruct (@mul100_bounds m4 e4 Hc Hlo Hhi) as (m3 & e3 & Hmul & H3lo & H3hi).
    assert (Hy : Prim2SF (x * 100)%float = S754_finite false m3 e3)
      by (rewrite mul_spec, H4, rep_100; exact Hmul).
    destruct (@round_bounds (x * 100)%float m3 e3 Hy H3lo H3hi) as (k & Hk & Hr).
    exists k. split; [exact Hk|]. unfold round2, hundredth. now rewrite Hr.
  - destruct (0.95 <? x)%float; [exact Hcap|].
    replace (JSNumber.is_neg_zero x) with false; [exact Hcap|].
    unfold JSNumber.is_neg_zero.
    destruct H4 as [H4|(m4 & e4 & H4 & _)]; rewrite H4; reflexivity.
Qed.

End FloatHundredths.

(** X24. The confidence of [getSentimentWithConfidence] has two
    decimals: it is 0.3 when no phrase of the lexicons is found, and
    otherwise the number [k / 100] for an integer [k] from 50 to 95. *)
Theorem confidence_is_hundredths (text : string) :
  let c := SentimentResult.confidence (getSentimentWithConfidence text) in
  (hits (positiveWords ++ negativeWords) text = 0 -> c = 0.3%float) /\
  (hits (positiveWords ++ negativeWords) text <> 0 ->
   exists k : Z, (50 <= k <= 95)%Z /\ c = hundredth k) /\
  hundredth 77 = 0.77%float.
Proof.
  cbv zeta. rewrite getSentimentWithConfidence_eq. cbv zeta.
  cbn [SentimentResult.confidence].
  pose proof (hits_le (positiveWords ++ negativeWords) text) as Hle.
  change (length (positiveWords ++ negativeWords)) with 21 in Hle.
  split; [|split].
  - intros ->. reflexivity.
  - intros Hne.
    destruct (hits (positiveWords ++ negativeWords) text) as [|n] eqn:E;
      [congruence|].
    apply FloatHundredths.confidence_hundredth. lia.
  - reflexivity.
Qed.

(* ================================================================== *)
(** * What the entries of [userStats] add up to *)
(* ================================================================== *)

Lemma user_step_sums (m : Message.t) (o : JSObject.t UserStat.t) :
  (JSObject.inherited (Message.user m) = true ->
   JSObject.get_own (Message.user m) o = None) ->
  sum_by UserStat.messageCount (user_step m o)
  = sum_by UserStat.messageCount o
    + (if JSObject.inherited (Message.user m) then 0 else 1) /\
  sum_by UserStat.totalLength (user_step m o)
  = sum_by UserStat.totalLength o
    + (if JSObject.inherited (Message.user m) then 0
       else String.length (Message.text m)).
Proof.
  intros Hown. unfold user_step. cbv zeta.
  destruct (JSObject.get_own (Message.user m) o) as [st|] eqn:E.
  - destruct (JSObject.inherited (Message.user m));
      [specialize (Hown eq_refl); discriminate|].
    set (st' := UserStat.Make _ _ _ _).
    pose proof (@sum_by_set_old _ UserStat.messageCount (Message.user m) st' st o E) as H1.
    pose proof (@sum_by_set_old _ UserStat.totalLength (Message.user m) st' st o E) as H2.
    cbn [st' UserStat.messageCount UserStat.totalLength] in H1, H2. lia.
  - destruct (JSObject.inherited (Message.user m)); [lia|].
    rewrite !sum_by_set_new by exact E. simpl. lia.
Qed.

Lemma analyze_loop_user_sums (getHours : string -> option nat) (l : list Message.t) :
  forall a,
    analyze_loop getHours l acc0 = Some a ->
    sum_by UserStat.messageCount (acc_users a) = length (of_plain_users l) /\
    sum_by UserStat.totalLength (acc_users a) = text_length (of_plain_users l).
Proof.
  induction l as [|m l IH] using rev_ind; intros a H.
  - injection H as <-. split; reflexivity.
  - rewrite analyze_loop_snoc in H.
    destruct (analyze_loop getHours l acc0) as [a0|] eqn:E; [|discriminate].
    destruct (IH a0 eq_refl) as [Hc Hl].
    destruct (@analyze_loop_state _ _ _ E) as (Hu & _).
    unfold analyze_step in H.
    destruct (channel_step m (acc_channels a0)); [|discriminate].
    injection H as <-. cbn [acc_users].
    destruct (@user_step_sums m (acc_users a0)) as [H1 H2].
    { intros Hi. rewrite Hu. unfold user_entry. now rewrite Hi. }
    rewrite H1, H2, Hc, Hl. unfold of_plain_users. rewrite filter_app.
    cbn [filter]. destruct (JSObject.inherited (Message.user m)); cbn [negb].
    + rewrite app_nil_r. lia.
    + rewrite length_app, text_length_snoc. simpl. lia.
Qed.

(** X25. For a conversation in which no channel is a member name of
    [Object.prototype] and no counted word is ["constructor"],
    [analyzeMessages] returns an analysis in which the [messageCount]
    values of [userStats] add up to the number of messages whose user is
    no member name of [Object.prototype], and the [totalLength] values to
    the summed text length of these messages; for a non-empty
    conversation the overall [averageLength] is the summed text length of
    all messages divided by their number. *)
Theorem user_stats_add_up
        (stopWords : list string) (getHours : string -> option nat)
        (messages : list Message.t) :
  analysable stopWords messages ->
  exists a : Analysis.t,
    analyzeMessages stopWords getHours messages = Returns a /\
    sum_by UserStat.messageCount (Analysis.userStats a)
    = length (of_plain_users messages) /\
    sum_by UserStat.totalLength (Analysis.userStats a)
    = text_length (of_plain_users messages) /\
    (messages <> [] ->
     Analysis.averageLength a
     = (JSNumber.of_nat (text_length messages)
        / JSNumber.of_nat (length messages))%float).
Proof.
  intros Han. destruct (analysable_returns getHours Han) as [a H].
  exists a. split; [exact H|]. clear Han.
  destruct messages as [|m0 ms].
  - injection H as <-. repeat split. congruence.
  - destruct (analysis_of_state _ _ H) as (st & kw & Hloop & _ & ->);
      [discriminate|].
    cbn [Analysis.userStats Analysis.averageLength].
    destruct (@analyze_loop_user_sums _ _ _ Hloop) as [Hc Hl].
    destruct (@analyze_loop_state _ _ _ Hloop) as (_ & _ & _ & _ & Hlen & _).
    rewrite !sum_by_map_values. split; [exact Hc|]. split; [exact Hl|].
    intros _. now rewrite Hlen.
Qed.

Lemma user_stats_add_up_witness :
  exists a : Analysis.t,
    analyzeMessages [] sample_hours sample_messages = Returns a /\
    sum_by UserStat.messageCount (Analysis.userStats a)
    = length (of_plain_users sample_messages) /\
    sum_by UserStat.totalLength (Analysis.userStats a)
    = text_length (of_plain_users sample_messages) /\
    (sample_messages <> [] ->
     Analysis.averageLength a
     = (JSNumber.of_nat (text_length sample_messages)
        / JSNumber.of_nat (length sample_messages))%float).
Proof.
  apply (@user_stats_add_up [] sample_hours sample_messages).
  sample_is_analysable.
Defined.
